(** * ATLAS: fact resolution and unit-economics inference, verified model

    A shallow embedding of the Python sources of ATLAS
    ([src/xbrl/concept_resolver.py], [src/xbrl/fact_index.py],
    [src/xbrl/fact_extractor.py], [src/atlas/identity_solver.py],
    [src/atlas/unit_economics.py], [src/atlas/cost_structure.py]) together
    with the properties the specification states about them.

    Conventions.
    - A Python [float] is an IEEE-754 binary64 number: Rocq's primitive
      [float].  [None] is [option]'s [None].
    - A Python [dict] whose iteration order is observable is an association
      list in insertion order; a [dict] that is only looked up or updated is
      a [gmap].
    - A [try: ... except: pass] around a builtin that may fail turns the
      builtin into a function to [option].
    - Text is ASCII ([string] is a list of bytes); [str.lower], [str.upper],
      [str.strip] and [str.split] are modelled on that range. *)

From Stdlib Require Import ZArith QArith Floats List Ascii Sorting.Sorted Sorting.Permutation.
From Stdlib Require Uint63.
From stdpp Require Import gmap strings list fin_maps.

#[local] Set Warnings "-inexact-float".

Local Open Scope Z_scope.

(** ** Python builtins shared by the modules *)

Module Py.

(** [sorted(l, key=k)] and [list.sort]: a stable ascending sort.  [le a b]
    is [k(a) <= k(b)].  An element is inserted before the first element it
    is [le] to, and the elements of the tail are inserted first, so equal
    keys keep their input order. *)
Fixpoint insert_sorted {A : Type} (le : A -> A -> bool) (x : A) (l : list A) : list A :=
  match l with
  | [] => [x]
  | y :: l' => if le x y then x :: y :: l' else y :: insert_sorted le x l'
  end.

Fixpoint sorted {A : Type} (le : A -> A -> bool) (l : list A) : list A :=
  match l with
  | [] => []
  | x :: l' => insert_sorted le x (sorted le l')
  end.

(** [sorted(l, key=k, reverse=True)]: descending, and still stable (Python
    reverses, sorts stably and reverses again). *)
Definition sorted_reverse {A : Type} (le : A -> A -> bool) (l : list A) : list A :=
  sorted (fun a b => le b a) l.

(** [min(a, b)] and [max(a, b)] on floats: the first argument is kept
    unless the second is strictly smaller (larger). *)
Definition min (a b : float) : float := if PrimFloat.ltb b a then b else a.
Definition max (a b : float) : float := if PrimFloat.ltb a b then b else a.

(** Truth value of a float: [x != 0.0]. *)
Definition truthy (x : float) : bool := negb (PrimFloat.eqb x 0%float).

(** [l[-1]] and [l[0]], [None] for the [IndexError] on an empty list. *)
Definition last_item {A : Type} (l : list A) : option A := List.last (map Some l) None.
Definition first_item {A : Type} (l : list A) : option A := List.head l.

(** *** Sorting lemmas *)

Section Sorting.

Context {A : Type} (le : A -> A -> bool).

Lemma insert_sorted_perm (x : A) (l : list A) : Permutation (insert_sorted le x l) (x :: l).
Proof.
  induction l as [|y l IH]; simpl; [reflexivity|].
  destruct (le x y); [reflexivity|].
  rewrite IH. apply perm_swap.
Qed.

Lemma sorted_perm (l : list A) : Permutation (sorted le l) l.
Proof.
  induction l as [|x l IH]; simpl; [reflexivity|].
  rewrite insert_sorted_perm. now constructor.
Qed.

Lemma sorted_In (x : A) (l : list A) : In x (sorted le l) <-> In x l.
Proof.
  split; apply Permutation_in; [|symmetry]; apply sorted_perm.
Qed.

Lemma sorted_length (l : list A) : length (sorted le l) = length l.
Proof. apply Permutation_length, sorted_perm. Qed.

Hypothesis le_total : forall a b, le a b = true \/ le b a = true.
Hypothesis le_trans : forall a b c, le a b = true -> le b c = true -> le a c = true.

Lemma insert_sorted_sorted (x : A) (l : list A) :
  StronglySorted (fun a b => le a b = true) l ->
  StronglySorted (fun a b => le a b = true) (insert_sorted le x l).
Proof.
  induction 1 as [|y l Hs IH Hy]; simpl.
  - constructor; constructor.
  - destruct (le x y) eqn:E.
    + constructor; [now constructor|]. constructor; [exact E|].
      rewrite List.Forall_forall in *. intros z Hz. eauto.
    + constructor; [exact IH|].
      rewrite List.Forall_forall in *. intros z Hz.
      apply (Permutation_in _ (insert_sorted_perm x l)) in Hz.
      destruct Hz as [<-|Hz]; [|auto].
      destruct (le_total x y) as [H|H]; congruence.
Qed.

Lemma sorted_sorted (l : list A) : StronglySorted (fun a b => le a b = true) (sorted le l).
Proof.
  induction l as [|x l IH]; simpl; [constructor|]. now apply insert_sorted_sorted.
Qed.

(** The first element of a sorted non-empty list is a least element. *)
Lemma sorted_head_least (l : list A) (x : A) :
  first_item (sorted le l) = Some x ->
  In x l /\ forall y, In y l -> le x y = true.
Proof.
  intros Hh. pose proof (sorted_sorted l) as Hs.
  destruct (sorted le l) as [|x' l'] eqn:E; [discriminate|].
  simpl in Hh. inversion Hh; subst x'. split.
  - apply sorted_In. rewrite E. now left.
  - intros y Hy. apply sorted_In in Hy. rewrite E in Hy.
    destruct Hy as [<-|Hy].
    + destruct (le_total x x); assumption.
    + inversion Hs; subst. rewrite List.Forall_forall in *. auto.
Qed.

(** The last element of a sorted non-empty list is a greatest element. *)
Lemma sorted_last_greatest (l : list A) (x : A) :
  last_item (sorted le l) = Some x ->
  In x l /\ forall y, In y l -> le y x = true.
Proof.
  intros Hl. pose proof (sorted_sorted l) as Hs.
  assert (forall l', StronglySorted (fun a b => le a b = true) l' ->
            last_item l' = Some x ->
            In x l' /\ forall y, In y l' -> le y x = true) as Hgen.
  { clear Hl Hs. intros l' Hs. unfold last_item.
    induction Hs as [|a l' Hs IH Ha]; [discriminate|].
    destruct l' as [|b l'']; simpl.
    - intros E. inversion E; subst. split; [now left|].
      intros y [<-|[]]. destruct (le_total x x); assumption.
    - intros E. destruct (IH E) as [Hin Hle]. split; [now right|].
      intros y [<-|Hy]; [|auto]. rewrite List.Forall_forall in Ha. auto. }
  destruct (Hgen _ Hs Hl) as [Hin Hle]. split.
  - now apply sorted_In.
  - intros y Hy. apply Hle. now apply sorted_In.
Qed.

(** Stability: a class of elements that are pairwise [le] keeps its input
    order. *)
Lemma insert_sorted_filter (P : A -> bool) (x : A) (l : list A) :
  (forall y, In y l -> P x = true -> P y = true -> le x y = true) ->
  List.filter P (insert_sorted le x l) = List.filter P (x :: l).
Proof.
  induction l as [|y l IH]; intros H; simpl; [reflexivity|].
  destruct (le x y) eqn:E; [reflexivity|].
  simpl. rewrite IH by (intros z Hz; apply H; now right). simpl.
  destruct (P x) eqn:Px; [|reflexivity].
  destruct (P y) eqn:Py; [|reflexivity].
  rewrite (H y) in E by (auto; now left). discriminate.
Qed.

Lemma sorted_stable (P : A -> bool) (l : list A) :
  (forall x y, P x = true -> P y = true -> le x y = true) ->
  List.filter P (sorted le l) = List.filter P l.
Proof.
  intros H. induction l as [|x l IH]; simpl; [reflexivity|].
  rewrite insert_sorted_filter by auto. simpl. now rewrite IH.
Qed.

End Sorting.

End Py.

(** ** [src/atlas/cost_structure.py] *)

Module CostStructure.

(** [{period: value}] for one bucket; periods are years. *)
Abbreviation period_map := (gmap Z float).

(** [buckets]: bucket name to its per-period costs, in insertion order (the
    order of the float additions below). *)
Definition buckets_t := list (string * period_map).

(** [elasticities]: bucket name to per-period elasticity, [None] where it
    could not be computed. *)
Abbreviation elasticities_t := (gmap string (gmap Z (option float))).

(** [_safe_div] *)
Definition _safe_div (num den : option float) : option float :=
  match num, den with
  | Some n, Some d => if PrimFloat.eqb d 0%float then None else Some (PrimFloat.div n d)
  | _, _ => None
  end.

Definition default_shares : list (string * float) :=
  [ ("COGS"%string, 1.0%float); ("RnD"%string, 0.0%float);
    ("SalesMarketing"%string, 0.5%float); ("GandA"%string, 0.0%float) ].

Fixpoint assoc_get {V : Type} (k : string) (l : list (string * V)) : option V :=
  match l with
  | [] => None
  | (k', v) :: l' => if String.eqb k k' then Some v else assoc_get k l'
  end.

(** [sorted(list(periods))] where [periods] is the union of the buckets'
    keys: distinct periods, ascending. *)
Fixpoint insert_uniq (p : Z) (l : list Z) : list Z :=
  match l with
  | [] => [p]
  | q :: l' =>
      match Z.compare p q with
      | Lt => p :: q :: l'
      | Eq => q :: l'
      | Gt => q :: insert_uniq p l'
      end
  end.

Definition sorted_periods (buckets : buckets_t) : list Z :=
  fold_right insert_uniq []
    (concat (map (fun b => map fst (map_to_list (snd b))) buckets)).

(** The result of one period: the four entries written into [results]. *)
Record split_results := {
  variable_cost : gmap Z float;
  fixed_cost : gmap Z float;
  variable_share : gmap Z (option float);
  total : gmap Z float;
}.

(** State of the inner loop over the buckets for a period [p]. *)
Record acc := {
  total_cost : float;
  total_variable : float;
  shares : gmap string (gmap Z float);
}.

(** [elasticities.get(bucket, {}).get(p)] *)
Definition elasticity_at (elasticities : elasticities_t) (bucket : string) (p : Z)
  : option float :=
  match elasticities !! bucket with
  | Some per_period =>
      match per_period !! p with Some e => e | None => None end
  | None => None
  end.

(** Body of [for bucket, data in buckets.items()] *)
Definition bucket_step (elasticities : elasticities_t) (p : Z)
    (a : acc) (b : string * period_map) : acc :=
  let '(bucket, data) := b in
  match data !! p with
  | None => a
  | Some cost =>
      let share :=
        match elasticity_at elasticities bucket p with
        | Some elas => Py.max 0.0%float (Py.min elas 1.0%float)
        | None => default (0.0%float) (assoc_get bucket default_shares)
        end in
      {| total_cost := PrimFloat.add (total_cost a) cost;
         total_variable := PrimFloat.add (total_variable a) (PrimFloat.mul cost share);
         shares := <[bucket := <[p := share]> (default ∅ (shares a !! bucket))]> (shares a) |}
  end.

(** Body of [for p in sorted_periods] *)
Definition period_step (buckets : buckets_t) (elasticities : elasticities_t)
    (st : split_results * gmap string (gmap Z float)) (p : Z)
  : split_results * gmap string (gmap Z float) :=
  let '(res, bshares) := st in
  let a := fold_left (bucket_step elasticities p) buckets
             {| total_cost := 0.0%float; total_variable := 0.0%float; shares := bshares |} in
  ({| total := <[p := total_cost a]> (total res);
      variable_cost := <[p := total_variable a]> (variable_cost res);
      fixed_cost := <[p := PrimFloat.sub (total_cost a) (total_variable a)]> (fixed_cost res);
      variable_share :=
        <[p := _safe_div (Some (total_variable a)) (Some (total_cost a))]> (variable_share res) |},
   shares a).

(** [compute_fixed_variable_split(buckets, elasticities, volume_series)];
    [volume_series] is accepted and not used, as in the source. *)
Definition compute_fixed_variable_split (buckets : buckets_t)
    (elasticities : elasticities_t) (volume_series : list (Z * float))
  : split_results * gmap string (gmap Z float) :=
  fold_left (period_step buckets elasticities) (sorted_periods buckets)
    ({| variable_cost := ∅; fixed_cost := ∅; variable_share := ∅; total := ∅ |},
     list_to_map (map (fun b => (fst b, ∅)) buckets)).


(** Per-bucket variable share recorded for a period. *)
Definition share_of (bshares : gmap string (gmap Z float)) (bucket : string) (p : Z)
  : option float :=
  match bshares !! bucket with Some m => m !! p | None => None end.






(** *** Properties *)

Lemma insert_uniq_same (p : Z) : insert_uniq p [p] = [p].
Proof. simpl. now rewrite Z.compare_refl. Qed.












End CostStructure.

(** ** [src/atlas/unit_economics.py] *)

Module UnitEconomics.

(** [max(0.0, min(x, 0.5))] *)
Definition clamp_rate (x : float) : float := Py.max 0.0%float (Py.min x 0.5%float).

(** [compute_unit_economics], the [TaxRate] entry of [inputs].
    [tax_provision] and [pre_tax] are the two values [atlas.get] returned
    ([None] when the concept could not be resolved):

      inputs["TaxRate"] = 0.21
      if tax_provision and pre_tax and pre_tax > 0:
          inputs["TaxRate"] = max(0.0, min(tax_provision / pre_tax, 0.5))   *)
Definition TaxRate (tax_provision pre_tax : option float) : float :=
  match tax_provision, pre_tax with
  | Some t, Some p =>
      if Py.truthy t && Py.truthy p && PrimFloat.ltb 0%float p
      then clamp_rate (PrimFloat.div t p)
      else 0.21%float
  | _, _ => 0.21%float
  end.

(** *** Properties *)

(** Comparison of specification floats is antisymmetric. *)
Lemma SFcompare_antisym (x y : spec_float) :
  SFcompare y x = option_map CompOpp (SFcompare x y).
Proof.
  destruct x as [sx|sx| |sx mx ex], y as [sy|sy| |sy my ey]; simpl;
    try reflexivity; try (destruct sx; reflexivity); try (destruct sy; reflexivity);
    try (destruct sx, sy; reflexivity).
  destruct sx, sy; simpl; try reflexivity;
    rewrite (Z.compare_antisym ex ey); destruct (ex ?= ey)%Z; simpl; try reflexivity;
    rewrite (Pos.compare_cont_antisym mx my Eq); simpl;
    destruct (Pos.compare_cont Eq mx my); reflexivity.
Qed.

Lemma ltb_leb (x y : float) : PrimFloat.ltb x y = true -> PrimFloat.leb x y = true.
Proof.
  rewrite ltb_spec, leb_spec. unfold SFltb, SFleb.
  destruct (SFcompare _ _) as [[| |]|]; congruence.
Qed.

Lemma SFcompare_None (x y : spec_float) :
  SFcompare x y = None -> x = S754_nan \/ y = S754_nan.
Proof.
  destruct x as [sx|sx| |sx mx ex], y as [sy|sy| |sy my ey]; simpl; auto;
    try discriminate; destruct sx; discriminate.
Qed.

(** [not (b < x)] gives [x <= b] as soon as [x] is comparable to something
    (it is not NaN) and [b] is an ordinary number. *)
Lemma not_ltb_leb (a b x : float) :
  PrimFloat.ltb a x = true -> PrimFloat.leb b b = true ->
  PrimFloat.ltb b x = false -> PrimFloat.leb x b = true.
Proof.
  rewrite !ltb_spec, !leb_spec. unfold SFltb, SFleb.
  intros Ha Hb Hx. rewrite (SFcompare_antisym (Prim2SF b) (Prim2SF x)).
  destruct (SFcompare (Prim2SF b) (Prim2SF x)) as [[| |]|] eqn:E; simpl;
    try reflexivity; try discriminate Hx.
  apply SFcompare_None in E. destruct E as [E|E]; rewrite E in *.
  - discriminate Hb.
  - destruct (Prim2SF a); discriminate Ha.
Qed.

(** The clamp yields a number of the interval [0, 0.5], whatever its
    argument (a NaN ratio is sent to 0). *)
Lemma clamp_rate_range (x : float) :
  PrimFloat.leb 0%float (clamp_rate x) = true /\ PrimFloat.leb (clamp_rate x) 0.5%float = true.
Proof.
  unfold clamp_rate, Py.min.
  destruct (PrimFloat.ltb 0.5%float x) eqn:Hhi; [split; reflexivity|].
  unfold Py.max. destruct (PrimFloat.ltb 0%float x) eqn:Hlo; [|split; reflexivity].
  split; [now apply ltb_leb|].
  now apply (not_ltb_leb 0%float).
Qed.

(** C8 (amended).  With a non-zero tax provision and a strictly positive
    pre-tax income the [TaxRate] input is their ratio clamped to [0, 0.5];
    when either figure is unresolved, or the pre-tax income is not strictly
    positive, it is the default 0.21. *)
Theorem TaxRate_guarded (tax_provision pre_tax : option float) :
  (forall t p, tax_provision = Some t -> pre_tax = Some p ->
     Py.truthy t = true -> PrimFloat.ltb 0%float p = true ->
     TaxRate tax_provision pre_tax = clamp_rate (PrimFloat.div t p) /\
     PrimFloat.leb 0%float (TaxRate tax_provision pre_tax) = true /\
     PrimFloat.leb (TaxRate tax_provision pre_tax) 0.5%float = true) /\
  (tax_provision = None \/ pre_tax = None \/
     (exists p, pre_tax = Some p /\ PrimFloat.ltb 0%float p = false) ->
   TaxRate tax_provision pre_tax = 0.21%float).
Proof.
  split.
  - intros t p -> -> Ht Hp. unfold TaxRate. rewrite Ht, Hp.
    assert (Py.truthy p = true) as ->.
    { unfold Py.truthy. rewrite FloatAxioms.eqb_spec. rewrite ltb_spec in Hp.
      unfold SFeqb. unfold SFltb in Hp. change (Prim2SF 0%float) with (S754_zero false) in *.
      rewrite (SFcompare_antisym (S754_zero false) (Prim2SF p)).
      destruct (SFcompare _ _) as [[| |]|]; try discriminate Hp. reflexivity. }
    simpl. split; [reflexivity|]. apply clamp_rate_range.
  - intros [->|[->|[p [-> Hp]]]]; unfold TaxRate.
    + reflexivity.
    + now destruct tax_provision.
    + destruct tax_provision; [|reflexivity]. rewrite Hp.
      now rewrite andb_false_r.
Qed.

Lemma TaxRate_guarded_witness :
  TaxRate (Some 30%float) (Some 120%float) = 0.25%float /\
  TaxRate (Some 30%float) None = 0.21%float.
Proof.
  destruct (TaxRate_guarded (Some 30%float) (Some 120%float)) as [Hclamp _].
  destruct (TaxRate_guarded (Some 30%float) None) as [_ Hdef].
  split.
  - destruct (Hclamp 30%float 120%float eq_refl eq_refl eq_refl eq_refl) as [-> _].
    reflexivity.
  - apply Hdef. right. left. reflexivity.
Defined.

(** C8, as stated, fails: a tax provision of 10 on a pre-tax loss of 100
    are both resolved, their ratio clamps to 0, and the input stays at the
    default 0.21. *)
Lemma TaxRate_loss_keeps_default :
  TaxRate (Some 10%float) (Some (-100)%float) = 0.21%float /\
  clamp_rate (PrimFloat.div 10%float (-100)%float) = 0%float /\
  PrimFloat.eqb 0.21%float 0%float = false.
Proof. repeat split. Qed.

(** *** Maintenance capital expenditure *)

(** [maintenance_capex = None
     if depr is not None and ppe_curr is not None and ppe_prev is not None:
         maintenance_capex = max(0.0, depr - (ppe_curr - ppe_prev))] *)
Definition maintenance_capex (depr ppe_curr ppe_prev : option float) : option float :=
  match depr, ppe_curr, ppe_prev with
  | Some depr, Some ppe_curr, Some ppe_prev =>
      Some (Py.max 0.0%float (PrimFloat.sub depr (PrimFloat.sub ppe_curr ppe_prev)))
  | _, _, _ => None
  end.

(** A float that something is smaller than is not NaN. *)
Lemma ltb_not_nan (a x : float) :
  PrimFloat.ltb a x = true -> PrimFloat.eqb x x = true.
Proof.
  rewrite ltb_spec, FloatAxioms.eqb_spec. unfold SFltb, SFeqb.
  destruct (Prim2SF x) as [s|s| |s m e].
  - reflexivity.
  - destruct s; reflexivity.
  - intros H. destruct (Prim2SF a) as [sa|sa| |sa ma ea]; simpl in H;
      try discriminate H; destruct sa; discriminate H.
  - intros _. simpl. destruct s; rewrite Z.compare_refl, Pos.compare_cont_refl; reflexivity.
Qed.

(** Maintenance capex is known exactly when depreciation and both PPE
    figures are.  It is then depreciation minus the growth of PPE when that
    difference is greater than 0, and 0 otherwise: when PPE grew by at
    least the depreciation, and when the difference is NaN.  It is never
    negative. *)
Theorem maintenance_capex_nonneg (depr ppe_curr ppe_prev : option float) :
  (is_Some (maintenance_capex depr ppe_curr ppe_prev) <->
   is_Some depr /\ is_Some ppe_curr /\ is_Some ppe_prev) /\
  (forall m, maintenance_capex depr ppe_curr ppe_prev = Some m ->
             PrimFloat.leb 0%float m = true) /\
  forall d c p, depr = Some d -> ppe_curr = Some c -> ppe_prev = Some p ->
    exists m,
      maintenance_capex depr ppe_curr ppe_prev = Some m /\
      (PrimFloat.ltb 0%float (PrimFloat.sub d (PrimFloat.sub c p)) = true ->
       m = PrimFloat.sub d (PrimFloat.sub c p)) /\
      (PrimFloat.ltb 0%float (PrimFloat.sub d (PrimFloat.sub c p)) = false ->
       m = 0%float) /\
      (PrimFloat.eqb (PrimFloat.sub d (PrimFloat.sub c p))
                     (PrimFloat.sub d (PrimFloat.sub c p)) = false ->
       m = 0%float).
Proof.
  split; [|split].
  - unfold maintenance_capex. destruct depr, ppe_curr, ppe_prev; split;
      try (intros [x Hx]; discriminate Hx);
      try (intros [[x Hx] [[y Hy] [z Hz]]]; discriminate);
      intros _; repeat split; eexists; reflexivity.
  - unfold maintenance_capex. destruct depr as [d|], ppe_curr as [c|], ppe_prev as [p|];
      try discriminate.
    intros m H. inversion H as [E]. unfold Py.max.
    destruct (PrimFloat.ltb _ _) eqn:Hlt; [now apply ltb_leb|reflexivity].
  - intros d c p -> -> ->. unfold maintenance_capex, Py.max.
    destruct (PrimFloat.ltb 0%float (PrimFloat.sub d (PrimFloat.sub c p))) eqn:Hlt;
      eexists; (split; [reflexivity|]); repeat split; try discriminate; try reflexivity.
    intros Hnan. apply ltb_not_nan in Hlt. rewrite Hlt in Hnan. discriminate.
Qed.

Lemma maintenance_capex_nonneg_witness :
  maintenance_capex (Some 10%float) (Some 150%float) (Some 100%float) = Some 0%float /\
  maintenance_capex (Some 50%float) (Some 120%float) (Some 100%float) = Some 30%float /\
  maintenance_capex (Some 10%float) (Some nan) (Some 100%float) = Some 0%float.
Proof.
  destruct (proj2 (proj2 (maintenance_capex_nonneg
                            (Some 10%float) (Some 150%float) (Some 100%float)))
              10%float 150%float 100%float eq_refl eq_refl eq_refl)
    as [m1 [E1 [_ [H1 _]]]].
  destruct (proj2 (proj2 (maintenance_capex_nonneg
                            (Some 50%float) (Some 120%float) (Some 100%float)))
              50%float 120%float 100%float eq_refl eq_refl eq_refl)
    as [m2 [E2 [H2 _]]].
  destruct (proj2 (proj2 (maintenance_capex_nonneg
                            (Some 10%float) (Some nan) (Some 100%float)))
              10%float nan 100%float eq_refl eq_refl eq_refl)
    as [m3 [E3 [_ [_ H3]]]].
  rewrite E1, E2, E3, (H1 eq_refl), (H2 eq_refl), (H3 eq_refl). repeat split.
Defined.

End UnitEconomics.

(** ** [src/atlas/identity_solver.py] *)

Module IdentitySolver.

Local Open Scope nat_scope.

(** The unit-economics model: a [dict] from variable name to a number or
    [None] (the orchestrator stores [None] for an unresolved concept). *)
Abbreviation model := (gmap string (option float)).

(** [updated.get(k)]: [None] for an absent key and for a stored [None]. *)
Definition get (m : model) (k : string) : option float :=
  match m !! k with Some v => v | None => None end.

(** [(identity, target, requires)] *)
Definition rule : Type := string * string * list string.

Definition solvers : list rule :=
  [ ("CAC_Identity", "CAC", ["SalesMarketing"; "RetentionMarketing"; "GrossNewCustomers"]);
    ("CAC_Identity", "GrossNewCustomers", ["SalesMarketing"; "RetentionMarketing"; "CAC"]);
    ("UnitRevenue_Identity", "RevenuePerUnit", ["Revenue"; "VolumeDriver"]);
    ("VariableCostPerUnit_Identity", "VariableCostPerUnit", ["COGS_variable"; "VolumeDriver"]);
    ("ContributionMargin_Identity", "ContributionMarginPerUnit",
       ["Revenue"; "COGS_variable"; "VolumeDriver"]);
    ("ContributionMargin_Check", "ContributionMarginPerUnit",
       ["RevenuePerUnit"; "VariableCostPerUnit"]);
    ("NOPAT_Identity", "NOPAT", ["OperatingIncome"; "TaxRate"]);
    ("ROIC_Identity", "ROIC", ["NOPAT"; "InvestedCapital"]);
    ("ReinvestmentRate_Identity", "ReinvestmentRate",
       ["Capex"; "DeltaWorkingCapital"; "RnD"; "NOPAT"]) ]%string.

Definition target_of (r : rule) : string := snd (fst r).

Section Solver.

(** [economic_identities.solve_identity(name, knowns, solve_for)]: the
    equation of the table is handed to SymPy's [solve]; the call returns a
    float or raises.  The solver loop depends on nothing else of it, so it
    is a parameter here: [None] is any exception. *)
Variable solve_identity : string -> model -> string -> option float.

(** [solve_unit_identity]: re-raises any failure as [IdentityError]. *)
Definition solve_unit_identity (identity_name : string) (inputs : model)
    (solve_for : string) : option float :=
  solve_identity identity_name inputs solve_for.

(** Body of [for name, target, requires in solvers], on the state
    [(updated, changed)]. *)
Definition rule_step (st : model * bool) (r : rule) : model * bool :=
  let '(name, target, requires) := r in
  match get (fst st) target with
  | Some _ => st
  | None =>
      if forallb (fun req => bool_decide (is_Some (get (fst st) req))) requires
      then match solve_unit_identity name (fst st) target with
           | Some val => (<[target := Some val]> (fst st), true)
           | None => st
           end
      else st
  end.

(** One execution of the body of [while changed]: [changed = False], then
    the [for] loop. *)
Definition pass (updated : model) : model * bool :=
  fold_left rule_step solvers (updated, false).

(** [while changed: ...], with the number of passes still allowed;
    [None] when they are used up before a pass leaves [changed] false. *)
Fixpoint while_changed (fuel : nat) (updated : model) : option model :=
  match fuel with
  | O => None
  | S fuel' =>
      let '(updated', changed) := pass updated in
      if changed then while_changed fuel' updated' else Some updated'
  end.

(** Passes that always suffice: one per rule, and the last, idle one. *)
Definition max_passes : nat := S (length solvers).

(** [solve_missing_values(ue_model)] *)
Definition solve_missing_values (ue_model : model) : model :=
  default ue_model (while_changed max_passes ue_model).

(** Number of rules whose target is still unknown: the loop's variant. *)
Definition unknown_targets (rules : list rule) (m : model) : nat :=
  length (filter (fun r => get m (target_of r) = None) rules).

(** [m'] extends [m]: every known value is kept. *)
Definition extends (m m' : model) : Prop :=
  forall k v, get m k = Some v -> m' !! k = m !! k.

(** At key [k], [m'] is [m] or binds a value where [m] had none, [k]
    being the target of one of [rules]. *)
Definition adds_at (rules : list rule) (m m' : model) (k : string) : Prop :=
  m' !! k = m !! k \/
  (get m k = None /\ In k (map target_of rules) /\ exists v, m' !! k = Some (Some v)).

(** *** Properties *)

Lemma extends_refl m : extends m m.
Proof. intros k v _. reflexivity. Qed.

Lemma extends_get m m' k v : extends m m' -> get m k = Some v -> get m' k = Some v.
Proof. intros H Hk. unfold get. rewrite (H k v Hk). exact Hk. Qed.

Lemma extends_trans m1 m2 m3 : extends m1 m2 -> extends m2 m3 -> extends m1 m3.
Proof.
  intros H12 H23 k v Hk. rewrite (H23 k v), (H12 k v); eauto using extends_get.
Qed.

Lemma extends_insert m target val :
  get m target = None -> extends m (<[target := Some val]> m).
Proof.
  intros Hnone k v Hk. destruct (decide (target = k)) as [->|Hne].
  - congruence.
  - now rewrite lookup_insert_ne.
Qed.

(** A rule either leaves the state alone or gives its unknown target a
    value and sets [changed]. *)
Lemma rule_step_cases st r :
  rule_step st r = st \/
  exists val, get (fst st) (target_of r) = None /\
    rule_step st r = (<[target_of r := Some val]> (fst st), true).
Proof.
  destruct r as [[name target] requires]. unfold rule_step, target_of. simpl.
  destruct (get (fst st) target) eqn:Hg; [now left|].
  destruct (forallb _ requires); [|now left].
  destruct (solve_unit_identity name (fst st) target) as [val|]; [|now left].
  right. now exists val.
Qed.

Lemma rule_step_extends st r : extends (fst st) (fst (rule_step st r)).
Proof.
  destruct (rule_step_cases st r) as [->|[val [Hnone ->]]].
  - apply extends_refl.
  - now apply extends_insert.
Qed.

Lemma rule_step_changed st r : snd st = true -> snd (rule_step st r) = true.
Proof.
  intros H. destruct (rule_step_cases st r) as [->|[val [_ ->]]]; [exact H|reflexivity].
Qed.

Lemma fold_rules_extends rules st : extends (fst st) (fst (fold_left rule_step rules st)).
Proof.
  revert st. induction rules as [|r rules IH]; intros st; simpl.
  - apply extends_refl.
  - eapply extends_trans; [apply rule_step_extends|apply IH].
Qed.

Lemma fold_rules_changed rules st :
  snd st = true -> snd (fold_left rule_step rules st) = true.
Proof.
  revert st. induction rules as [|r rules IH]; intros st H; simpl; [exact H|].
  apply IH. now apply rule_step_changed.
Qed.

(** When a run over some rules sets [changed], one of them had an unknown
    target that is known afterwards. *)
Lemma fold_rules_progress rules st :
  snd st = false -> snd (fold_left rule_step rules st) = true ->
  exists r, In r rules /\ get (fst st) (target_of r) = None /\
    is_Some (get (fst (fold_left rule_step rules st)) (target_of r)).
Proof.
  revert st. induction rules as [|r rules IH]; intros st Hst Hch; simpl in *.
  - congruence.
  - destruct (rule_step_cases st r) as [E|[val [Hnone E]]].
    + rewrite E in *. destruct (IH st Hst Hch) as [r' [Hin H]]. exists r'. auto.
    + exists r. split; [now left|]. split; [exact Hnone|].
      exists val. eapply extends_get; [apply fold_rules_extends|].
      rewrite E. simpl. unfold get. now rewrite lookup_insert_eq.
Qed.

Lemma unknown_targets_le rules m m' :
  extends m m' -> unknown_targets rules m' <= unknown_targets rules m.
Proof.
  intros Hext. unfold unknown_targets.
  induction rules as [|r rules IH]; simpl; [lia|].
  rewrite !filter_cons.
  destruct (decide (get m' (target_of r) = None)) as [Hn'|Hn'];
    destruct (decide (get m (target_of r) = None)) as [Hn|Hn]; simpl; try lia.
  destruct (get m (target_of r)) as [v|] eqn:Hg; [|congruence].
  rewrite (extends_get _ _ _ _ Hext Hg) in Hn'. discriminate.
Qed.

Lemma unknown_targets_lt rules m m' r :
  extends m m' -> In r rules -> get m (target_of r) = None ->
  is_Some (get m' (target_of r)) ->
  unknown_targets rules m' < unknown_targets rules m.
Proof.
  intros Hext Hin Hnone Hsome. unfold unknown_targets.
  induction rules as [|r0 rules IH]; simpl in *; [contradiction|].
  rewrite !filter_cons.
  pose proof (unknown_targets_le rules m m' Hext) as Hle. unfold unknown_targets in Hle.
  destruct Hin as [->|Hin].
  - destruct (decide (get m' (target_of r) = None)) as [Hn'|_].
    + destruct Hsome as [v Hv]. congruence.
    + destruct (decide (get m (target_of r) = None)); [simpl; lia|contradiction].
  - specialize (IH Hin).
    destruct (decide (get m' (target_of r0) = None)) as [Hn'|Hn'];
      destruct (decide (get m (target_of r0) = None)) as [Hn|Hn]; simpl; try lia.
    destruct (get m (target_of r0)) as [v|] eqn:Hg; [|congruence].
    rewrite (extends_get _ _ _ _ Hext Hg) in Hn'. discriminate.
Qed.

Lemma unknown_targets_bound rules m : unknown_targets rules m <= length rules.
Proof. unfold unknown_targets. apply length_filter. Qed.

Lemma pass_extends m : extends m (fst (pass m)).
Proof. apply (fold_rules_extends solvers (m, false)). Qed.

(** A pass that sets [changed] makes an unknown target known: the variant
    decreases. *)
Lemma pass_progress m :
  snd (pass m) = true ->
  unknown_targets solvers (fst (pass m)) < unknown_targets solvers m.
Proof.
  unfold pass. generalize solvers. intros rules Hch.
  destruct (fold_rules_progress rules (m, false) eq_refl Hch) as [r [Hin [Hnone Hsome]]].
  eapply unknown_targets_lt; eauto.
  apply (fold_rules_extends rules (m, false)).
Qed.

(** A pass that leaves [changed] false has changed nothing. *)
Lemma fold_rules_idle rules st :
  snd (fold_left rule_step rules st) = false -> fold_left rule_step rules st = st.
Proof.
  revert st. induction rules as [|r rules IH]; intros st H; simpl in *; [reflexivity|].
  destruct (rule_step_cases st r) as [E|[val [_ E]]]; rewrite E in *.
  - now apply IH.
  - rewrite fold_rules_changed in H by reflexivity. discriminate.
Qed.

Lemma pass_idle m : snd (pass m) = false -> pass m = (m, false).
Proof. unfold pass. apply fold_rules_idle. Qed.

(** Keys outside the rule targets are never written. *)
Lemma rule_step_other st r k :
  k <> target_of r -> fst (rule_step st r) !! k = fst st !! k.
Proof.
  intros Hne. destruct (rule_step_cases st r) as [->|[val [_ ->]]]; [reflexivity|].
  simpl. now rewrite lookup_insert_ne.
Qed.

Lemma fold_rules_other rules st k :
  ~ In k (map target_of rules) -> fst (fold_left rule_step rules st) !! k = fst st !! k.
Proof.
  revert st. induction rules as [|r rules IH]; intros st Hin; simpl in *; [reflexivity|].
  rewrite IH by tauto. apply rule_step_other. intros ->. tauto.
Qed.

Lemma pass_other m k :
  ~ In k (map target_of solvers) -> fst (pass m) !! k = m !! k.
Proof. unfold pass. apply fold_rules_other. Qed.

Lemma adds_at_trans rules m1 m2 m3 k :
  adds_at rules m1 m2 k -> adds_at rules m2 m3 k -> adds_at rules m1 m3 k.
Proof.
  unfold adds_at, get.
  intros [E12|[Hn [Hin [v Hv]]]] [E23|[Hn' [Hin' [v' Hv']]]].
  - left. congruence.
  - right. rewrite <- E12. eauto.
  - right. rewrite E23. eauto.
  - rewrite Hv in Hn'. discriminate.
Qed.

Lemma rule_step_adds rules st r k :
  In r rules -> adds_at rules (fst st) (fst (rule_step st r)) k.
Proof.
  intros Hin. destruct (rule_step_cases st r) as [->|[val [Hnone ->]]]; [now left|].
  simpl. destruct (decide (target_of r = k)) as [<-|Hne].
  - right. split; [exact Hnone|]. split; [now apply in_map|].
    exists val. apply lookup_insert_eq.
  - left. now rewrite lookup_insert_ne.
Qed.

Lemma fold_rules_adds rules rules' st k :
  incl rules' rules -> adds_at rules (fst st) (fst (fold_left rule_step rules' st)) k.
Proof.
  revert st. induction rules' as [|r rules' IH]; intros st Hincl; simpl; [now left|].
  eapply adds_at_trans.
  - apply rule_step_adds. apply Hincl. now left.
  - apply IH. intros x Hx. apply Hincl. now right.
Qed.

Lemma pass_adds m k : adds_at solvers m (fst (pass m)) k.
Proof. unfold pass. apply (fold_rules_adds solvers solvers (m, false)), incl_refl. Qed.

(** From here on a pass is used through the lemmas above only. *)
#[local] Opaque pass.

Lemma while_changed_terminates fuel m :
  unknown_targets solvers m < fuel ->
  exists r, while_changed fuel m = Some r /\ extends m r /\ pass r = (r, false).
Proof.
  revert m. induction fuel as [|fuel IH]; intros m Hlt; [lia|].
  cbn [while_changed]. destruct (pass m) as [m' changed] eqn:Hp.
  pose proof (pass_extends m) as Hext. rewrite Hp in Hext. cbn [fst] in Hext.
  destruct changed.
  - pose proof (pass_progress m) as Hprog. rewrite Hp in Hprog. cbn [fst snd] in Hprog.
    destruct (IH m') as [r [Hr [Hext' Hfix]]]; [specialize (Hprog eq_refl); lia|].
    exists r. split; [exact Hr|]. split; [exact (extends_trans _ _ _ Hext Hext')|exact Hfix].
  - exists m'. split; [reflexivity|]. split; [exact Hext|].
    pose proof (pass_idle m) as Hidle. rewrite Hp in Hidle.
    specialize (Hidle eq_refl). inversion Hidle; subst. exact Hp.
Qed.

Lemma while_changed_fuel_irrelevant fuel fuel' m r :
  while_changed fuel m = Some r -> fuel <= fuel' -> while_changed fuel' m = Some r.
Proof.
  revert fuel' m. induction fuel as [|fuel IH]; intros fuel' m H Hle; [discriminate|].
  destruct fuel' as [|fuel']; [lia|]. cbn [while_changed] in *.
  destruct (pass m) as [m' [|]]; [|exact H]. apply IH; [exact H|lia].
Qed.

Lemma while_changed_extends fuel m r : while_changed fuel m = Some r -> extends m r.
Proof.
  revert m. induction fuel as [|fuel IH]; intros m H; [discriminate|].
  cbn [while_changed] in H. destruct (pass m) as [m' changed] eqn:Hp.
  pose proof (pass_extends m) as Hext. rewrite Hp in Hext. cbn [fst] in Hext.
  destruct changed.
  - exact (extends_trans _ _ _ Hext (IH _ H)).
  - inversion H; subst. exact Hext.
Qed.

Lemma while_changed_other fuel m r k :
  while_changed fuel m = Some r -> ~ In k (map target_of solvers) -> r !! k = m !! k.
Proof.
  revert m. induction fuel as [|fuel IH]; intros m H Hin; [discriminate|].
  cbn [while_changed] in H. destruct (pass m) as [m' changed] eqn:Hp.
  assert (m' !! k = m !! k) as Hk.
  { pose proof (pass_other m k Hin) as E. now rewrite Hp in E. }
  destruct changed.
  - rewrite <- Hk. now apply IH.
  - now inversion H; subst.
Qed.

(** The loop ends within [max_passes] passes, whatever the model and
    whatever the solver returns. *)
Lemma solve_missing_values_eq m :
  while_changed max_passes m = Some (solve_missing_values m).
Proof.
  destruct (while_changed_terminates max_passes m) as [r [Hr _]].
  - unfold max_passes. pose proof (unknown_targets_bound solvers m). lia.
  - unfold solve_missing_values. now rewrite Hr.
Qed.

Lemma while_changed_adds fuel m r k :
  while_changed fuel m = Some r -> adds_at solvers m r k.
Proof.
  revert m. induction fuel as [|fuel IH]; intros m H; [discriminate|].
  cbn [while_changed] in H. destruct (pass m) as [m' changed] eqn:Hp.
  pose proof (pass_adds m k) as Hadd. rewrite Hp in Hadd. cbn [fst] in Hadd.
  destruct changed.
  - exact (adds_at_trans _ _ _ _ _ Hadd (IH _ H)).
  - now inversion H; subst.
Qed.

(** C2.  Fixpoint propagation is monotone: a key with a non-[None] value
    in the input has the same value in the output, and a key the output
    binds differently was unknown in the input, is the target of a rule
    and is known in the output. *)
Theorem solve_missing_values_monotone (ue_model : model) (k : string) :
  (forall v, ue_model !! k = Some (Some v) ->
     solve_missing_values ue_model !! k = Some (Some v)) /\
  (solve_missing_values ue_model !! k <> ue_model !! k ->
     get ue_model k = None /\ In k (map target_of solvers) /\
     is_Some (get (solve_missing_values ue_model) k)).
Proof.
  pose proof (solve_missing_values_eq ue_model) as Hrun.
  destruct (while_changed_adds _ _ _ k Hrun) as [E|[Hnone [Hin [v Hv]]]].
  - split; [intros v Hv; congruence|]. intros Hne. contradiction.
  - split.
    + intros v' Hv'. unfold get in Hnone. rewrite Hv' in Hnone. discriminate.
    + intros _. repeat split; try assumption. exists v. unfold get. now rewrite Hv.
Qed.

(** C3.  The loop terminates on every model: within [max_passes] passes
    (and with any larger allowance, to the same result) a pass leaves
    [changed] false; every pass before it gave a value to a rule target
    that had none; the result is a fixpoint of the pass. *)
Theorem solve_missing_values_terminates (ue_model : model) :
  (forall fuel, max_passes <= fuel ->
     while_changed fuel ue_model = Some (solve_missing_values ue_model)) /\
  pass (solve_missing_values ue_model) = (solve_missing_values ue_model, false) /\
  (forall m, snd (pass m) = true ->
     unknown_targets solvers (fst (pass m)) < unknown_targets solvers m).
Proof.
  pose proof (solve_missing_values_eq ue_model) as Hrun.
  split; [|split].
  - intros fuel Hle. exact (while_changed_fuel_irrelevant _ _ _ _ Hrun Hle).
  - destruct (while_changed_terminates max_passes ue_model) as [r [Hr [_ Hfix]]].
    + unfold max_passes. pose proof (unknown_targets_bound solvers ue_model). lia.
    + rewrite Hrun in Hr. inversion Hr; subst. congruence.
  - exact pass_progress.
Qed.

End Solver.

(** *** The loop on the repository's test *)

(** The nine rules in closed form, in binary64; a division by zero fails.
    SymPy's answers agree with these up to rounding; the instance serves to
    run the loop, the theorems above hold for any solver. *)
Definition fdiv (a b : float) : option float :=
  if PrimFloat.eqb b 0%float then None else Some (PrimFloat.div a b).

Definition closed_form_solver (name : string) (knowns : model) (solve_for : string)
  : option float :=
  let v k := get knowns k in
  match name, solve_for with
  | "CAC_Identity", "CAC" =>
      sm ← v "SalesMarketing"; rm ← v "RetentionMarketing"; g ← v "GrossNewCustomers";
      fdiv (PrimFloat.sub sm rm) g
  | "CAC_Identity", "GrossNewCustomers" =>
      sm ← v "SalesMarketing"; rm ← v "RetentionMarketing"; c ← v "CAC";
      fdiv (PrimFloat.sub sm rm) c
  | "UnitRevenue_Identity", "RevenuePerUnit" =>
      r ← v "Revenue"; d ← v "VolumeDriver"; fdiv r d
  | "VariableCostPerUnit_Identity", "VariableCostPerUnit" =>
      c ← v "COGS_variable"; d ← v "VolumeDriver"; fdiv c d
  | "ContributionMargin_Identity", "ContributionMarginPerUnit" =>
      r ← v "Revenue"; c ← v "COGS_variable"; d ← v "VolumeDriver";
      fdiv (PrimFloat.sub r c) d
  | "ContributionMargin_Check", "ContributionMarginPerUnit" =>
      r ← v "RevenuePerUnit"; c ← v "VariableCostPerUnit"; Some (PrimFloat.sub r c)
  | "NOPAT_Identity", "NOPAT" =>
      o ← v "OperatingIncome"; t ← v "TaxRate";
      Some (PrimFloat.mul o (PrimFloat.sub 1%float t))
  | "ROIC_Identity", "ROIC" =>
      n ← v "NOPAT"; ic ← v "InvestedCapital"; fdiv n ic
  | "ReinvestmentRate_Identity", "ReinvestmentRate" =>
      c ← v "Capex"; w ← v "DeltaWorkingCapital"; r ← v "RnD"; n ← v "NOPAT";
      fdiv (PrimFloat.add (PrimFloat.add c w) r) n
  | _, _ => None
  end%string.

(** [tests/test_unit_economics.py], [test_solve_missing_values], with an
    unresolved operating income stored as [None]. *)
Definition test_inputs : model :=
  <["Revenue" := Some 1000%float]>
  (<["VolumeDriver" := Some 100%float]>
  (<["COGS_variable" := Some 300%float]>
  (<["OperatingIncome" := None]> ∅))).

Example test_solve_missing_values :
  let solved := solve_missing_values closed_form_solver test_inputs in
  get solved "RevenuePerUnit" = Some 10%float /\
  get solved "VariableCostPerUnit" = Some 3%float /\
  get solved "ContributionMarginPerUnit" = Some 7%float /\
  get solved "NOPAT" = None.
Proof. vm_compute. repeat split. Qed.

Lemma solve_missing_values_monotone_witness :
  solve_missing_values closed_form_solver test_inputs !! "Revenue"%string
  = Some (Some 1000%float).
Proof.
  apply (proj1 (solve_missing_values_monotone closed_form_solver test_inputs "Revenue")).
  reflexivity.
Defined.

Lemma solve_missing_values_terminates_witness :
  while_changed closed_form_solver 25 test_inputs
  = Some (solve_missing_values closed_form_solver test_inputs).
Proof.
  apply (proj1 (solve_missing_values_terminates closed_form_solver test_inputs)).
  unfold max_passes. simpl. lia.
Defined.

(** *** The result as a fixpoint *)

Section Saturation.

Variable solve_identity : string -> model -> string -> option float.

Lemma fold_rules_each_idle (rules : list rule) (st : model * bool) :
  snd st = false -> snd (fold_left (rule_step solve_identity) rules st) = false ->
  forall r, In r rules -> rule_step solve_identity st r = st.
Proof.
  revert st. induction rules as [|r0 rules IH]; intros st Hst Hidle r Hin; [contradiction|].
  cbn [fold_left] in Hidle.
  destruct (rule_step_cases solve_identity st r0) as [E|[val [_ E]]].
  - rewrite E in Hidle. destruct Hin as [<-|Hin]; [exact E|]. now apply IH.
  - rewrite E in Hidle. rewrite fold_rules_changed in Hidle by reflexivity. discriminate.
Qed.

Lemma forallb_false_ex {A : Type} (f : A -> bool) (l : list A) :
  forallb f l = false -> exists x, In x l /\ f x = false.
Proof.
  induction l as [|a l IH]; cbn [forallb]; [discriminate|].
  destruct (f a) eqn:E; cbn [andb]; intros H.
  - destruct (IH H) as [x [Hx Hf]]. exists x. split; [now right|exact Hf].
  - exists a. split; [now left|exact E].
Qed.

Lemma pass_each_idle (m : model) :
  pass solve_identity m = (m, false) ->
  forall r, In r solvers -> rule_step solve_identity (m, false) r = (m, false).
Proof.
  unfold pass. generalize solvers. intros rules H r Hin.
  apply (fold_rules_each_idle rules (m, false) eq_refl); [|exact Hin].
  rewrite H. reflexivity.
Qed.

(** The result is saturated: no rule of the table can fire on it.  A rule
    whose target is still unknown lacks a required value or fails to
    solve. *)
Theorem solve_missing_values_saturated (ue_model : model) (name target : string)
    (requires : list string) :
  In (name, target, requires) solvers ->
  get (solve_missing_values solve_identity ue_model) target = None ->
  (exists req, In req requires /\
               get (solve_missing_values solve_identity ue_model) req = None) \/
  solve_identity name (solve_missing_values solve_identity ue_model) target = None.
Proof.
  intros Hin Hnone.
  destruct (while_changed_terminates solve_identity max_passes ue_model) as [r [Hr [_ Hfix]]].
  { unfold max_passes. pose proof (unknown_targets_bound solvers ue_model). lia. }
  rewrite (solve_missing_values_eq solve_identity ue_model) in Hr. inversion Hr as [Er].
  rewrite Er in *. clear Hr Er.
  pose proof (pass_each_idle r Hfix (name, target, requires) Hin) as Hstep.
  unfold rule_step in Hstep. cbn [fst] in Hstep. rewrite Hnone in Hstep.
  destruct (forallb _ requires) eqn:Hall.
  - right. unfold solve_unit_identity in Hstep.
    destruct (solve_identity name r target); [discriminate|reflexivity].
  - left. apply forallb_false_ex in Hall. destruct Hall as [req [Hreq Hdec]].
    exists req. split; [exact Hreq|].
    apply bool_decide_eq_false in Hdec.
    destruct (get r req) eqn:E; [|reflexivity]. exfalso. apply Hdec. eauto.
Qed.

Lemma while_changed_idle (fuel : nat) (m : model) :
  pass solve_identity m = (m, false) -> while_changed solve_identity (S fuel) m = Some m.
Proof. intros H. cbn [while_changed]. rewrite H. reflexivity. Qed.

Lemma solve_missing_values_idle (m : model) :
  pass solve_identity m = (m, false) -> solve_missing_values solve_identity m = m.
Proof.
  intros H. unfold solve_missing_values, max_passes.
  rewrite (while_changed_idle (length solvers) m H). reflexivity.
Qed.

(** Solving is idempotent: a second run returns the first result. *)
Theorem solve_missing_values_idempotent (ue_model : model) :
  solve_missing_values solve_identity (solve_missing_values solve_identity ue_model)
  = solve_missing_values solve_identity ue_model.
Proof.
  destruct (while_changed_terminates solve_identity max_passes ue_model) as [r [Hr [_ Hfix]]].
  { unfold max_passes. pose proof (unknown_targets_bound solvers ue_model). lia. }
  rewrite (solve_missing_values_eq solve_identity ue_model) in Hr. inversion Hr as [Er].
  rewrite Er. exact (solve_missing_values_idle r Hfix).
Qed.

End Saturation.

Lemma solve_missing_values_saturated_witness :
  (exists req, In req ["OperatingIncome"; "TaxRate"]%string /\
               get (solve_missing_values closed_form_solver test_inputs) req = None) \/
  closed_form_solver "NOPAT_Identity" (solve_missing_values closed_form_solver test_inputs)
    "NOPAT" = None.
Proof.
  apply (solve_missing_values_saturated closed_form_solver test_inputs
           "NOPAT_Identity" "NOPAT" ["OperatingIncome"; "TaxRate"]%string).
  - unfold solvers. cbn [In]. tauto.
  - vm_compute. reflexivity.
Defined.

End IdentitySolver.

(** ** Text: [str] methods on ASCII strings *)

Module PyStr.

Local Open Scope string_scope.

(** Texts are read as sequences of code points below 128, the alphabet of
    XBRL concept names and period aliases; on such texts the functions
    below are Python's.  Beyond it Python knows more white space (U+0085,
    U+00A0, ...) and more letters with a case (U+212A, ...): a statement
    that depends on it carries [is_ascii]. *)
Definition is_ascii_char (c : ascii) : bool := (nat_of_ascii c <? 128)%nat.

Fixpoint is_ascii (s : string) : bool :=
  match s with
  | EmptyString => true
  | String c s' => is_ascii_char c && is_ascii s'
  end.

(** [str.isspace] on one character below 128: tab to carriage return,
    the four separators 0x1c to 0x1f, and space. *)
Definition is_space (c : ascii) : bool :=
  let n := nat_of_ascii c in
  ((9 <=? n)%nat && (n <=? 13)%nat) || ((28 <=? n)%nat && (n <=? 32)%nat).

(** [str.lower] and [str.upper] on one character below 128. *)
Definition lower_char (c : ascii) : ascii :=
  let n := nat_of_ascii c in
  if ((65 <=? n)%nat && (n <=? 90)%nat) then ascii_of_nat (n + 32) else c.

Definition upper_char (c : ascii) : ascii :=
  let n := nat_of_ascii c in
  if ((97 <=? n)%nat && (n <=? 122)%nat) then ascii_of_nat (n - 32) else c.

Fixpoint lower (s : string) : string :=
  match s with
  | EmptyString => EmptyString
  | String c s' => String (lower_char c) (lower s')
  end.

Fixpoint upper (s : string) : string :=
  match s with
  | EmptyString => EmptyString
  | String c s' => String (upper_char c) (upper s')
  end.

Definition is_empty (s : string) : bool :=
  match s with EmptyString => true | String _ _ => false end.

Fixpoint lstrip (s : string) : string :=
  match s with
  | EmptyString => EmptyString
  | String c s' => if is_space c then lstrip s' else s
  end.

Fixpoint rstrip (s : string) : string :=
  match s with
  | EmptyString => EmptyString
  | String c s' =>
      let r := rstrip s' in
      if is_space c && is_empty r then EmptyString else String c r
  end.

(** [s.strip()] *)
Definition strip (s : string) : string := rstrip (lstrip s).

(** [s.split()]: the maximal runs of non-space characters.  [cur] is the
    run being read. *)
Fixpoint split_from (cur : string) (s : string) : list string :=
  match s with
  | EmptyString => if is_empty cur then [] else [cur]
  | String c s' =>
      if is_space c
      then (if is_empty cur then split_from EmptyString s'
            else cur :: split_from EmptyString s')
      else split_from (cur ++ String c EmptyString) s'
  end.

Definition split (s : string) : list string := split_from EmptyString s.

Fixpoint drop (n : nat) (s : string) : string :=
  match n, s with
  | O, _ => s
  | S n', String _ s' => drop n' s'
  | S _, EmptyString => EmptyString
  end.

(** [s.startswith(p)] *)
Definition startswith (p s : string) : bool := String.prefix p s.

(** [x in l] for a list of strings *)
Definition mem (x : string) (l : list string) : bool := existsb (String.eqb x) l.

Fixpoint no_space (s : string) : bool :=
  match s with
  | EmptyString => true
  | String c s' => negb (is_space c) && no_space s'
  end.

(** *** Properties *)

Lemma append_snoc (cur : string) c s :
  (cur ++ String c EmptyString) ++ s = cur ++ String c s.
Proof.
  induction cur as [|d cur IH]; [reflexivity|].
  change (String d ((cur ++ String c EmptyString) ++ s) = String d (cur ++ String c s)).
  now f_equal.
Qed.

Lemma append_empty (cur : string) : cur ++ EmptyString = cur.
Proof.
  induction cur as [|d cur IH]; [reflexivity|].
  change (String d (cur ++ EmptyString) = String d cur). now f_equal.
Qed.

Lemma split_from_no_space (cur s : string) :
  no_space s = true ->
  split_from cur s = if is_empty (cur ++ s) then [] else [cur ++ s].
Proof.
  revert cur. induction s as [|c s IH]; intros cur Hs; simpl in *.
  - now rewrite append_empty.
  - apply andb_true_iff in Hs. destruct Hs as [Hc Hs].
    apply negb_true_iff in Hc. rewrite Hc, IH by assumption.
    now rewrite append_snoc.
Qed.

(** A non-empty string without white space is its own single word. *)
Lemma split_no_space (s : string) :
  no_space s = true -> is_empty s = false -> split s = [s].
Proof.
  intros Hs He. unfold split. rewrite split_from_no_space by assumption.
  change (EmptyString ++ s) with s. now rewrite He.
Qed.

Lemma mem_In (x : string) (l : list string) : mem x l = true <-> In x l.
Proof.
  unfold mem. rewrite existsb_exists. split.
  - intros [y [Hy E]]. apply String.eqb_eq in E. now subst.
  - intros H. exists x. split; [exact H|apply String.eqb_refl].
Qed.

End PyStr.

(** ** [src/xbrl/concept_resolver.py] *)

Module ConceptResolver.

Local Open Scope string_scope.

Definition CANONICAL_CLUSTERS : list (string * list string) :=
  [ ("Revenue",
      [ "RevenueFromContractWithCustomer"; "SalesRevenueNet"; "OperatingRevenue";
        "TotalRevenue"; "Revenues"; "us-gaap:RevenueFromContractWithCustomer";
        "ifrs-full:Revenue" ]);
    ("CostOfRevenue",
      [ "CostOfRevenue"; "CostOfGoodsSold"; "CostOfGoodsAndServicesSold";
        "CostOfProductsSold"; "COGS"; "us-gaap:CostOfRevenue";
        "us-gaap:CostOfGoodsSold" ]);
    ("OperatingIncome",
      [ "OperatingIncome"; "OperatingProfit"; "IncomeFromOperations"; "OperatingLoss";
        "us-gaap:OperatingIncomeLoss"; "EBIT"; "EarningsBeforeInterestAndTaxes";
        "EarningsBeforeInterestTax"; "EarningsBeforeInterestAndTax";
        "OperatingEarnings"; "OperatingEarningsBeforeInterestAndTaxes";
        "IncomeBeforeInterestAndTaxes"; "IncomeBeforeInterestTax";
        "us-gaap:IncomeLossFromContinuingOperationsBeforeIncomeTaxesExtraordinaryItemsNoncontrollingInterest";
        "us-gaap:IncomeLossFromContinuingOperationsBeforeIncomeTaxes" ]);
    ("NetIncome",
      [ "NetIncome"; "NetIncomeLoss"; "ProfitLoss"; "NetEarnings";
        "us-gaap:NetIncomeLoss"; "ifrs-full:ProfitLoss" ]);
    ("R&D",
      [ "ResearchAndDevelopmentExpense"; "ResearchAndDevelopment"; "RDExpense";
        "us-gaap:ResearchAndDevelopmentExpense" ]);
    ("SalesMarketing",
      [ "SellingAndMarketingExpense"; "MarketingExpense"; "SalesAndMarketing";
        "us-gaap:SellingAndMarketingExpense" ]);
    ("GandA",
      [ "SellingGeneralAndAdministrative"; "GeneralAndAdministrative"; "SG&A";
        "us-gaap:SellingGeneralAndAdministrativeExpense" ]);
    ("PPE",
      [ "PropertyPlantAndEquipmentNet"; "PropertyPlantEquipment"; "FixedAssetsNet";
        "us-gaap:PropertyPlantAndEquipmentNet" ]);
    ("Goodwill", [ "Goodwill"; "us-gaap:Goodwill"; "ifrs-full:Goodwill" ]);
    ("Intangibles",
      [ "IntangibleAssetsNetExcludingGoodwill"; "IntangibleAssetsNet"; "IntangibleAssets";
        "us-gaap:IntangibleAssetsNetExcludingGoodwill" ]);
    ("Cash",
      [ "CashAndCashEquivalents"; "CashCashEquivalentsAndShortTermInvestments";
        "CashAndShortTermInvestments"; "us-gaap:CashAndCashEquivalentsAtCarryingValue" ]);
    ("SharesOutstanding",
      [ "WeightedAverageNumberOfSharesOutstandingBasic"; "WeightedAverageSharesOutstanding";
        "CommonStockSharesOutstanding" ]) ].

(** [{alias: canonical for canonical, aliases in ... for alias in aliases}],
    as the list of its items in insertion order (no alias occurs twice, see
    [CANONICAL_LOOKUP_NoDup]). *)
Definition CANONICAL_LOOKUP : list (string * string) :=
  flat_map (fun cl => map (fun alias => (alias, fst cl)) (snd cl)) CANONICAL_CLUSTERS.

Definition aliases : list string := map fst CANONICAL_LOOKUP.

(** [CANONICAL_LOOKUP.get(k)] *)
Fixpoint lookup (k : string) (d : list (string * string)) : option string :=
  match d with
  | [] => None
  | (a, c) :: d' => if String.eqb k a then Some c else lookup k d'
  end.

(** [PREFIX_RE.sub("", concept)] with
    [PREFIX_RE = re.compile(r"^(us-gaap:|ifrs-full:)", re.IGNORECASE)]: the
    pattern is anchored, so at most the leading prefix is removed. *)
Definition strip_prefix (concept : string) : string :=
  if PyStr.startswith "us-gaap:" (PyStr.lower concept) then PyStr.drop 8 concept
  else if PyStr.startswith "ifrs-full:" (PyStr.lower concept) then PyStr.drop 10 concept
  else concept.

(** [set(l)], as the list of its distinct elements. *)
Fixpoint distinct (l : list string) : list string :=
  match l with
  | [] => []
  | x :: l' => if PyStr.mem x l' then distinct l' else x :: distinct l'
  end.

(** [len(set(ta) & set(tb))] *)
Definition overlap (ta tb : list string) : nat :=
  length (filter (fun t => PyStr.mem t tb = true) (distinct ta)).

(** Scores are quotients of two token counts, compared with each other and
    with a threshold: exact rationals order them as the binary64 quotients
    do for every text shorter than 2^26 words. *)
Definition _simple_similarity (a b : string) : Q :=
  let a := PyStr.lower a in
  let b := PyStr.lower b in
  if String.eqb a b then 1%Q
  else Qmake (Z.of_nat (overlap (PyStr.split a) (PyStr.split b)))
             (Pos.of_nat (Nat.max (length (PyStr.split a)) 1)).

(** [s > t] and [s >= t] *)
Definition Qgtb (s t : Q) : bool := negb (Qle_bool s t).
Definition Qgeb (s t : Q) : bool := Qle_bool t s.

(** Body of [for alias, canonical in CANONICAL_LOOKUP.items()], on the
    state [(best, best_score)]. *)
Definition best_step (score : string -> Q) (st : option string * Q)
    (item : string * string) : option string * Q :=
  let s := score (fst item) in
  if Qgtb s (snd st) then (Some (snd item), s) else st.

(** [best = None; best_score = 0; for alias, canonical in d.items(): ...] *)
Definition best_match (score : string -> Q) (d : list (string * string))
  : option string * Q :=
  fold_left (best_step score) d (None, 0%Q).

(** [resolve(concept)].  [embedding] is the sentence-embedding backend:
    [None] when [sentence_transformers] is not installed, in which case the
    first [embedding_similarity] call raises and the [except] clause skips
    the stage.  The result is [None] where Python would return [None]. *)
Definition resolve (embedding : option (string -> string -> Q)) (concept : string)
  : option string :=
  let raw := PyStr.strip concept in
  let base := strip_prefix raw in
  match lookup raw CANONICAL_LOOKUP with
  | Some c => Some c
  | None =>
  match lookup base CANONICAL_LOOKUP with
  | Some c => Some c
  | None =>
      let '(best, best_score) := best_match (_simple_similarity base) CANONICAL_LOOKUP in
      if Qgeb best_score (6 # 10) then best
      else
        let fallback := Some base in
        match embedding with
        | None => fallback
        | Some embedding_similarity =>
            let '(best, best_score) :=
              best_match (embedding_similarity base) CANONICAL_LOOKUP in
            if Qgeb best_score (55 # 100) then best else fallback
        end
  end
  end.

Example resolve_test_revenue_aliases :
  resolve None "RevenueFromContractWithCustomer" = Some "Revenue" /\
  resolve None "us-gaap:TotalRevenue" = Some "Revenue" /\
  resolve None "Revenues" = Some "Revenue" /\
  resolve None "SG&A" = Some "GandA" /\
  resolve None "us-gaap:CostOfProductsSold" = Some "CostOfRevenue".
Proof. vm_compute. repeat split. Qed.

Example resolve_unknown :
  resolve None " us-gaap:DeferredRevenueCurrent " = Some "DeferredRevenueCurrent".
Proof. vm_compute. reflexivity. Qed.

(** *** Properties *)

Lemma CANONICAL_LOOKUP_NoDup : NoDup aliases.
Proof. apply (bool_decide_unpack _). vm_compute. reflexivity. Qed.

(** No alias contains white space, none is empty. *)
Lemma aliases_one_word (alias : string) :
  In alias aliases ->
  PyStr.no_space (PyStr.lower alias) = true /\ PyStr.is_empty (PyStr.lower alias) = false.
Proof.
  assert (forallb (fun a => PyStr.no_space (PyStr.lower a)
                            && negb (PyStr.is_empty (PyStr.lower a))) aliases = true) as H
    by (vm_compute; reflexivity).
  rewrite forallb_forall in H. intros Hin. specialize (H alias Hin).
  apply andb_true_iff in H. destruct H as [H1 H2].
  apply negb_true_iff in H2. now split.
Qed.

Lemma lookup_None (k : string) (d : list (string * string)) :
  ~ In k (map fst d) -> lookup k d = None.
Proof.
  induction d as [|[a c] d IH]; simpl; intros H; [reflexivity|].
  destruct (String.eqb_spec k a) as [->|_]; [tauto|]. apply IH. tauto.
Qed.

Lemma distinct_In (t : string) (l : list string) : In t (distinct l) -> In t l.
Proof.
  induction l as [|x l IH]; simpl; [tauto|].
  destruct (PyStr.mem x l); simpl; intuition.
Qed.

Lemma overlap_disjoint (ta tb : list string) :
  (forall t, In t ta -> ~ In t tb) -> overlap ta tb = 0%nat.
Proof.
  intros H. unfold overlap.
  assert (forall l, (forall t, In t l -> ~ In t tb) ->
                    filter (fun t => PyStr.mem t tb = true) l = []) as Hf.
  { induction l as [|x l IH]; intros Hl; [reflexivity|].
    rewrite filter_cons. destruct (decide (PyStr.mem x tb = true)) as [Hm|_].
    - apply PyStr.mem_In in Hm. exfalso. apply (Hl x); [now left|exact Hm].
    - apply IH. intros t Ht. apply Hl. now right. }
  rewrite Hf; [reflexivity|]. intros t Ht. apply H. now apply distinct_In.
Qed.

(** The word-overlap score against an alias is 0 unless the lower-cased
    alias is one of the words of the lower-cased text. *)
Lemma _simple_similarity_zero (base alias : string) :
  In alias aliases ->
  ~ In (PyStr.lower alias) (PyStr.split (PyStr.lower base)) ->
  Qgtb (_simple_similarity base alias) 0 = false.
Proof.
  intros Hin Hnot. destruct (aliases_one_word alias Hin) as [Hns Hne].
  unfold _simple_similarity. destruct (String.eqb_spec (PyStr.lower base) (PyStr.lower alias)) as [E|_].
  - exfalso. apply Hnot. rewrite E, PyStr.split_no_space by assumption. now left.
  - rewrite (PyStr.split_no_space (PyStr.lower alias)) by assumption.
    rewrite overlap_disjoint.
    + reflexivity.
    + intros t Ht [<-|[]]. contradiction.
Qed.

(** While no score exceeds 0 the search keeps its initial state. *)
Lemma best_match_none (score : string -> Q) (d : list (string * string)) :
  (forall item, In item d -> Qgtb (score (fst item)) 0 = false) ->
  best_match score d = (None, 0%Q).
Proof.
  unfold best_match. induction d as [|item d IH]; intros H; simpl; [reflexivity|].
  unfold best_step at 2. simpl. rewrite (H item) by now left.
  apply IH. intros i Hi. apply H. now right.
Qed.

Lemma fold_best_step_Some (score : string -> Q) (d : list (string * string)) st :
  (fst st = None -> Qle_bool (snd st) 0 = true) ->
  fst (fold_left (best_step score) d st) = None ->
  Qle_bool (snd (fold_left (best_step score) d st)) 0 = true.
Proof.
  revert st. induction d as [|item d IH]; intros st Hst; simpl; [exact Hst|].
  apply IH. unfold best_step. destruct (Qgtb _ _); simpl; [discriminate|exact Hst].
Qed.

(** The search returns a concept whenever its best score reaches a
    positive threshold. *)
Lemma best_match_positive (score : string -> Q) (d : list (string * string)) (t : Q) :
  Qgeb (snd (best_match score d)) t = true -> Qle_bool t 0 = false ->
  is_Some (fst (best_match score d)).
Proof.
  intros Hge Ht. destruct (fst (best_match score d)) eqn:E; [now eexists|].
  exfalso. unfold best_match in *.
  pose proof (fold_best_step_Some score d (None, 0%Q) (fun _ => eq_refl) E) as H0.
  unfold Qgeb in Hge. apply Qle_bool_iff in Hge. apply Qle_bool_iff in H0.
  assert (Qle_bool t 0 = true) as Hc.
  { apply Qle_bool_iff. exact (Qle_trans _ _ _ Hge H0). }
  rewrite Hc in Ht. discriminate Ht.
Qed.

(** [resolve] always returns a string. *)
Lemma resolve_is_Some embedding (concept : string) : is_Some (resolve embedding concept).
Proof.
  unfold resolve.
  set (raw := PyStr.strip concept). set (base := strip_prefix raw).
  generalize CANONICAL_LOOKUP. intros d.
  destruct (lookup raw d); [now eexists|].
  destruct (lookup base d); [now eexists|].
  pose proof (best_match_positive (_simple_similarity base) d (6 # 10)) as H1.
  destruct (best_match (_simple_similarity base) d) as [best best_score].
  cbn [fst snd] in H1. destruct (Qgeb best_score (6 # 10)); [now apply H1|].
  destruct embedding as [sim|]; [|now eexists].
  pose proof (best_match_positive (sim base) d (55 # 100)) as H2.
  destruct (best_match (sim base) d) as [best' best_score'].
  cbn [fst snd] in H2. destruct (Qgeb best_score' (55 # 100)); [now apply H2|now eexists].
Qed.

Lemma distinct_NoDup (l : list string) : List.NoDup (distinct l).
Proof.
  induction l as [|x l IH]; cbn [distinct]; [constructor|].
  destruct (PyStr.mem x l) eqn:E; [exact IH|].
  constructor; [|exact IH]. intros H. apply distinct_In in H.
  apply PyStr.mem_In in H. congruence.
Qed.

Lemma filter_single (b : string) (l : list string) :
  List.NoDup l ->
  (length (filter (fun t => PyStr.mem t [b] = true) l) <= 1)%nat /\
  (length (filter (fun t => PyStr.mem t [b] = true) l) = 1%nat -> In b l).
Proof.
  induction l as [|a l IH]; intros Hnd.
  - split; [cbn; lia|discriminate].
  - apply List.NoDup_cons_iff in Hnd. destruct Hnd as [Hnot Hnd].
    destruct (IH Hnd) as [Hle Hin]. rewrite filter_cons.
    destruct (decide (PyStr.mem a [b] = true)) as [Hm|Hm].
    + apply PyStr.mem_In in Hm. destruct Hm as [Hm|[]]. subst a.
      assert (length (filter (fun t => PyStr.mem t [b] = true) l) = 0%nat) as E.
      { destruct (length (filter (fun t => PyStr.mem t [b] = true) l)) as [|[|n]];
          [reflexivity| |lia]. exfalso. apply Hnot. now apply Hin. }
      cbn [length]. rewrite E. split; [lia|]. intros _. now left.
    + split; [exact Hle|]. intros H. right. now apply Hin.
Qed.

(** Against a single word the overlap is at most 1, and it is 1 only when
    the word occurs. *)
Lemma overlap_single (ta : list string) (b : string) :
  (overlap ta [b] <= 1)%nat /\ (overlap ta [b] = 1%nat -> In b ta).
Proof.
  unfold overlap. destruct (filter_single b (distinct ta) (distinct_NoDup ta)) as [Hle Hin].
  split; [exact Hle|]. intros H. apply distinct_In. now apply Hin.
Qed.

(** The score against an alias is at most 1/2 unless the lower-cased text
    is the single word that the lower-cased alias is. *)
Lemma _simple_similarity_half (base alias : string) :
  In alias aliases -> PyStr.split (PyStr.lower base) <> [PyStr.lower alias] ->
  Qle (_simple_similarity base alias) (1 # 2).
Proof.
  intros Hin Hne. destruct (aliases_one_word alias Hin) as [Hns Hemp].
  pose proof (PyStr.split_no_space _ Hns Hemp) as Hsplit.
  unfold _simple_similarity.
  destruct (String.eqb_spec (PyStr.lower base) (PyStr.lower alias)) as [E|_].
  { exfalso. apply Hne. now rewrite E. }
  rewrite Hsplit.
  destruct (overlap_single (PyStr.split (PyStr.lower base)) (PyStr.lower alias)) as [Hle H1].
  destruct (overlap (PyStr.split (PyStr.lower base)) [PyStr.lower alias]) as [|[|o]];
    [| |lia].
  - unfold Qle. cbn [Qnum Qden]. lia.
  - specialize (H1 eq_refl).
    destruct (PyStr.split (PyStr.lower base)) as [|y [|z ta]]; [contradiction| |].
    + destruct H1 as [->|[]]. now elim Hne.
    + cbn [length Nat.max]. unfold Qle. cbn [Qnum Qden].
      rewrite Nat2Pos.inj_succ by discriminate. lia.
Qed.

(** The score is 1 when the lower-cased text is the single word that the
    lower-cased alias is. *)
Lemma _simple_similarity_one (base alias : string) :
  In alias aliases -> PyStr.split (PyStr.lower base) = [PyStr.lower alias] ->
  Qle 1 (_simple_similarity base alias).
Proof.
  intros Hin Heq. destruct (aliases_one_word alias Hin) as [Hns Hemp].
  pose proof (PyStr.split_no_space _ Hns Hemp) as Hsplit.
  unfold _simple_similarity.
  destruct (String.eqb_spec (PyStr.lower base) (PyStr.lower alias)) as [E|_];
    [apply Qle_refl|].
  rewrite Heq, Hsplit.
  assert (overlap [PyStr.lower alias] [PyStr.lower alias] = 1%nat) as ->.
  { unfold overlap. cbn [distinct PyStr.mem existsb]. rewrite filter_cons.
    destruct (decide _) as [_|Hn]; [reflexivity|].
    exfalso. apply Hn. unfold PyStr.mem. cbn [existsb]. now rewrite String.eqb_refl. }
  cbn [length Nat.max]. unfold Qle. cbn. lia.
Qed.

Lemma best_step_ge (score : string -> Q) (st : option string * Q) (item : string * string) :
  Qle (snd st) (snd (best_step score st item)) /\
  Qle (score (fst item)) (snd (best_step score st item)).
Proof.
  unfold best_step, Qgtb.
  destruct (Qle_bool (score (fst item)) (snd st)) eqn:E; cbn [negb snd].
  - split; [apply Qle_refl|now apply Qle_bool_iff].
  - split; [|apply Qle_refl]. apply Qlt_le_weak, Qnot_le_lt.
    intros H. apply Qle_bool_iff in H. congruence.
Qed.

(** The best score bounds every score from above, and is bounded by
    whatever bounds them all. *)
Lemma fold_best_step_ge (score : string -> Q) (d : list (string * string)) st :
  Qle (snd st) (snd (fold_left (best_step score) d st)) /\
  forall item, In item d -> Qle (score (fst item)) (snd (fold_left (best_step score) d st)).
Proof.
  revert st. induction d as [|item d IH]; intros st; cbn [fold_left].
  - split; [apply Qle_refl|intros ? []].
  - destruct (IH (best_step score st item)) as [H1 H2].
    destruct (best_step_ge score st item) as [H3 H4]. split.
    + exact (Qle_trans _ _ _ H3 H1).
    + intros i [<-|Hi]; [exact (Qle_trans _ _ _ H4 H1)|now apply H2].
Qed.

Lemma fold_best_step_le (score : string -> Q) (d : list (string * string)) st (t : Q) :
  (forall item, In item d -> Qle (score (fst item)) t) -> Qle (snd st) t ->
  Qle (snd (fold_left (best_step score) d st)) t.
Proof.
  revert st. induction d as [|item d IH]; intros st Hd Hst; cbn [fold_left]; [exact Hst|].
  apply IH; [intros i Hi; apply Hd; now right|].
  unfold best_step. destruct (Qgtb _ _); cbn [snd]; [apply Hd; now left|exact Hst].
Qed.

(** The concept the search holds was put there by an item of positive
    score. *)
Lemma fold_best_step_origin (score : string -> Q) (d : list (string * string)) st c :
  Qle 0 (snd st) -> fst (fold_left (best_step score) d st) = Some c ->
  fst st = Some c \/
  exists item, In item d /\ snd item = c /\ Qgtb (score (fst item)) 0 = true.
Proof.
  revert st. induction d as [|item d IH]; intros st Hst H; cbn [fold_left] in H; [now left|].
  destruct (best_step_ge score st item) as [Hge _].
  destruct (IH _ (Qle_trans _ _ _ Hst Hge) H) as [E|[i [Hi Hc]]].
  - unfold best_step in E. destruct (Qgtb (score (fst item)) (snd st)) eqn:Eg; cbn [fst] in E.
    + right. exists item. split; [now left|]. split; [congruence|].
      unfold Qgtb in *. destruct (Qle_bool (score (fst item)) 0) eqn:E0; [|reflexivity].
      apply Qle_bool_iff in E0.
      assert (Qle_bool (score (fst item)) (snd st) = true) as Hc
        by (apply Qle_bool_iff; exact (Qle_trans _ _ _ E0 Hst)).
      rewrite Hc in Eg. discriminate.
    + now left.
  - right. exists i. split; [now right|exact Hc].
Qed.

Lemma lookup_Some_pair (k c : string) (d : list (string * string)) :
  lookup k d = Some c -> In (k, c) d.
Proof.
  induction d as [|[a' c'] d IH]; cbn [lookup]; [discriminate|].
  destruct (String.eqb_spec k a') as [->|_]; intros H.
  - inversion H. now left.
  - right. now apply IH.
Qed.

(** C6 (amended).  With the embedding stage unavailable, on a text [x] of
    code points below 128 whose stripped form is not an alias, [resolve]
    falls back exactly when the text, with white space and namespace prefix
    removed and lower-cased, is not the single word that a lower-cased
    alias is: it then returns the text with white space and prefix removed.
    Otherwise it maps the text to the canonical concept of an alias that
    equals it up to case. *)
Theorem resolve_fallback (x : string) :
  PyStr.is_ascii x = true ->
  ~ In (PyStr.strip x) aliases ->
  ((forall alias, In alias aliases ->
      PyStr.split (PyStr.lower (strip_prefix (PyStr.strip x))) <> [PyStr.lower alias]) ->
   resolve None x = Some (strip_prefix (PyStr.strip x))) /\
  (forall alias, In alias aliases ->
     PyStr.split (PyStr.lower (strip_prefix (PyStr.strip x))) = [PyStr.lower alias] ->
     exists alias' canonical,
       In (alias', canonical) CANONICAL_LOOKUP /\
       PyStr.lower alias' = PyStr.lower alias /\
       resolve None x = Some canonical).
Proof.
  intros _ Hraw.
  assert (lookup (PyStr.strip x) CANONICAL_LOOKUP = None) as Hr
    by (apply lookup_None; exact Hraw).
  split.
  - intros Hwords.
    assert (lookup (strip_prefix (PyStr.strip x)) CANONICAL_LOOKUP = None) as Hb.
    { apply lookup_None. intros Hin. apply (Hwords _ Hin).
      destruct (aliases_one_word _ Hin) as [Hns Hne].
      now apply PyStr.split_no_space. }
    assert (forall item, In item CANONICAL_LOOKUP ->
              Qle (_simple_similarity (strip_prefix (PyStr.strip x)) (fst item)) (1 # 2)) as F.
    { intros item Hin.
      assert (In (fst item) aliases) as Ha by exact (in_map fst _ _ Hin).
      apply _simple_similarity_half; [exact Ha|]. now apply Hwords. }
    clear Hraw Hwords. unfold resolve.
    set (raw := PyStr.strip x) in *. set (base := strip_prefix raw) in *.
    revert Hr Hb F. generalize CANONICAL_LOOKUP. intros d Hr Hb F. rewrite Hr, Hb.
    pose proof (fold_best_step_le (_simple_similarity base) d (None, 0%Q) (1 # 2) F) as Hle.
    unfold best_match.
    destruct (fold_left (best_step (_simple_similarity base)) d (None, 0%Q))
      as [best best_score].
    cbn [snd] in Hle. unfold Qgeb.
    destruct (Qle_bool (6 # 10) best_score) eqn:E; [|reflexivity].
    apply Qle_bool_iff in E.
    assert (Qle (6 # 10) (1 # 2)) as Habs by (apply (Qle_trans _ _ _ E); apply Hle; discriminate).
    unfold Qle in Habs. cbn in Habs. lia.
  - intros alias Hal Hword.
    assert (forall c, In (strip_prefix (PyStr.strip x), c) CANONICAL_LOOKUP ->
              PyStr.lower (strip_prefix (PyStr.strip x)) = PyStr.lower alias) as Fbase.
    { intros c Hin.
      assert (In (strip_prefix (PyStr.strip x)) aliases) as Hb
        by exact (in_map fst _ _ Hin).
      destruct (aliases_one_word _ Hb) as [Hns Hne].
      rewrite (PyStr.split_no_space _ Hns Hne) in Hword. now inversion Hword. }
    assert (forall item, In item CANONICAL_LOOKUP ->
              Qgtb (_simple_similarity (strip_prefix (PyStr.strip x)) (fst item)) 0 = true ->
              PyStr.lower (fst item) = PyStr.lower alias) as Fzero.
    { intros item Hin Hs.
      assert (In (fst item) aliases) as Ha by exact (in_map fst _ _ Hin). clear Hin.
      rename Ha into Hin.
      destruct (in_dec String.string_dec (PyStr.lower (fst item))
                  (PyStr.split (PyStr.lower (strip_prefix (PyStr.strip x))))) as [Hw|Hw].
      - rewrite Hword in Hw. destruct Hw as [Hw|[]]. now symmetry.
      - rewrite (_simple_similarity_zero _ _ Hin Hw) in Hs. discriminate. }
    pose proof (_simple_similarity_one _ alias Hal Hword) as Hone.
    apply in_map_iff in Hal. destruct Hal as [[alias0 c0] [Ea Hin]]. cbn [fst] in Ea.
    subst alias0.
    clear Hraw Hword. unfold resolve.
    set (raw := PyStr.strip x) in *. set (base := strip_prefix raw) in *.
    revert Hr Fbase Fzero Hin. generalize CANONICAL_LOOKUP. intros d Hr Fbase Fzero Hin.
    rewrite Hr. destruct (lookup base d) as [c|] eqn:El.
    + apply lookup_Some_pair in El. exists base, c.
      split; [exact El|]. split; [exact (Fbase c El)|reflexivity].
    + destruct (fold_best_step_ge (_simple_similarity base) d (None, 0%Q)) as [_ Hmax].
      specialize (Hmax _ Hin). cbn [fst] in Hmax.
      pose proof (Qle_trans _ _ _ Hone Hmax) as Hbest.
      pose proof (fold_best_step_origin (_simple_similarity base) d (None, 0%Q)) as Horigin.
      pose proof (fold_best_step_Some (_simple_similarity base) d (None, 0%Q)
                    (fun _ => eq_refl)) as Hsome.
      unfold best_match.
      destruct (fold_left (best_step (_simple_similarity base)) d (None, 0%Q))
        as [best best_score].
      cbn [fst snd] in *.
      assert (Qgeb best_score (6 # 10) = true) as Hge.
      { unfold Qgeb. apply Qle_bool_iff. apply (Qle_trans _ 1); [|exact Hbest].
        unfold Qle. cbn. lia. }
      rewrite Hge. destruct best as [c|].
      * destruct (Horigin c (Qle_refl 0) eq_refl) as [E|[[a c'] [Hi [Ec Hs]]]];
          [discriminate|].
        cbn [fst snd] in Ec, Hs. subst c'. exists a, c.
        split; [exact Hi|]. split; [exact (Fzero _ Hi Hs)|reflexivity].
      * exfalso. specialize (Hsome eq_refl). apply Qle_bool_iff in Hsome.
        pose proof (Qle_trans _ _ _ Hbest Hsome) as Habs.
        unfold Qle in Habs. cbn in Habs. lia.
Qed.

Lemma resolve_fallback_witness :
  resolve None " us-gaap:DeferredRevenueCurrent " = Some "DeferredRevenueCurrent" /\
  resolve None "Total Revenues" = Some "Total Revenues" /\
  exists alias' canonical,
    In (alias', canonical) CANONICAL_LOOKUP /\
    PyStr.lower alias' = PyStr.lower "Revenues" /\
    resolve None "us-gaap: REVENUES" = Some canonical.
Proof.
  assert (forall x w,
            forallb (fun a => negb (bool_decide (w = [PyStr.lower a]))) aliases = true ->
            PyStr.split (PyStr.lower (strip_prefix (PyStr.strip x))) = w ->
            forall alias, In alias aliases ->
              PyStr.split (PyStr.lower (strip_prefix (PyStr.strip x))) <> [PyStr.lower alias])
    as Hwords.
  { intros x w Hall Hw alias Hin E. rewrite forallb_forall in Hall.
    specialize (Hall alias Hin). apply negb_true_iff, bool_decide_eq_false in Hall.
    apply Hall. now rewrite <- Hw. }
  assert (forall x, PyStr.mem (PyStr.strip x) aliases = false -> ~ In (PyStr.strip x) aliases)
    as Hraw.
  { intros x Hm Hin. apply PyStr.mem_In in Hin. congruence. }
  split; [|split].
  - assert (~ In (PyStr.strip " us-gaap:DeferredRevenueCurrent ") aliases) as H
      by (apply Hraw; vm_compute; reflexivity).
    apply (proj1 (resolve_fallback " us-gaap:DeferredRevenueCurrent " eq_refl H)).
    apply (Hwords " us-gaap:DeferredRevenueCurrent " ["deferredrevenuecurrent"]);
      vm_compute; reflexivity.
  - assert (~ In (PyStr.strip "Total Revenues") aliases) as H
      by (apply Hraw; vm_compute; reflexivity).
    apply (proj1 (resolve_fallback "Total Revenues" eq_refl H)).
    apply (Hwords "Total Revenues" ["total"; "revenues"]); vm_compute; reflexivity.
  - assert (~ In (PyStr.strip "us-gaap: REVENUES") aliases) as H
      by (apply Hraw; vm_compute; reflexivity).
    apply (proj2 (resolve_fallback "us-gaap: REVENUES" eq_refl H) "Revenues").
    + apply PyStr.mem_In. vm_compute. reflexivity.
    + vm_compute. reflexivity.
Defined.

(** C6, as stated, fails: ["revenues"] is in no alias list, yet the
    word-overlap stage maps it to the canonical concept ["Revenue"]. *)
Lemma resolve_case_variant_is_mapped :
  PyStr.mem "revenues" aliases = false /\
  strip_prefix (PyStr.strip "revenues") = "revenues" /\
  resolve None "revenues" = Some "Revenue".
Proof. vm_compute. repeat split. Qed.

(** *** The alias table and the range of [resolve] *)

(** [CANONICAL_CLUSTERS.keys()] *)
Definition canonical_names : list string := map fst CANONICAL_CLUSTERS.

Lemma lookup_In (a c : string) (d : list (string * string)) :
  NoDup (map fst d) -> In (a, c) d -> lookup a d = Some c.
Proof.
  induction d as [|[a' c'] d IH]; cbn [map fst lookup]; intros Hnd Hin; [contradiction|].
  inversion Hnd as [|x l Hnot Hnd']. subst x l.
  destruct Hin as [E|Hin].
  - inversion E. now rewrite String.eqb_refl.
  - destruct (String.eqb_spec a a') as [->|_].
    + exfalso. apply Hnot. apply list_elem_of_In. now apply (in_map fst) in Hin.
    + now apply IH.
Qed.

Lemma lookup_Some_In (k c : string) (d : list (string * string)) :
  lookup k d = Some c -> In c (map snd d).
Proof.
  induction d as [|[a' c'] d IH]; cbn [map snd lookup]; [discriminate|].
  destruct (String.eqb k a'); intros H.
  - inversion H. now left.
  - right. now apply IH.
Qed.

Lemma fold_best_step_In (score : string -> Q) (d : list (string * string)) st c :
  fst (fold_left (best_step score) d st) = Some c ->
  fst st = Some c \/ In c (map snd d).
Proof.
  revert st. induction d as [|item d IH]; intros st H; cbn [fold_left map] in *.
  - now left.
  - destruct (IH _ H) as [E|Hin]; [|right; now right].
    unfold best_step in E. destruct (Qgtb _ _); cbn [fst] in E.
    + right. left. congruence.
    + now left.
Qed.

Lemma best_match_In (score : string -> Q) (d : list (string * string)) (c : string) :
  fst (best_match score d) = Some c -> In c (map snd d).
Proof.
  unfold best_match. intros H.
  destruct (fold_best_step_In score d (None, 0%Q) c H) as [E|Hin]; [discriminate|exact Hin].
Qed.

Lemma CANONICAL_LOOKUP_names (c : string) :
  In c (map snd CANONICAL_LOOKUP) -> In c canonical_names.
Proof.
  assert (forallb (fun c => PyStr.mem c canonical_names) (map snd CANONICAL_LOOKUP) = true) as H
    by (vm_compute; reflexivity).
  rewrite forallb_forall in H. intros Hin. apply PyStr.mem_In. now apply H.
Qed.

(** An alias of the table resolves to the canonical concept of its
    cluster, whatever the embedding backend. *)
Theorem resolve_alias embedding (alias canonical : string) :
  In (alias, canonical) CANONICAL_LOOKUP -> resolve embedding alias = Some canonical.
Proof.
  intros Hin.
  assert (PyStr.strip alias = alias) as Hstrip.
  { assert (forallb (fun a => String.eqb (PyStr.strip a) a) aliases = true) as H
      by (vm_compute; reflexivity).
    rewrite forallb_forall in H. apply String.eqb_eq. apply H.
    now apply (in_map fst) in Hin. }
  pose proof (lookup_In alias canonical CANONICAL_LOOKUP CANONICAL_LOOKUP_NoDup Hin) as Hl.
  unfold resolve. rewrite Hstrip.
  revert Hl. generalize CANONICAL_LOOKUP. intros d Hl. now rewrite Hl.
Qed.

(** [resolve] never invents a name: its result is a canonical concept of
    the cluster table or the input with white space and namespace prefix
    removed. *)
Theorem resolve_range embedding (concept : string) :
  exists name, resolve embedding concept = Some name /\
    (In name canonical_names \/ name = strip_prefix (PyStr.strip concept)).
Proof.
  destruct (resolve_is_Some embedding concept) as [name Hname].
  exists name. split; [exact Hname|].
  revert Hname. unfold resolve.
  set (raw := PyStr.strip concept). set (base := strip_prefix raw).
  pose proof CANONICAL_LOOKUP_names as Hnames. revert Hnames.
  generalize CANONICAL_LOOKUP. intros d Hnames.
  destruct (lookup raw d) eqn:E1.
  { intros H. inversion H. subst. left. apply Hnames. now apply (lookup_Some_In raw). }
  destruct (lookup base d) eqn:E2.
  { intros H. inversion H. subst. left. apply Hnames. now apply (lookup_Some_In base). }
  pose proof (best_match_In (_simple_similarity base) d name) as H1.
  destruct (best_match (_simple_similarity base) d) as [best best_score].
  cbn [fst] in H1. destruct (Qgeb best_score (6 # 10)).
  { intros H. left. apply Hnames. now apply H1. }
  destruct embedding as [sim|]; [|intros H; inversion H; now right].
  pose proof (best_match_In (sim base) d name) as H2.
  destruct (best_match (sim base) d) as [best' best_score'].
  cbn [fst] in H2. destruct (Qgeb best_score' (55 # 100)).
  - intros H. left. apply Hnames. now apply H2.
  - intros H. inversion H. now right.
Qed.

(** Without the embedding backend every canonical concept resolves to
    itself, so resolving twice (as [Atlas.get] followed by
    [get_concept_value] does) changes nothing. *)
Theorem resolve_canonical_fixed (canonical : string) :
  In canonical canonical_names -> resolve None canonical = Some canonical.
Proof.
  assert (forallb (fun c => bool_decide (resolve None c = Some c)) canonical_names = true) as H
    by (vm_compute; reflexivity).
  rewrite forallb_forall in H. intros Hin. exact (proj1 (bool_decide_eq_true _) (H canonical Hin)).
Qed.

Lemma resolve_alias_witness :
  resolve (Some (fun _ _ => 1%Q)) "CostOfGoodsSold" = Some "CostOfRevenue".
Proof.
  apply (resolve_alias (Some (fun _ _ => 1%Q)) "CostOfGoodsSold" "CostOfRevenue").
  apply list_elem_of_In. apply (bool_decide_unpack _). vm_compute. reflexivity.
Defined.

Lemma resolve_canonical_fixed_witness : resolve None "Revenue" = Some "Revenue".
Proof.
  apply (resolve_canonical_fixed "Revenue"). apply PyStr.mem_In. vm_compute. reflexivity.
Defined.

End ConceptResolver.

(** ** [src/xbrl/fact_extractor.py] *)

Module FactExtractor.

(** A fact as [extract_facts] builds it.  [end_year] is what
    [_extract_end_date_year] reads for the fact in the XML tree: the year of
    the [endDate] of its context, [None] when there is none. *)
Record fact := {
  name : option string;
  tag : option string;
  value : string;
  end_year : option Z;
}.

(** A [dict] keyed by year, as the list of its items in insertion order.
    [d[k] = v] overwrites in place or appends. *)
Fixpoint dict_set {V : Type} (k : Z) (v : V) (d : list (Z * V)) : list (Z * V) :=
  match d with
  | [] => [(k, v)]
  | (k', v') :: d' => if Z.eqb k k' then (k, v) :: d' else (k', v') :: dict_set k v d'
  end.

Fixpoint dict_get {V : Type} (k : Z) (d : list (Z * V)) : option V :=
  match d with
  | [] => None
  | (k', v') :: d' => if Z.eqb k k' then Some v' else dict_get k d'
  end.

(** Truth value of an optional string: neither [None] nor empty. *)
Definition nonempty (s : option string) : bool :=
  match s with Some s => negb (PyStr.is_empty s) | None => false end.

(** [f.get("name") or f.get("tag")] *)
Definition name_or_tag (f : fact) : option string :=
  if nonempty (name f) then name f else tag f.

(** [key(a) <= key(b)] for the two sort keys of the module. *)
Definition by_year {B : Type} (a b : Z * B) : bool := Z.leb (fst a) (fst b).
Definition by_distance {B : Type} (year : Z) (a b : Z * B) : bool :=
  Z.leb (Z.abs (fst a - year)) (Z.abs (fst b - year)).

Section Extractor.

(** The sentence-embedding backend of [resolve] ([None]: not installed). *)
Variable embedding : option (string -> string -> Q).

(** [concept_resolver.resolve_to_fact(query, all_facts)]: the name it
    picks among the filing's fact names, or [None].  It ranks the names by
    iterating over a Python [set] and by embedding similarity, so its choice
    is a parameter; nothing below depends on it. *)
Variable resolve_to_fact : string -> list fact -> option string.

(** [float(text)]: [None] for the [ValueError]. *)
Variable py_float : string -> option float.

Definition resolve (concept : string) : option string :=
  ConceptResolver.resolve embedding concept.

(** Stage 1: [fname = f.get("name")], skipped when empty, kept when
    [resolve(fname) == canonical]. *)
Definition alias_match (canonical : option string) (f : fact) : bool :=
  match name f with
  | Some fname =>
      negb (PyStr.is_empty fname) && bool_decide (resolve fname = canonical)
  | None => false
  end.

(** Stage 2: the facts named as [resolve_to_fact] says. *)
Definition fallback_matches (concept : string) (all_facts : list fact) : list fact :=
  match resolve_to_fact concept all_facts with
  | Some best_fact_name =>
      if PyStr.is_empty best_fact_name then []
      else List.filter (fun f => bool_decide (name_or_tag f = Some best_fact_name)) all_facts
  | None => []
  end.

(** [(y, f)] for the facts with an end year. *)
Definition with_year (l : list fact) : list (Z * fact) :=
  flat_map (fun f => match end_year f with Some y => [(y, f)] | None => [] end) l.

(** [try: return float(f["value"]) except: pass] *)
Definition float_of (f : fact) : option float := py_float (value f).

(** The closing block of [get_concept_value]: sort by year, take the last. *)
Definition latest_value (dated : list (Z * fact)) : option float :=
  match Py.last_item (Py.sorted by_year dated) with
  | Some (_, f) => float_of f
  | None => None
  end.

(** [matches] of [get_concept_value]: the stage-1 matches, or the stage-2
    matches when there is none. *)
Definition matches_of (concept : string) (all_facts : list fact) : list fact :=
  let canonical := resolve concept in
  match List.filter (alias_match canonical) all_facts with
  | [] => fallback_matches concept all_facts
  | matches => matches
  end.

(** [get_concept_value(concept, all_facts, year)] *)
Definition get_concept_value (concept : string) (all_facts : list fact)
    (year : option Z) : option float :=
  match matches_of concept all_facts with
  | [] => None
  | matches =>
      let dated := with_year matches in
      match year with
      | None => latest_value dated
      | Some year =>
          let exact := List.filter (fun yf => Z.eqb (fst yf) year) dated in
          let exact_value :=
            match Py.last_item exact with Some (_, f) => float_of f | None => None end in
          match exact_value with
          | Some v => Some v
          | None =>
              match dated with
              | [] => latest_value dated
              | _ =>
                  (* [dated.sort(...)] sorts in place: the closing block
                     sorts the re-ordered list *)
                  let dated := Py.sorted (by_distance year) dated in
                  let nearest_value :=
                    match Py.first_item dated with
                    | Some (_, f) => float_of f
                    | None => None
                    end in
                  match nearest_value with
                  | Some v => Some v
                  | None => latest_value dated
                  end
              end
          end
      end
  end.

(** [raw_matches] of [build_concept_series]: the dated stage-1 matches, or
    the dated stage-2 matches when there is none. *)
Definition raw_matches (concept : string) (all_facts : list fact) : list (Z * fact) :=
  let canonical := resolve concept in
  match with_year (List.filter (alias_match canonical) all_facts) with
  | [] => with_year (fallback_matches concept all_facts)
  | l => l
  end.

(** [for y, f in raw_matches: try: dedup[y] = float(f["value"]) except: continue] *)
Definition dedup_step (dedup : list (Z * float)) (yf : Z * fact) : list (Z * float) :=
  match float_of (snd yf) with
  | Some v => dict_set (fst yf) v dedup
  | None => dedup
  end.

Definition dedup_of (raw : list (Z * fact)) : list (Z * float) :=
  fold_left dedup_step raw [].

(** [build_concept_series(concept, all_facts)] *)
Definition build_concept_series (concept : string) (all_facts : list fact)
  : list (Z * float) :=
  Py.sorted by_year (dedup_of (raw_matches concept all_facts)).

(** *** Properties *)

Lemma by_year_total {B : Type} (a b : Z * B) : by_year a b = true \/ by_year b a = true.
Proof. unfold by_year. destruct (Z.leb_spec (fst a) (fst b)); [now left|right]. apply Z.leb_le. lia. Qed.

Lemma by_year_trans {B : Type} (a b c : Z * B) :
  by_year a b = true -> by_year b c = true -> by_year a c = true.
Proof. unfold by_year. rewrite !Z.leb_le. lia. Qed.

Lemma by_distance_total {B : Type} year (a b : Z * B) :
  by_distance year a b = true \/ by_distance year b a = true.
Proof.
  unfold by_distance.
  destruct (Z.leb_spec (Z.abs (fst a - year)) (Z.abs (fst b - year))); [now left|right].
  apply Z.leb_le. lia.
Qed.

Lemma by_distance_trans {B : Type} year (a b c : Z * B) :
  by_distance year a b = true -> by_distance year b c = true -> by_distance year a c = true.
Proof. unfold by_distance. rewrite !Z.leb_le. lia. Qed.

Lemma dict_get_set {V : Type} (k k' : Z) (v : V) (d : list (Z * V)) :
  dict_get k' (dict_set k v d) = if Z.eqb k' k then Some v else dict_get k' d.
Proof.
  induction d as [|[k0 v0] d IH]; simpl; [reflexivity|].
  destruct (Z.eqb_spec k k0) as [->|Hne]; simpl.
  - destruct (Z.eqb k' k0); reflexivity.
  - rewrite IH. destruct (Z.eqb_spec k' k0) as [->|Hne'].
    + destruct (Z.eqb_spec k0 k); [congruence|reflexivity].
    + reflexivity.
Qed.

Lemma dict_set_keys {V : Type} (k k' : Z) (v : V) (d : list (Z * V)) :
  In k' (map fst (dict_set k v d)) <-> k' = k \/ In k' (map fst d).
Proof.
  induction d as [|[k0 v0] d IH]; simpl; [intuition|].
  destruct (Z.eqb_spec k k0) as [->|Hne]; simpl; [intuition|].
  rewrite IH. intuition.
Qed.

(** Writing into a [dict] never duplicates a key. *)
Lemma dict_set_NoDup {V : Type} (k : Z) (v : V) (d : list (Z * V)) :
  List.NoDup (map fst d) -> List.NoDup (map fst (dict_set k v d)).
Proof.
  induction d as [|[k0 v0] d IH]; simpl; intros H.
  - constructor; [tauto|constructor].
  - inversion H; subst. destruct (Z.eqb_spec k k0) as [->|Hne]; simpl.
    + now constructor.
    + constructor; [|auto]. rewrite dict_set_keys. intros [E|Hin]; congruence.
Qed.

Lemma dict_get_In {V : Type} (k : Z) (v : V) (d : list (Z * V)) :
  List.NoDup (map fst d) -> (In (k, v) d <-> dict_get k d = Some v).
Proof.
  induction d as [|[k0 v0] d IH]; simpl; intros H; [split; [tauto|discriminate]|].
  inversion H; subst. destruct (Z.eqb_spec k k0) as [->|Hne].
  - split.
    + intros [E|Hin]; [congruence|]. exfalso. apply H2. now apply (in_map fst) in Hin.
    + intros E. left. congruence.
  - rewrite <- IH by assumption. split; [intros [E|Hin]; [congruence|exact Hin]|tauto].
Qed.

Lemma dedup_of_snoc (raw : list (Z * fact)) (yf : Z * fact) :
  dedup_of (raw ++ [yf]) = dedup_step (dedup_of raw) yf.
Proof. unfold dedup_of. now rewrite fold_left_app. Qed.

Lemma dedup_of_NoDup (raw : list (Z * fact)) : List.NoDup (map fst (dedup_of raw)).
Proof.
  induction raw as [|yf raw IH] using rev_ind; [constructor|].
  rewrite dedup_of_snoc. unfold dedup_step.
  destruct (float_of (snd yf)); [now apply dict_set_NoDup|exact IH].
Qed.

(** A list that ends with [x], cut at one of its elements. *)
Lemma snoc_split {B : Type} (l l1 l2 : list B) (x a : B) :
  l ++ [x] = l1 ++ a :: l2 ->
  (l2 = [] /\ l = l1 /\ x = a) \/ (exists l2', l2 = l2' ++ [x] /\ l = l1 ++ a :: l2').
Proof.
  intros E. destruct l2 as [|b l2 _] using rev_ind.
  - left. apply app_inj_tail in E. destruct E; subst. auto.
  - right. exists l2.
    change (l1 ++ a :: l2 ++ [b]) with (l1 ++ (a :: l2) ++ [b]) in E.
    rewrite app_assoc in E. apply app_inj_tail in E. destruct E as [E ->]. auto.
Qed.

(** The year's entry of [dedup] is the value of the last fact of that year
    whose text parses. *)
Lemma dedup_of_get (raw : list (Z * fact)) (y : Z) (v : float) :
  dict_get y (dedup_of raw) = Some v <->
  exists l1 f l2, raw = l1 ++ (y, f) :: l2 /\ float_of f = Some v /\
                  forall f', In (y, f') l2 -> float_of f' = None.
Proof.
  induction raw as [|[y0 f0] raw IH] using rev_ind.
  - simpl. split; [discriminate|]. intros [l1 [f [l2 [E _]]]]. now destruct l1.
  - rewrite dedup_of_snoc. unfold dedup_step. cbn [fst snd].
    destruct (float_of f0) as [v0|] eqn:Hf0.
    + rewrite dict_get_set. destruct (Z.eqb_spec y y0) as [->|Hne].
      * split.
        -- intros E. inversion E; subst. exists raw, f0, []. repeat split; auto.
           intros f' [].
        -- intros [l1 [f [l2 [E [Hf Hl2]]]]].
           apply snoc_split in E. destruct E as [[-> [-> E]]|[l2' [-> E]]].
           ++ inversion E; subst. congruence.
           ++ rewrite (Hl2 f0) in Hf0 by (apply in_app_iff; right; now left). discriminate.
      * rewrite IH. split.
        -- intros [l1 [f [l2 [-> [Hf Hl2]]]]]. exists l1, f, (l2 ++ [(y0, f0)]).
           split; [now rewrite <- app_assoc|]. split; [exact Hf|].
           intros f' Hin. apply in_app_iff in Hin. destruct Hin as [Hin|[E|[]]]; [auto|congruence].
        -- intros [l1 [f [l2 [E [Hf Hl2]]]]].
           apply snoc_split in E. destruct E as [[-> [-> E]]|[l2' [-> ->]]]; [congruence|].
           exists l1, f, l2'. repeat split; auto.
           intros f' Hin. apply Hl2, in_app_iff. now left.
    + rewrite IH. split.
      * intros [l1 [f [l2 [-> [Hf Hl2]]]]]. exists l1, f, (l2 ++ [(y0, f0)]).
        split; [now rewrite <- app_assoc|]. split; [exact Hf|].
        intros f' Hin. apply in_app_iff in Hin. destruct Hin as [Hin|[E|[]]]; [auto|].
        inversion E; subst. exact Hf0.
      * intros [l1 [f [l2 [E [Hf Hl2]]]]].
        apply snoc_split in E. destruct E as [[-> [-> E]]|[l2' [-> ->]]].
        -- inversion E; subst. congruence.
        -- exists l1, f, l2'. repeat split; auto.
           intros f' Hin. apply Hl2, in_app_iff. now left.
Qed.

Lemma sorted_distinct_keys {B : Type} (l : list (Z * B)) :
  StronglySorted (fun a b => by_year a b = true) l -> List.NoDup (map fst l) ->
  StronglySorted (fun a b => fst a < fst b) l.
Proof.
  induction 1 as [|a l Hs IH Ha]; simpl; intros Hnd; [constructor|].
  inversion Hnd; subst. constructor; [auto|].
  rewrite List.Forall_forall in *. intros b Hb.
  specialize (Ha b Hb). unfold by_year in Ha. apply Z.leb_le in Ha.
  assert (fst a <> fst b) by (intros E; apply H1; rewrite E; now apply in_map).
  lia.
Qed.

(** The series is strictly increasing in year: ascending, one value per
    year, whatever the order of the facts. *)
Theorem build_concept_series_increasing (concept : string) (all_facts : list fact) :
  StronglySorted (fun a b => fst a < fst b) (build_concept_series concept all_facts).
Proof.
  unfold build_concept_series. apply sorted_distinct_keys.
  - apply Py.sorted_sorted; [apply by_year_total|apply by_year_trans].
  - eapply Permutation_NoDup; [|apply dedup_of_NoDup].
    apply Permutation_map. symmetry. apply Py.sorted_perm.
Qed.

(** Last write wins among the facts that parse: [(y, v)] is in the series
    exactly when [v] is the parsed value of a matched fact of end year [y]
    after which no matched fact of that year parses. *)
Theorem build_concept_series_last_wins (concept : string) (all_facts : list fact)
    (y : Z) (v : float) :
  In (y, v) (build_concept_series concept all_facts) <->
  exists l1 f l2,
    raw_matches concept all_facts = l1 ++ (y, f) :: l2 /\ float_of f = Some v /\
    forall f', In (y, f') l2 -> float_of f' = None.
Proof.
  unfold build_concept_series. rewrite Py.sorted_In.
  rewrite dict_get_In by apply dedup_of_NoDup. apply dedup_of_get.
Qed.

Lemma last_item_snoc {B : Type} (l : list B) (x : B) : Py.last_item (l ++ [x]) = Some x.
Proof. unfold Py.last_item. rewrite map_app. simpl. apply last_last. Qed.

Lemma last_item_nonempty {B : Type} (l : list B) : l <> [] -> exists x, Py.last_item l = Some x.
Proof.
  destruct l as [|a l _] using rev_ind; [congruence|].
  intros _. exists a. apply last_item_snoc.
Qed.

Lemma last_item_filter {B : Type} (P : B -> bool) (l : list B) (x : B) :
  Py.last_item l = Some x -> P x = true -> Py.last_item (List.filter P l) = Some x.
Proof.
  destruct l as [|a l _] using rev_ind; [discriminate|].
  rewrite last_item_snoc. intros E Hx. inversion E; subst.
  rewrite List.filter_app. simpl. rewrite Hx. apply last_item_snoc.
Qed.

Lemma sorted_nonempty {B : Type} (le : B -> B -> bool) (l : list B) :
  l <> [] -> Py.sorted le l <> [].
Proof.
  intros Hl E. apply Hl. apply length_zero_iff_nil.
  rewrite <- (Py.sorted_length le), E. reflexivity.
Qed.

(** The closing block returns the value, when it parses, of a fact of the
    latest end year: the last such fact of the list it is given. *)
Lemma latest_value_spec (dated : list (Z * fact)) :
  dated <> [] ->
  exists ym fm,
    In (ym, fm) dated /\ (forall y f, In (y, f) dated -> y <= ym) /\
    Py.last_item (List.filter (fun yf => Z.eqb (fst yf) ym) dated) = Some (ym, fm) /\
    latest_value dated = float_of fm.
Proof.
  intros Hne. unfold latest_value.
  destruct (last_item_nonempty (Py.sorted by_year dated)) as [[ym fm] Hlast];
    [now apply sorted_nonempty|].
  rewrite Hlast. exists ym, fm.
  destruct (Py.sorted_last_greatest by_year by_year_total by_year_trans dated _ Hlast)
    as [Hin Hmax].
  split; [exact Hin|]. split.
  - intros y f Hyf. specialize (Hmax _ Hyf). unfold by_year in Hmax. simpl in Hmax.
    now apply Z.leb_le.
  - split; [|reflexivity].
    rewrite <- (Py.sorted_stable by_year (fun yf => Z.eqb (fst yf) ym) dated).
    + apply last_item_filter; [exact Hlast|]. simpl. apply Z.eqb_refl.
    + intros a b Ha Hb. apply Z.eqb_eq in Ha, Hb. unfold by_year. apply Z.leb_le. lia.
Qed.

(** No match, or no match with an end year: the answer is [None] for every
    requested year. *)
Theorem get_concept_value_undated (concept : string) (all_facts : list fact)
    (year : option Z) :
  with_year (matches_of concept all_facts) = [] ->
  get_concept_value concept all_facts year = None.
Proof.
  intros Hd. unfold get_concept_value.
  destruct (matches_of concept all_facts) as [|m ms]; [reflexivity|].
  rewrite Hd. destruct year; reflexivity.
Qed.

(** Without a requested year the answer is the parsed value of the last
    matched fact of the latest end year, [None] when it does not parse. *)
Theorem get_concept_value_latest (concept : string) (all_facts : list fact) :
  with_year (matches_of concept all_facts) <> [] ->
  exists ym fm,
    In (ym, fm) (with_year (matches_of concept all_facts)) /\
    (forall y f, In (y, f) (with_year (matches_of concept all_facts)) -> y <= ym) /\
    Py.last_item (List.filter (fun yf => Z.eqb (fst yf) ym)
                    (with_year (matches_of concept all_facts))) = Some (ym, fm) /\
    get_concept_value concept all_facts None = float_of fm.
Proof.
  intros Hne. unfold get_concept_value.
  destruct (matches_of concept all_facts) as [|m ms] eqn:Hm; [now elim Hne|].
  now apply latest_value_spec.
Qed.

(** A requested year that some matched fact ends in: the answer is the
    parsed value of the last such fact, when it parses. *)
Theorem get_concept_value_exact (concept : string) (all_facts : list fact)
    (year : Z) (f : fact) (v : float) :
  Py.last_item (List.filter (fun yf => Z.eqb (fst yf) year)
                  (with_year (matches_of concept all_facts))) = Some (year, f) ->
  float_of f = Some v ->
  get_concept_value concept all_facts (Some year) = Some v.
Proof.
  intros Hlast Hf. unfold get_concept_value.
  destruct (matches_of concept all_facts) as [|m ms] eqn:Hm; [discriminate|].
  cbv zeta. rewrite Hlast, Hf. reflexivity.
Qed.

(** A requested year that no matched fact ends in is answered from another
    year: by the matched fact whose end year is nearest (the first such
    fact on a tie) when its value parses, and otherwise by the last fact of
    the latest end year in the re-ordered list, [None] when that one does
    not parse either. *)
Theorem get_concept_value_nearest (concept : string) (all_facts : list fact) (year : Z) :
  with_year (matches_of concept all_facts) <> [] ->
  (forall f, ~ In (year, f) (with_year (matches_of concept all_facts))) ->
  exists yn fn,
    In (yn, fn) (with_year (matches_of concept all_facts)) /\
    (forall y f, In (y, f) (with_year (matches_of concept all_facts)) ->
       Z.abs (yn - year) <= Z.abs (y - year)) /\
    List.head (List.filter (fun yf => Z.eqb (Z.abs (fst yf - year)) (Z.abs (yn - year)))
                 (with_year (matches_of concept all_facts))) = Some (yn, fn) /\
    match float_of fn with
    | Some v => get_concept_value concept all_facts (Some year) = Some v
    | None =>
        exists ym fm,
          In (ym, fm) (with_year (matches_of concept all_facts)) /\
          (forall y f, In (y, f) (with_year (matches_of concept all_facts)) -> y <= ym) /\
          get_concept_value concept all_facts (Some year) = float_of fm
    end.
Proof.
  intros Hne Hno. unfold get_concept_value.
  destruct (matches_of concept all_facts) as [|m ms] eqn:Hm; [now elim Hne|].
  cbv zeta. set (dated := with_year (m :: ms)) in *.
  assert (List.filter (fun yf : Z * fact => Z.eqb (fst yf) year) dated = []) as ->.
  { destruct (List.filter _ dated) as [|[y f] l] eqn:E; [reflexivity|].
    assert (In (y, f) (List.filter (fun yf : Z * fact => Z.eqb (fst yf) year) dated)) as Hin
      by (rewrite E; now left).
    apply List.filter_In in Hin. destruct Hin as [Hin Hy]. simpl in Hy.
    apply Z.eqb_eq in Hy. subst y. now elim (Hno f). }
  cbn [Py.last_item map List.last].
  destruct dated as [|d0 ds] eqn:Hd; [now elim Hne|]. rewrite <- Hd in *.
  destruct (Py.sorted (by_distance year) dated) as [|[yn fn] rest] eqn:Hs.
  { exfalso. now apply (sorted_nonempty (by_distance year) dated Hne). }
  assert (Py.first_item (Py.sorted (by_distance year) dated) = Some (yn, fn)) as Hfirst
    by (now rewrite Hs).
  destruct (Py.sorted_head_least (by_distance year) (by_distance_total year)
              (by_distance_trans year) dated _ Hfirst) as [Hin Hmin].
  exists yn, fn. split; [exact Hin|]. split.
  { intros y f Hyf. specialize (Hmin _ Hyf). unfold by_distance in Hmin. simpl in Hmin.
    now apply Z.leb_le. }
  split.
  { rewrite <- (Py.sorted_stable (by_distance year)
                  (fun yf => Z.eqb (Z.abs (fst yf - year)) (Z.abs (yn - year))) dated).
    - rewrite Hs. simpl. now rewrite Z.eqb_refl.
    - intros a b Ha Hb. apply Z.eqb_eq in Ha, Hb. unfold by_distance. apply Z.leb_le. lia. }
  cbn [Py.first_item List.head]. destruct (float_of fn) as [v|]; [reflexivity|].
  rewrite <- Hs.
  destruct (latest_value_spec (Py.sorted (by_distance year) dated)) as [ym [fm [Hi [Hmax [_ E]]]]];
    [now apply sorted_nonempty|].
  exists ym, fm. split; [now apply Py.sorted_In in Hi|]. split; [|exact E].
  intros y f Hyf. apply (Hmax y f). now apply Py.sorted_In.
Qed.

End Extractor.

(** *** The functions on a small filing *)

Local Open Scope string_scope.

(** [float(text)] on unsigned decimal integers; Python's [float] accepts
    more (signs, fractions, exponents, [inf], [nan]) and, like this
    function, rejects the texts used below that are not numbers. *)
Definition digit (c : ascii) : option Z :=
  let n := Z.of_nat (nat_of_ascii c) in
  if ((48 <=? n) && (n <=? 57))%Z then Some (n - 48)%Z else None.

Fixpoint digits (acc : Z) (s : string) : option Z :=
  match s with
  | EmptyString => Some acc
  | String c s' => match digit c with Some d => digits (10 * acc + d)%Z s' | None => None end
  end.

Definition decimal_float (s : string) : option float :=
  if PyStr.is_empty s then None
  else match digits 0%Z s with
       | Some z => Some (PrimFloat.of_uint63 (Uint63.of_Z z))
       | None => None
       end.

Definition no_fallback (query : string) (all_facts : list fact) : option string := None.

Definition revenue (year : Z) (text : string) : fact :=
  {| name := Some "Revenues"; tag := Some "us-gaap:Revenues";
     value := text; end_year := Some year |}.

Definition filing : list fact :=
  [ revenue 2021 "100"; revenue 2020 "90"; revenue 2021 "n/a";
    {| name := Some "Goodwill"; tag := Some "us-gaap:Goodwill";
       value := "7"; end_year := None |};
    revenue 2018 "70"; revenue 2020 "95" ].

Example filing_series :
  build_concept_series None no_fallback decimal_float "Revenue" filing
  = [(2018, 70%float); (2020, 95%float); (2021, 100%float)].
Proof. vm_compute. reflexivity. Qed.

Example filing_values :
  get_concept_value None no_fallback decimal_float "Revenue" filing None = None /\
  get_concept_value None no_fallback decimal_float "Revenue" filing (Some 2020) = Some 95%float /\
  get_concept_value None no_fallback decimal_float "Revenue" filing (Some 2019) = Some 90%float /\
  get_concept_value None no_fallback decimal_float "Revenue" filing (Some 2030) = Some 100%float /\
  get_concept_value None no_fallback decimal_float "Revenue"
    [revenue 2018 "5"; revenue 2020 "n/a"] (Some 2025) = None /\
  get_concept_value None no_fallback decimal_float "Goodwill" filing (Some 2020) = None.
Proof. vm_compute. repeat split. Qed.

Lemma filing_dated :
  with_year (matches_of None no_fallback "Revenue" filing)
  = [ (2021, revenue 2021 "100"); (2020, revenue 2020 "90"); (2021, revenue 2021 "n/a");
      (2018, revenue 2018 "70"); (2020, revenue 2020 "95") ].
Proof. vm_compute. reflexivity. Qed.

Lemma build_concept_series_last_wins_witness :
  In (2020, 95%float) (build_concept_series None no_fallback decimal_float "Revenue" filing).
Proof.
  apply (proj2 (build_concept_series_last_wins None no_fallback decimal_float
                  "Revenue" filing 2020 95%float)).
  exists [ (2021, revenue 2021 "100"); (2020, revenue 2020 "90"); (2021, revenue 2021 "n/a");
           (2018, revenue 2018 "70") ], (revenue 2020 "95"), [].
  split; [vm_compute; reflexivity|]. split; [vm_compute; reflexivity|]. intros f' [].
Defined.

Lemma get_concept_value_undated_witness :
  get_concept_value None no_fallback decimal_float "Goodwill" filing (Some 2020) = None.
Proof.
  apply (get_concept_value_undated None no_fallback decimal_float "Goodwill" filing (Some 2020)).
  vm_compute. reflexivity.
Defined.

Lemma get_concept_value_latest_witness :
  exists ym fm,
    In (ym, fm) (with_year (matches_of None no_fallback "Revenue" filing)) /\
    (forall y f, In (y, f) (with_year (matches_of None no_fallback "Revenue" filing)) -> y <= ym) /\
    Py.last_item (List.filter (fun yf => Z.eqb (fst yf) ym)
                    (with_year (matches_of None no_fallback "Revenue" filing))) = Some (ym, fm) /\
    get_concept_value None no_fallback decimal_float "Revenue" filing None = float_of decimal_float fm.
Proof.
  apply (get_concept_value_latest None no_fallback decimal_float "Revenue" filing).
  rewrite filing_dated. discriminate.
Defined.

Lemma get_concept_value_exact_witness :
  get_concept_value None no_fallback decimal_float "Revenue" filing (Some 2020) = Some 95%float.
Proof.
  apply (get_concept_value_exact None no_fallback decimal_float "Revenue" filing 2020
           (revenue 2020 "95")).
  - rewrite filing_dated. reflexivity.
  - vm_compute. reflexivity.
Defined.

Lemma get_concept_value_nearest_witness :
  exists yn fn,
    In (yn, fn) (with_year (matches_of None no_fallback "Revenue" filing)) /\
    (forall y f, In (y, f) (with_year (matches_of None no_fallback "Revenue" filing)) ->
       Z.abs (yn - 2030) <= Z.abs (y - 2030)) /\
    List.head (List.filter (fun yf => Z.eqb (Z.abs (fst yf - 2030)) (Z.abs (yn - 2030)))
                 (with_year (matches_of None no_fallback "Revenue" filing))) = Some (yn, fn) /\
    match float_of decimal_float fn with
    | Some v => get_concept_value None no_fallback decimal_float "Revenue" filing (Some 2030) = Some v
    | None =>
        exists ym fm,
          In (ym, fm) (with_year (matches_of None no_fallback "Revenue" filing)) /\
          (forall y f, In (y, f) (with_year (matches_of None no_fallback "Revenue" filing)) -> y <= ym) /\
          get_concept_value None no_fallback decimal_float "Revenue" filing (Some 2030)
          = float_of decimal_float fm
    end.
Proof.
  apply (get_concept_value_nearest None no_fallback decimal_float "Revenue" filing 2030).
  - rewrite filing_dated. discriminate.
  - rewrite filing_dated. intros f [E|[E|[E|[E|[E|[]]]]]]; discriminate E.
Defined.

End FactExtractor.

(** ** [src/xbrl/fact_index.py] *)

Module FactIndex.

(** A naive [datetime]: calendar date and the microseconds since midnight.
    Python orders them lexicographically. *)
Record datetime := {
  dt_year : Z;
  dt_month : Z;
  dt_day : Z;
  dt_clock : Z;
}.

Definition dt_leb (a b : datetime) : bool :=
  match Z.compare (dt_year a) (dt_year b) with
  | Lt => true | Gt => false
  | Eq =>
  match Z.compare (dt_month a) (dt_month b) with
  | Lt => true | Gt => false
  | Eq =>
  match Z.compare (dt_day a) (dt_day b) with
  | Lt => true | Gt => false
  | Eq => Z.leb (dt_clock a) (dt_clock b)
  end end end.

Definition dt_eqb (a b : datetime) : bool :=
  Z.eqb (dt_year a) (dt_year b) && Z.eqb (dt_month a) (dt_month b)
  && Z.eqb (dt_day a) (dt_day b) && Z.eqb (dt_clock a) (dt_clock b).

(** [datetime.min] *)
Definition datetime_min : datetime :=
  {| dt_year := 1; dt_month := 1; dt_day := 1; dt_clock := 0 |}.

(** [date.toordinal()]: days since 0001-01-01, that day being 1 *)
Definition is_leap (y : Z) : bool :=
  (Z.eqb (y mod 4) 0 && negb (Z.eqb (y mod 100) 0)) || Z.eqb (y mod 400) 0.

Definition days_before_month (y m : Z) : Z :=
  nth (Z.to_nat (m - 1)) [0; 31; 59; 90; 120; 151; 181; 212; 243; 273; 304; 334] 0
  + (if Z.ltb 2 m && is_leap y then 1 else 0).

Definition toordinal (d : datetime) : Z :=
  let y := dt_year d - 1 in
  y * 365 + y / 4 - y / 100 + y / 400 + days_before_month (dt_year d) (dt_month d) + dt_day d.

(** [(end - start).days]: whole days, rounded down *)
Definition days_between (start end_ : datetime) : Z :=
  ((toordinal end_ * 86400000000 + dt_clock end_)
   - (toordinal start * 86400000000 + dt_clock start)) / 86400000000.

(** A context of [data["contexts"]]; a missing key and a [None] value are
    both [None]. *)
Record context := {
  period_type : option string;
  period_start : option string;
  period_end : option string;
  period_instant : option string;
}.

(** A fact of [data["all_facts"]].  [tag] is [fact.get("tag", "")]. *)
Record fact := {
  tag : string;
  contextRef : option string;
  context_ : option string;
  numeric_value : option float;
}.

(** [data["contexts"]]: the items of the [dict] in insertion order. *)
Definition contexts_t := list (string * context).

Fixpoint get_context (cid : string) (contexts : contexts_t) : option context :=
  match contexts with
  | [] => None
  | (k, ctx) :: rest => if String.eqb cid k then Some ctx else get_context cid rest
  end.

(** [s.replace("Z", "")] *)
Fixpoint remove_Z (s : string) : string :=
  match s with
  | EmptyString => EmptyString
  | String c s' => if Ascii.eqb c "Z"%char then remove_Z s' else String c (remove_Z s')
  end.

(** [int(text)] for a base-10 text: optional sign, digits, single
    underscores between digits, white space around; [None] for the
    [ValueError]. *)
Fixpoint int_digits (seen_digit after_underscore : bool) (acc : Z) (s : string) : option Z :=
  match s with
  | EmptyString => if seen_digit && negb after_underscore then Some acc else None
  | String c s' =>
      let n := Z.of_nat (nat_of_ascii c) in
      if (48 <=? n) && (n <=? 57) then int_digits true false (10 * acc + (n - 48)) s'
      else if Ascii.eqb c "_"%char
           then (if seen_digit && negb after_underscore then int_digits true true acc s'
                 else None)
           else None
  end.

Definition py_int (text : string) : option Z :=
  match PyStr.strip text with
  | String "-" body => option_map Z.opp (int_digits false false 0 body)
  | String "+" body => int_digits false false 0 body
  | body => int_digits false false 0 body
  end.

(** [(context.get("period_type") or "").lower()] *)
Definition period_type_lower (ctx : context) : string :=
  PyStr.lower (default EmptyString (period_type ctx)).

Definition is_duration (ctx : context) : bool :=
  String.eqb (period_type_lower ctx) "duration".

(** [_preferred_period_type(period_alias)] *)
Definition _preferred_period_type (period_alias : option string) : option string :=
  match period_alias with
  | None => None
  | Some a =>
      if PyStr.is_empty a then None
      else
        let alias := PyStr.upper a in
        if PyStr.startswith "FY" alias
           || PyStr.mem alias ["MRQ"; "Q1"; "Q2"; "Q3"; "Q4"]%string
        then Some "duration"%string
        else None
  end.

Section Index.

(** [_parse_date] after its two emptiness tests: [datetime.fromisoformat],
    then [strptime] with ["%Y-%m-%d"] and ["%Y%m%d"], on the cleaned text;
    [None] when all three fail. *)
Variable parse_clean : string -> option datetime.

(** [_parse_date(value)] *)
Definition _parse_date (value : option string) : option datetime :=
  match value with
  | None => None
  | Some v =>
      if PyStr.is_empty v then None
      else
        let clean := PyStr.strip (remove_Z v) in
        if PyStr.is_empty clean then None else parse_clean clean
  end.

(** [_context_end_date(context)] *)
Definition _context_end_date (ctx : context) : option datetime :=
  if String.eqb (period_type_lower ctx) "instant"
  then _parse_date (period_instant ctx)
  else match _parse_date (period_end ctx) with
       | Some d => Some d
       | None => _parse_date (period_instant ctx)
       end.

(** [_context_sort_date(context)] *)
Definition _context_sort_date (ctx : context) : option datetime :=
  match _context_end_date ctx with
  | Some d => Some d
  | None => _parse_date (period_start ctx)
  end.

(** [_context_duration_days(context)] *)
Definition _context_duration_days (ctx : context) : option Z :=
  match _parse_date (period_start ctx), _parse_date (period_end ctx) with
  | Some start, Some end_ => Some (days_between start end_)
  | _, _ => None
  end.

(** The sort key of [_sort_context_ids]:
    [_context_sort_date(contexts.get(cid)) or datetime.min].  Every caller
    passes ids of [contexts]; for another id Python raises. *)
Definition sort_key (contexts : contexts_t) (cid : string) : datetime :=
  match get_context cid contexts with
  | Some ctx => default datetime_min (_context_sort_date ctx)
  | None => datetime_min
  end.

(** [_sort_context_ids(context_ids, contexts)] *)
Definition _sort_context_ids (context_ids : list string) (contexts : contexts_t)
  : list string :=
  Py.sorted_reverse (fun a b => dt_leb (sort_key contexts a) (sort_key contexts b))
    context_ids.

(** The tuples [(date, length, cid)] of the [MRQ] branch and their order.
    Two tuples of the same date of which one has a length and the other has
    not cannot be ordered: Python raises [TypeError] when it compares them. *)
Definition duration_t : Type := datetime * option Z * string.

Definition unordered (a b : duration_t) : bool :=
  dt_eqb (fst (fst a)) (fst (fst b))
  && match snd (fst a), snd (fst b) with
     | Some _, None | None, Some _ => true
     | _, _ => false
     end.

Definition duration_leb (a b : duration_t) : bool :=
  if dt_eqb (fst (fst a)) (fst (fst b))
  then match snd (fst a), snd (fst b) with
       | Some la, Some lb =>
           if Z.eqb la lb then String.leb (snd a) (snd b) else Z.leb la lb
       | _, _ => String.leb (snd a) (snd b)
       end
  else dt_leb (fst (fst a)) (fst (fst b)).

(** [durations.sort(reverse=True)]; [None] when two tuples cannot be
    ordered (the call is then outside this model). *)
Definition sort_durations (durations : list duration_t) : option (list duration_t) :=
  if existsb (fun a => existsb (unordered a) durations) durations then None
  else Some (Py.sorted_reverse duration_leb durations).

Definition quarter_month (alias_upper : string) : option Z :=
  (if String.eqb alias_upper "Q1" then Some 3
   else if String.eqb alias_upper "Q2" then Some 6
   else if String.eqb alias_upper "Q3" then Some 9
   else if String.eqb alias_upper "Q4" then Some 12
   else None)%Z.

(** The duration contexts whose end date satisfies [keep], in the order of
    the mapping. *)
Definition duration_matches (keep : datetime -> bool) (contexts : contexts_t) : list string :=
  flat_map (fun item =>
              if is_duration (snd item)
              then match _context_end_date (snd item) with
                   | Some end_ => if keep end_ then [fst item] else []
                   | None => []
                   end
              else []) contexts.

(** [max(dates)]: the first greatest element *)
Definition max_date (first : datetime) (rest : list datetime) : datetime :=
  fold_left (fun m d => if dt_leb d m then m else d) rest first.

(** [FactIndex.resolve_period(period_alias)].  The result is [None] only
    where [sort_durations] is. *)
Definition resolve_period (contexts : contexts_t) (period_alias : option string)
  : option (list string) :=
  match contexts, period_alias with
  | [], _ | _, None => Some []
  | _, Some period_alias =>
  let alias := PyStr.strip period_alias in
  if PyStr.is_empty alias then Some [] else
  let alias_upper := PyStr.upper alias in
  if bool_decide (is_Some (get_context alias contexts)) then Some [alias]
  else if String.eqb alias_upper "LATEST" then
    let dated :=
      flat_map (fun item => match _context_sort_date (snd item) with
                            | Some d => [(fst item, d)]
                            | None => []
                            end) contexts in
    match dated with
    | [] => Some []
    | (_, d0) :: rest =>
        let m := max_date d0 (map snd rest) in
        Some (map fst (List.filter (fun cd => dt_eqb (snd cd) m) dated))
    end
  else if String.eqb alias_upper "MRQ" then
    let durations :=
      flat_map (fun item =>
                  if is_duration (snd item)
                  then match _context_sort_date (snd item) with
                       | Some date => [(date, _context_duration_days (snd item), fst item)]
                       | None => []
                       end
                  else []) contexts in
    match sort_durations durations with
    | None => None
    | Some durations =>
        let quarter_like :=
          flat_map (fun d => match snd (fst d) with
                             | Some length => if (70 <=? length) && (length <=? 120)
                                              then [snd d] else []
                             | None => []
                             end) durations in
        let targets := match quarter_like with [] => map snd durations | _ => quarter_like end in
        Some (_sort_context_ids targets contexts)
    end
  else match quarter_month alias_upper with
  | Some target_month =>
      Some (_sort_context_ids
              (duration_matches (fun end_ => Z.eqb (dt_month end_) target_month) contexts)
              contexts)
  | None =>
      if PyStr.startswith "FY" alias_upper then
        match py_int (PyStr.drop 2 alias_upper) with
        | Some year =>
            if Z.eqb year 0 then Some []
            else Some (_sort_context_ids
                         (duration_matches (fun end_ => Z.eqb (dt_year end_) year) contexts)
                         contexts)
        | None => Some []
        end
      else Some []
  end
  end.

(** The tuples the [MRQ] branch builds, and whether Python can sort them:
    no two of them have the same date while only one has a length. *)
Definition mrq_durations (contexts : contexts_t) : list duration_t :=
  flat_map (fun item =>
              if is_duration (snd item)
              then match _context_sort_date (snd item) with
                   | Some date => [(date, _context_duration_days (snd item), fst item)]
                   | None => []
                   end
              else []) contexts.

Definition orderable (durations : list duration_t) : bool :=
  negb (existsb (fun a => existsb (unordered a) durations) durations).

(** [FactIndex.get_facts_by_tag(tag_or_tags)], on the list [_coerce_tags]
    makes of its argument. *)
Definition get_facts_by_tag (facts : list fact) (tags : list string) : list fact :=
  let tags := map PyStr.lower tags in
  match tags with
  | [] => []
  | _ => List.filter (fun f => PyStr.mem (PyStr.lower (tag f)) tags) facts
  end.

(** The third component of the sort key: [-date.timestamp()], or
    [float("inf")] without a date.  Later dates come first, no date last. *)
Definition date_rank_leb (a b : option datetime) : bool :=
  match a, b with
  | Some da, Some db => dt_leb db da
  | Some _, None => true
  | None, Some _ => false
  | None, None => true
  end.

Definition date_rank_eqb (a b : option datetime) : bool :=
  match a, b with
  | Some da, Some db => dt_eqb da db
  | None, None => true
  | _, _ => false
  end.

Definition fact_key : Type := nat * nat * option datetime.

(** [fact.get("contextRef") or fact.get("context", "")] *)
Definition context_ref (f : fact) : option string :=
  match contextRef f with
  | Some r => if PyStr.is_empty r then context_ f else Some r
  | None => context_ f
  end.

(** [_fact_sort_key(fact, contexts, preferred_period_type)] *)
Definition _fact_sort_key (contexts : contexts_t) (preferred_period_type : option string)
    (f : fact) : fact_key :=
  let has_numeric := match numeric_value f with Some _ => true | None => false end in
  let ctx := match context_ref f with Some r => get_context r contexts | None => None end in
  let period_rank :=
    match preferred_period_type with
    | Some preferred =>
        if PyStr.is_empty preferred then 0%nat
        else match ctx with
             | Some c => if String.eqb (period_type_lower c) preferred then 0%nat else 1%nat
             | None => 1%nat
             end
    | None => 0%nat
    end in
  let date := match ctx with Some c => _context_sort_date c | None => None end in
  ((if has_numeric then 0%nat else 1%nat), period_rank, date).

(** Tuple comparison of two keys *)
Definition key_leb (a b : fact_key) : bool :=
  let '(n1, p1, d1) := a in
  let '(n2, p2, d2) := b in
  if Nat.eqb n1 n2
  then (if Nat.eqb p1 p2 then date_rank_leb d1 d2 else Nat.leb p1 p2)
  else Nat.leb n1 n2.

(** [x in allowed_contexts] for an optional string *)
Definition allowed (ids : list string) (r : option string) : bool :=
  match r with Some r => PyStr.mem r ids | None => false end.

(** [FactIndex.get_fact(tag_or_tags, period)].  The outer [None] is the
    one of [resolve_period]; the inner one is Python's [None]. *)
Definition get_fact (facts : list fact) (contexts : contexts_t) (tags : list string)
    (period : option string) : option (option fact) :=
  let rank candidates :=
    Py.first_item
      (Py.sorted (fun a b => key_leb (_fact_sort_key contexts (_preferred_period_type period) a)
                                     (_fact_sort_key contexts (_preferred_period_type period) b))
                 candidates) in
  match get_facts_by_tag facts tags with
  | [] => Some None
  | candidates =>
      if FactExtractor.nonempty period then
        match resolve_period contexts period with
        | None => None
        | Some [] => Some (rank candidates)
        | Some allowed_contexts =>
            match List.filter (fun f => allowed allowed_contexts (contextRef f)
                                        || allowed allowed_contexts (context_ f)) candidates with
            | [] => Some None
            | candidates => Some (rank candidates)
            end
        end
      else Some (rank candidates)
  end.

(** [get_numeric] and [get_latest] *)
Definition get_numeric (facts : list fact) (contexts : contexts_t) (tags : list string)
    (period : option string) : option (option float) :=
  option_map (fun r => match r with Some f => numeric_value f | None => None end)
    (get_fact facts contexts tags period).

Definition get_latest (facts : list fact) (contexts : contexts_t) (tags : list string)
  : option (option fact) :=
  get_fact facts contexts tags (Some "latest"%string).

(** The end date of the context an id names. *)
Definition end_date_of (contexts : contexts_t) (cid : string) : option datetime :=
  match get_context cid contexts with
  | Some ctx => _context_end_date ctx
  | None => None
  end.

(** The context an id names ends on [e]. *)
Definition ends_on (contexts : contexts_t) (e : datetime) (cid : string) : bool :=
  match end_date_of contexts cid with Some e' => dt_eqb e' e | None => false end.

(** *** Properties *)

Ltac dt_cases :=
  repeat match goal with
         | |- context [Z.compare ?x ?y] => destruct (Z.compare_spec x y)
         | H : context [Z.compare ?x ?y] |- _ => destruct (Z.compare_spec x y)
         end;
  try discriminate; try lia.

Lemma dt_leb_total (a b : datetime) : dt_leb a b = true \/ dt_leb b a = true.
Proof.
  unfold dt_leb. dt_cases; auto; rewrite !Z.leb_le; lia.
Qed.

Lemma dt_leb_refl (a : datetime) : dt_leb a a = true.
Proof. destruct (dt_leb_total a a); assumption. Qed.

Lemma dt_leb_trans (a b c : datetime) :
  dt_leb a b = true -> dt_leb b c = true -> dt_leb a c = true.
Proof.
  unfold dt_leb. intros Hab Hbc. dt_cases; auto; rewrite Z.leb_le in *; lia.
Qed.

Lemma dt_eqb_eq (a b : datetime) : dt_eqb a b = true <-> a = b.
Proof.
  unfold dt_eqb. rewrite !andb_true_iff, !Z.eqb_eq. split.
  - intros [[[? ?] ?] ?]. destruct a, b; simpl in *. congruence.
  - intros ->. auto.
Qed.

Lemma dt_leb_antisym (a b : datetime) : dt_leb a b = true -> dt_leb b a = true -> a = b.
Proof.
  intros Hab Hba. apply dt_eqb_eq. unfold dt_leb, dt_eqb in *.
  dt_cases; apply Z.leb_le in Hab, Hba;
    rewrite !andb_true_iff, !Z.eqb_eq; repeat split; lia.
Qed.

(** [_sort_context_ids] permutes its input, orders it newest first, and
    leaves ids of the same sort date in their input order. *)
Lemma _sort_context_ids_spec (context_ids : list string) (contexts : contexts_t) :
  Permutation (_sort_context_ids context_ids contexts) context_ids /\
  StronglySorted (fun a b => dt_leb (sort_key contexts b) (sort_key contexts a) = true)
    (_sort_context_ids context_ids contexts) /\
  (forall d, List.filter (fun cid => dt_eqb (sort_key contexts cid) d)
               (_sort_context_ids context_ids contexts)
             = List.filter (fun cid => dt_eqb (sort_key contexts cid) d) context_ids).
Proof.
  unfold _sort_context_ids, Py.sorted_reverse. split; [apply Py.sorted_perm|]. split.
  - apply (Py.sorted_sorted
             (fun a b => dt_leb (sort_key contexts b) (sort_key contexts a))).
    + intros a b. apply dt_leb_total.
    + intros a b c Hab Hbc. exact (dt_leb_trans _ _ _ Hbc Hab).
  - intros d. apply Py.sorted_stable.
    intros x y Hx Hy. apply dt_eqb_eq in Hx, Hy. rewrite Hx, Hy. apply dt_leb_refl.
Qed.

Lemma get_context_Some (cid : string) (ctx : context) (contexts : contexts_t) :
  get_context cid contexts = Some ctx -> In (cid, ctx) contexts.
Proof.
  induction contexts as [|[k c] rest IH]; simpl; [discriminate|].
  destruct (String.eqb_spec cid k) as [->|_].
  - intros E. inversion E; subst. now left.
  - intros E. right. auto.
Qed.

Lemma get_context_In (cid : string) (ctx : context) (contexts : contexts_t) :
  List.NoDup (map fst contexts) -> In (cid, ctx) contexts -> get_context cid contexts = Some ctx.
Proof.
  induction contexts as [|[k c] rest IH]; simpl; intros Hnd Hin; [contradiction|].
  inversion Hnd; subst. destruct Hin as [E|Hin].
  - inversion E; subst. now rewrite String.eqb_refl.
  - destruct (String.eqb_spec cid k) as [->|_]; [|auto].
    exfalso. apply H1. now apply (in_map fst) in Hin.
Qed.

(** A comprehension that keeps at most one entry per item, under the
    item's key, yields keys of the mapping and no key twice. *)
Lemma comprehension_keys {X Y : Type} (kx : X -> string) (ky : Y -> string)
    (f : X -> list Y) (l : list X) :
  (forall x y, In y (f x) -> ky y = kx x) ->
  (forall x, (length (f x) <= 1)%nat) ->
  (forall k, In k (map ky (flat_map f l)) -> In k (map kx l)) /\
  (List.NoDup (map kx l) -> List.NoDup (map ky (flat_map f l))).
Proof.
  intros Hkey Hone.
  assert (forall k, In k (map ky (flat_map f l)) -> In k (map kx l)) as Hsub.
  { intros k Hk. apply in_map_iff in Hk. destruct Hk as [y [<- Hy]].
    apply in_flat_map in Hy. destruct Hy as [x [Hx Hy]].
    rewrite (Hkey x y Hy). now apply in_map. }
  split; [exact Hsub|].
  clear Hsub. induction l as [|x l IH]; simpl; intros Hnd; [constructor|].
  inversion Hnd; subst. rewrite map_app.
  specialize (Hone x). pose proof (Hkey x) as Hk.
  destruct (f x) as [|y [|y' ys]]; simpl in *; [auto| |lia].
  constructor; [|auto]. rewrite (Hk y) by now left.
  intros Hin. apply H1. apply in_map_iff in Hin. destruct Hin as [y0 [E Hy0]].
  apply in_flat_map in Hy0. destruct Hy0 as [x0 [Hx0 Hy0]].
  rewrite (Hkey x0 y0 Hy0) in E. rewrite <- E. now apply in_map.
Qed.

Lemma NoDup_map_filter {X : Type} (k : X -> string) (P : X -> bool) (l : list X) :
  List.NoDup (map k l) -> List.NoDup (map k (List.filter P l)).
Proof.
  induction l as [|x l IH]; simpl; intros Hnd; [constructor|].
  inversion Hnd; subst. destruct (P x); simpl; [|auto].
  constructor; [|auto]. intros Hin. apply H1.
  apply in_map_iff in Hin. destruct Hin as [y [E Hy]].
  apply List.filter_In in Hy. rewrite <- E. apply in_map. tauto.
Qed.

Lemma _sort_context_ids_keys (ids : list string) (contexts : contexts_t) (keys : list string) :
  (forall cid, In cid ids -> In cid keys) -> List.NoDup ids ->
  (forall cid, In cid (_sort_context_ids ids contexts) -> In cid keys) /\
  List.NoDup (_sort_context_ids ids contexts).
Proof.
  intros Hsub Hnd. destruct (_sort_context_ids_spec ids contexts) as [Hperm _]. split.
  - intros cid Hin. apply Hsub. eapply Permutation_in; eassumption.
  - eapply Permutation_NoDup; [symmetry; exact Hperm|exact Hnd].
Qed.

Lemma duration_matches_keys (keep : datetime -> bool) (contexts : contexts_t) :
  (forall cid, In cid (duration_matches keep contexts) -> In cid (map fst contexts)) /\
  (List.NoDup (map fst contexts) -> List.NoDup (duration_matches keep contexts)).
Proof.
  unfold duration_matches.
  pose proof (comprehension_keys (X := string * context) (Y := string) fst (fun c => c)
    (fun item => if is_duration (snd item)
                 then match _context_end_date (snd item) with
                      | Some end_ => if keep end_ then [fst item] else []
                      | None => []
                      end
                 else []) contexts) as H.
  rewrite map_id in H. apply H.
  - intros x y. destruct (is_duration _); [|contradiction].
    destruct (_context_end_date _) as [e|]; [|contradiction].
    destruct (keep e); [|contradiction]. intros [<-|[]]. reflexivity.
  - intros x. destruct (is_duration _); simpl; [|lia].
    destruct (_context_end_date _) as [e|]; simpl; [|lia]. destruct (keep e); simpl; lia.
Qed.

(** Whatever the alias, the ids [resolve_period] returns are keys of the
    contexts mapping, each at most once. *)
Theorem resolve_period_keys (contexts : contexts_t) (period_alias : option string)
    (ids : list string) :
  List.NoDup (map fst contexts) ->
  resolve_period contexts period_alias = Some ids ->
  (forall cid, In cid ids -> In cid (map fst contexts)) /\ List.NoDup ids.
Proof.
  intros Hnd. unfold resolve_period.
  assert ((forall cid, In cid (@nil string) -> In cid (map fst contexts)) /\ List.NoDup (@nil string))
    as Hnil by (split; [intros ? []|constructor]).
  destruct contexts as [|c0 cs] eqn:Hc; [intros E; now inversion E; subst|].
  rewrite <- Hc in *. clear Hc c0 cs.
  destruct period_alias as [a|]; [|intros E; now inversion E; subst].
  destruct (PyStr.is_empty (PyStr.strip a)); [intros E; now inversion E; subst|].
  destruct (bool_decide (is_Some (get_context (PyStr.strip a) contexts))) eqn:Hkey.
  { intros E. inversion E; subst. apply bool_decide_eq_true in Hkey. destruct Hkey as [ctx Hctx].
    split.
    - intros cid [<-|[]]. apply get_context_Some in Hctx. now apply (in_map fst) in Hctx.
    - constructor; [intros []|constructor]. }
  destruct (String.eqb (PyStr.upper (PyStr.strip a)) "LATEST").
  { set (dated := flat_map _ contexts).
    assert ((forall k, In k (map fst dated) -> In k (map fst contexts)) /\
            List.NoDup (map fst dated)) as [Hsub Hdnd].
    { pose proof (comprehension_keys (X := string * context) (Y := string * datetime) fst fst
        (fun item => match _context_sort_date (snd item) with
                     | Some d => [(fst item, d)]
                     | None => []
                     end) contexts) as H.
      destruct H as [H1 H2].
      - intros x y. destruct (_context_sort_date _); [|contradiction]. now intros [<-|[]].
      - intros x. destruct (_context_sort_date _); simpl; lia.
      - split; [exact H1|now apply H2]. }
    destruct dated as [|[c d0] rest] eqn:Hd; [intros E; now inversion E; subst|].
    rewrite <- Hd in *. intros E. inversion E; subst. split.
    - intros cid Hin. apply Hsub. apply in_map_iff in Hin. destruct Hin as [x [<- Hx]].
      apply List.filter_In in Hx. apply in_map. tauto.
    - now apply NoDup_map_filter. }
  destruct (String.eqb (PyStr.upper (PyStr.strip a)) "MRQ").
  { set (durations := flat_map _ contexts).
    assert ((forall k, In k (map snd durations) -> In k (map fst contexts)) /\
            List.NoDup (map snd durations)) as [Hsub Hdnd].
    { pose proof (comprehension_keys (X := string * context) (Y := duration_t) fst snd
        (fun item => if is_duration (snd item)
                     then match _context_sort_date (snd item) with
                          | Some date => [(date, _context_duration_days (snd item), fst item)]
                          | None => []
                          end
                     else []) contexts) as H.
      destruct H as [H1 H2].
      - intros x y. destruct (is_duration _); [|contradiction].
        destruct (_context_sort_date _); [|contradiction]. now intros [<-|[]].
      - intros x. destruct (is_duration _); simpl; [|lia].
        destruct (_context_sort_date _); simpl; lia.
      - split; [exact H1|now apply H2]. }
    unfold sort_durations.
    destruct (existsb (fun a => existsb (unordered a) durations) durations); [discriminate|].
    set (sorted := Py.sorted_reverse duration_leb durations).
    assert (Permutation sorted durations) as Hperm by apply Py.sorted_perm.
    assert ((forall k, In k (map snd sorted) -> In k (map fst contexts)) /\
            List.NoDup (map snd sorted)) as [Hsub' Hsnd].
    { split.
      - intros k Hk. apply Hsub. eapply Permutation_in; [|exact Hk]. now apply Permutation_map.
      - eapply Permutation_NoDup; [|exact Hdnd]. apply Permutation_map. now symmetry. }
    set (quarter_like := @flat_map (datetime * option Z * string) string _ sorted).
    assert ((forall k, In k quarter_like -> In k (map snd sorted)) /\ List.NoDup quarter_like)
      as [Hqsub Hqnd].
    { pose proof (comprehension_keys (X := duration_t) (Y := string) snd (fun c => c)
        (fun d => match snd (fst d) with
                  | Some length => if (70 <=? length) && (length <=? 120) then [snd d] else []
                  | None => []
                  end) sorted) as H.
      rewrite map_id in H. destruct H as [H1 H2].
      - intros x y. destruct (snd (fst x)) as [n|]; [|contradiction].
        destruct ((70 <=? n) && (n <=? 120)); [|contradiction]. now intros [<-|[]].
      - intros x. destruct (snd (fst x)) as [n|]; simpl; [|lia].
        destruct ((70 <=? n) && (n <=? 120)); simpl; lia.
      - split; [exact H1|now apply H2]. }
    intros E. inversion E; subst. apply _sort_context_ids_keys.
    - destruct quarter_like; auto.
    - destruct quarter_like; auto. }
  destruct (quarter_month (PyStr.upper (PyStr.strip a))) as [m|].
  { intros E. inversion E; subst.
    destruct (duration_matches_keys (fun end_ => Z.eqb (dt_month end_) m) contexts) as [H1 H2].
    apply _sort_context_ids_keys; auto. }
  destruct (PyStr.startswith "FY" (PyStr.upper (PyStr.strip a))); [|intros E; now inversion E; subst].
  destruct (py_int _) as [year|]; [|intros E; now inversion E; subst].
  destruct (Z.eqb year 0); [intros E; now inversion E; subst|].
  intros E. inversion E; subst.
  destruct (duration_matches_keys (fun end_ => Z.eqb (dt_year end_) year) contexts) as [H1 H2].
  apply _sort_context_ids_keys; auto.
Qed.

(** The condition under which [duration_matches] keeps a context id. *)
Definition selected (keep : datetime -> bool) (contexts : contexts_t) (cid : string) : bool :=
  match get_context cid contexts with
  | Some ctx =>
      is_duration ctx
      && match _context_end_date ctx with Some e => keep e | None => false end
  | None => false
  end.

Lemma duration_matches_filter (keep : datetime -> bool) (contexts : contexts_t) :
  List.NoDup (map fst contexts) ->
  duration_matches keep contexts = List.filter (selected keep contexts) (map fst contexts).
Proof.
  intros Hnd.
  assert (forall l : contexts_t,
            (forall item, In item l -> get_context (fst item) contexts = Some (snd item)) ->
            duration_matches keep l = List.filter (selected keep contexts) (map fst l)) as H.
  { induction l as [|[k c] l IH]; intros Hl; [reflexivity|].
    unfold duration_matches in *. cbn [flat_map map List.filter fst snd].
    rewrite IH by (intros item Hi; apply Hl; now right).
    pose proof (Hl (k, c) (or_introl eq_refl)) as Hk. cbn [fst snd] in Hk.
    unfold selected at 2. rewrite Hk.
    destruct (is_duration c); [|reflexivity].
    destruct (_context_end_date c) as [e|]; [|reflexivity].
    destruct (keep e); reflexivity. }
  apply H. intros [k c] Hin. now apply get_context_In.
Qed.

Lemma selected_end_date keep contexts cid :
  selected keep contexts cid = true ->
  exists e, end_date_of contexts cid = Some e /\ keep e = true /\ sort_key contexts cid = e.
Proof.
  unfold selected, end_date_of, sort_key, _context_sort_date.
  destruct (get_context cid contexts) as [ctx|]; [|discriminate].
  destruct (is_duration ctx); [|discriminate].
  destruct (_context_end_date ctx) as [e|]; [|discriminate].
  intros Hk. exists e. auto.
Qed.

Lemma filter_twice {X : Type} (P Q : X -> bool) (l : list X) :
  List.filter P (List.filter Q l) = List.filter (fun x => P x && Q x) l.
Proof.
  induction l as [|x l IH]; simpl; [reflexivity|].
  destruct (Q x); simpl; rewrite IH; [|now rewrite andb_false_r].
  rewrite andb_true_r. reflexivity.
Qed.

Lemma StronglySorted_impl_In {X : Type} (R R' : X -> X -> Prop) (l : list X) :
  (forall a b, In a l -> In b l -> R a b -> R' a b) ->
  StronglySorted R l -> StronglySorted R' l.
Proof.
  intros H Hs. induction Hs as [|a l Hs IH Ha]; constructor.
  - apply IH. intros x y Hx Hy. apply H; now right.
  - rewrite List.Forall_forall in *. intros b Hb. apply H; [now left|now right|auto].
Qed.

(** The quarter and fiscal-year branches: among the duration contexts
    whose end date satisfies [keep], newest end date first, contexts of the
    same end date in the order of the mapping. *)
Lemma sorted_duration_matches (keep : datetime -> bool) (contexts : contexts_t) :
  List.NoDup (map fst contexts) ->
  let ids := _sort_context_ids (duration_matches keep contexts) contexts in
  (forall cid, In cid ids <->
     exists ctx e, In (cid, ctx) contexts /\ is_duration ctx = true /\
                   _context_end_date ctx = Some e /\ keep e = true) /\
  StronglySorted (fun a b => exists ea eb, end_date_of contexts a = Some ea /\
                               end_date_of contexts b = Some eb /\ dt_leb eb ea = true) ids /\
  (forall e, List.filter (fun cid => ends_on contexts e cid) ids
             = List.filter (fun cid => ends_on contexts e cid
                                       && selected keep contexts cid) (map fst contexts)).
Proof.
  intros Hnd ids. subst ids.
  destruct (_sort_context_ids_spec (duration_matches keep contexts) contexts)
    as [Hperm [Hsorted Hstable]].
  rewrite duration_matches_filter in * by assumption.
  set (ids := _sort_context_ids _ contexts) in *.
  assert (forall cid, In cid ids <-> In cid (map fst contexts) /\ selected keep contexts cid = true)
    as Hmem.
  { intros cid. rewrite <- List.filter_In. split; apply Permutation_in; [|symmetry]; exact Hperm. }
  split; [|split].
  - intros cid. rewrite Hmem. unfold selected. split.
    + intros [_ Hsel]. destruct (get_context cid contexts) as [ctx|] eqn:Hctx; [|discriminate].
      apply andb_true_iff in Hsel. destruct Hsel as [Hd Hk].
      destruct (_context_end_date ctx) as [e|] eqn:He; [|discriminate].
      exists ctx, e. auto using get_context_Some.
    + intros [ctx [e [Hin [Hd [He Hk]]]]]. split; [now apply (in_map fst) in Hin|].
      rewrite (get_context_In _ _ _ Hnd Hin), Hd, He. exact Hk.
  - eapply StronglySorted_impl_In; [|exact Hsorted].
    intros a b Ha Hb Hab. cbv beta in Hab.
    apply Hmem in Ha, Hb. destruct Ha as [_ Ha], Hb as [_ Hb].
    destruct (selected_end_date _ _ _ Ha) as [ea [Ea [_ Ka]]].
    destruct (selected_end_date _ _ _ Hb) as [eb [Eb [_ Kb]]].
    exists ea, eb. rewrite Ka, Kb in Hab. auto.
  - intros e.
    assert (forall l, (forall cid, In cid l -> selected keep contexts cid = true) ->
              List.filter (fun cid => ends_on contexts e cid) l
              = List.filter (fun cid => dt_eqb (sort_key contexts cid) e) l) as Hconv.
    { intros l Hl. apply List.filter_ext_in. intros cid Hin.
      destruct (selected_end_date _ _ _ (Hl cid Hin)) as [e' [E' [_ K']]].
      unfold ends_on. now rewrite E', K'. }
    rewrite Hconv by (intros cid Hin; now apply Hmem in Hin).
    rewrite Hstable.
    rewrite <- Hconv by (intros cid Hin; apply List.filter_In in Hin; tauto).
    apply filter_twice.
Qed.

Lemma quarter_month_cases (alias_upper : string) (m : Z) :
  quarter_month alias_upper = Some m ->
  PyStr.is_empty alias_upper = false /\
  String.eqb alias_upper "LATEST" = false /\ String.eqb alias_upper "MRQ" = false.
Proof.
  unfold quarter_month.
  destruct (String.eqb_spec alias_upper "Q1") as [->|_]; [now intros _|].
  destruct (String.eqb_spec alias_upper "Q2") as [->|_]; [now intros _|].
  destruct (String.eqb_spec alias_upper "Q3") as [->|_]; [now intros _|].
  destruct (String.eqb_spec alias_upper "Q4") as [->|_]; [now intros _|discriminate].
Qed.

Lemma upper_empty (s : string) : PyStr.is_empty (PyStr.upper s) = PyStr.is_empty s.
Proof. now destruct s. Qed.

Lemma startswith_FY (s : string) :
  PyStr.startswith "FY" s = true -> exists rest, s = String "F" (String "Y" rest).
Proof.
  unfold PyStr.startswith. destruct s as [|c1 [|c2 rest]]; cbn [String.prefix];
    try discriminate.
  - destruct (ascii_dec "F" c1); discriminate.
  - destruct (ascii_dec "F" c1) as [<-|]; [|discriminate].
    destruct (ascii_dec "Y" c2) as [<-|]; [|discriminate]. intros _. now exists rest.
Qed.

(** [Q1] to [Q4] on an alias that is not itself a context id: exactly the
    duration contexts whose end date falls in month 3, 6, 9 or 12, newest
    end date first; contexts that end on the same date keep the order of
    the contexts mapping (the start date plays no part). *)
Theorem resolve_period_quarter (contexts : contexts_t) (alias : string) (m : Z) :
  List.NoDup (map fst contexts) -> contexts <> [] ->
  get_context (PyStr.strip alias) contexts = None ->
  quarter_month (PyStr.upper (PyStr.strip alias)) = Some m ->
  exists ids,
    resolve_period contexts (Some alias) = Some ids /\
    (forall cid, In cid ids <->
       exists ctx e, In (cid, ctx) contexts /\ is_duration ctx = true /\
                     _context_end_date ctx = Some e /\ dt_month e = m) /\
    StronglySorted (fun a b => exists ea eb, end_date_of contexts a = Some ea /\
                                 end_date_of contexts b = Some eb /\ dt_leb eb ea = true) ids /\
    (forall e, List.filter (fun cid => ends_on contexts e cid) ids
               = List.filter (fun cid => ends_on contexts e cid
                                         && selected (fun d => Z.eqb (dt_month d) m) contexts cid)
                   (map fst contexts)).
Proof.
  intros Hnd Hne Hkey Hq.
  destruct (quarter_month_cases _ _ Hq) as [He [Hl Hm]]. rewrite upper_empty in He.
  destruct (sorted_duration_matches (fun d => Z.eqb (dt_month d) m) contexts Hnd)
    as [Hmem [Hsorted Hstable]].
  eexists. split; [|split; [|split; [exact Hsorted|exact Hstable]]].
  - unfold resolve_period. destruct contexts as [|c0 cs] eqn:Hc; [now elim Hne|].
    rewrite <- Hc in *. rewrite He, Hkey, Hl, Hm, Hq.
    rewrite bool_decide_eq_false_2 by (intros [? ?]; discriminate). reflexivity.
  - intros cid. rewrite Hmem. split; intros [ctx [e H]]; exists ctx, e;
      rewrite Z.eqb_eq in *; exact H.
Qed.

(** [FYnnnn] on an alias that is not itself a context id: exactly the
    duration contexts whose end date falls in year [nnnn], newest end date
    first; contexts that end on the same date keep the order of the
    contexts mapping. *)
Theorem resolve_period_fiscal_year (contexts : contexts_t) (alias : string) (year : Z) :
  List.NoDup (map fst contexts) -> contexts <> [] ->
  get_context (PyStr.strip alias) contexts = None ->
  PyStr.startswith "FY" (PyStr.upper (PyStr.strip alias)) = true ->
  py_int (PyStr.drop 2 (PyStr.upper (PyStr.strip alias))) = Some year -> year <> 0 ->
  exists ids,
    resolve_period contexts (Some alias) = Some ids /\
    (forall cid, In cid ids <->
       exists ctx e, In (cid, ctx) contexts /\ is_duration ctx = true /\
                     _context_end_date ctx = Some e /\ dt_year e = year) /\
    StronglySorted (fun a b => exists ea eb, end_date_of contexts a = Some ea /\
                                 end_date_of contexts b = Some eb /\ dt_leb eb ea = true) ids /\
    (forall e, List.filter (fun cid => ends_on contexts e cid) ids
               = List.filter (fun cid => ends_on contexts e cid
                                         && selected (fun d => Z.eqb (dt_year d) year) contexts cid)
                   (map fst contexts)).
Proof.
  intros Hnd Hne Hkey Hfy Hint Hyear.
  destruct (sorted_duration_matches (fun d => Z.eqb (dt_year d) year) contexts Hnd)
    as [Hmem [Hsorted Hstable]].
  eexists. split; [|split; [|split; [exact Hsorted|exact Hstable]]].
  - unfold resolve_period. destruct contexts as [|c0 cs] eqn:Hc; [now elim Hne|].
    rewrite <- Hc in *.
    assert (PyStr.is_empty (PyStr.strip alias) = false) as ->.
    { rewrite <- upper_empty. destruct (startswith_FY _ Hfy) as [rest ->]. reflexivity. }
    rewrite Hkey, bool_decide_eq_false_2 by (intros [? ?]; discriminate).
    rewrite Hfy, Hint. apply Z.eqb_neq in Hyear. rewrite Hyear.
    destruct (startswith_FY _ Hfy) as [rest ->]. reflexivity.
  - intros cid. rewrite Hmem. split; intros [ctx [e H]]; exists ctx, e;
      rewrite Z.eqb_eq in *; exact H.
Qed.

Lemma max_date_spec (first : datetime) (rest : list datetime) :
  In (max_date first rest) (first :: rest) /\
  forall d, In d (first :: rest) -> dt_leb d (max_date first rest) = true.
Proof.
  unfold max_date. revert first. induction rest as [|d rest IH]; intros first; simpl.
  - split; [now left|]. intros d [<-|[]]. apply dt_leb_refl.
  - destruct (IH (if dt_leb d first then first else d)) as [Hin Hmax]. split.
    + destruct Hin as [E|Hin]; [|now right; right].
      rewrite <- E. destruct (dt_leb d first); [now left|now right; left].
    + intros x Hx.
      assert (dt_leb first (if dt_leb d first then first else d) = true
              /\ dt_leb d (if dt_leb d first then first else d) = true) as [Hf Hd].
      { destruct (dt_leb d first) eqn:E; split; auto using dt_leb_refl.
        destruct (dt_leb_total d first); congruence. }
      destruct Hx as [<-|[<-|Hx]].
      * eapply dt_leb_trans; [exact Hf|]. apply Hmax. now left.
      * eapply dt_leb_trans; [exact Hd|]. apply Hmax. now left.
      * apply Hmax. now right.
Qed.

(** [LATEST] on an alias that is not itself a context id: exactly the
    contexts whose sort date is the greatest one, in the order of the
    contexts mapping; none when no context has a date. *)
Theorem resolve_period_latest (contexts : contexts_t) (alias : string) :
  contexts <> [] ->
  get_context (PyStr.strip alias) contexts = None ->
  PyStr.upper (PyStr.strip alias) = "LATEST"%string ->
  exists ids,
    resolve_period contexts (Some alias) = Some ids /\
    (forall cid, In cid ids <->
       exists ctx d, In (cid, ctx) contexts /\ _context_sort_date ctx = Some d /\
         forall cid' ctx' d', In (cid', ctx') contexts -> _context_sort_date ctx' = Some d' ->
                              dt_leb d' d = true) /\
    (exists P, ids = map fst (List.filter P contexts)).
Proof.
  intros Hne Hkey Hup.
  assert (PyStr.is_empty (PyStr.strip alias) = false) as He
    by (rewrite <- upper_empty, Hup; reflexivity).
  unfold resolve_period. destruct contexts as [|c0 cs] eqn:Hc; [now elim Hne|].
  rewrite <- Hc in *. clear Hc c0 cs Hne.
  rewrite He, Hkey, Hup, bool_decide_eq_false_2 by (intros [? ?]; discriminate).
  cbn [String.eqb Ascii.eqb Bool.eqb].
  set (dated := flat_map _ contexts).
  assert (forall cid d, In (cid, d) dated <->
            exists ctx, In (cid, ctx) contexts /\ _context_sort_date ctx = Some d) as Hdated.
  { intros cid d. unfold dated. rewrite in_flat_map. split.
    - intros [[k ctx] [Hin Hd]]. cbn [fst snd] in Hd.
      destruct (_context_sort_date ctx) as [d'|] eqn:E; [|contradiction].
      destruct Hd as [Hd|[]]. inversion Hd; subst. eauto.
    - intros [ctx [Hin Hd]]. exists (cid, ctx). split; [exact Hin|].
      cbn [fst snd]. rewrite Hd. now left. }
  assert (forall m, map fst (List.filter (fun cd : string * datetime => dt_eqb (snd cd) m) dated)
            = map fst (List.filter
                         (fun item : string * context =>
                            match _context_sort_date (snd item) with
                            | Some d => dt_eqb d m
                            | None => false
                            end) contexts)) as Horder.
  { intros m. unfold dated. clear. induction contexts as [|[k ctx] rest IH]; [reflexivity|].
    cbn [flat_map List.filter fst snd].
    destruct (_context_sort_date ctx) as [d|]; [|exact IH].
    cbn [app List.filter snd]. destruct (dt_eqb d m); cbn [map fst]; now rewrite IH. }
  destruct dated as [|[c d0] rest] eqn:Hd.
  - exists []. split; [reflexivity|]. split.
    + intros cid. split; [intros []|]. intros [ctx [d [Hin [Hsd _]]]].
      apply (Hdated cid d). eauto.
    + exists (fun _ => false). clear. induction contexts; simpl; auto.
  - rewrite <- Hd in *. eexists. split; [reflexivity|]. split.
    + destruct (max_date_spec d0 (map snd rest)) as [Hmin Hmax].
      set (m := max_date d0 (map snd rest)) in *.
      assert (forall d, In d (d0 :: map snd rest) <-> exists cid, In (cid, d) dated) as Hdates.
      { intros d. change (d0 :: map snd rest) with (map snd ((c, d0) :: rest)).
        rewrite <- Hd, in_map_iff. split.
        - intros [[cid d'] [E Hin]]. simpl in E. subst. eauto.
        - intros [cid Hin]. now exists (cid, d). }
      intros cid. rewrite in_map_iff. split.
      * intros [[cid' d] [E Hin]]. simpl in E. subst cid'.
        apply List.filter_In in Hin. destruct Hin as [Hin Hm]. simpl in Hm.
        apply dt_eqb_eq in Hm. subst d.
        apply Hdated in Hin. destruct Hin as [ctx [Hin Hsd]].
        exists ctx, m. split; [exact Hin|]. split; [exact Hsd|].
        intros cid' ctx' d' Hin' Hsd'. apply Hmax, Hdates. exists cid'. apply Hdated. eauto.
      * intros [ctx [d [Hin [Hsd Hgreatest]]]]. exists (cid, d). split; [reflexivity|].
        apply List.filter_In. split; [apply Hdated; eauto|]. simpl. apply dt_eqb_eq.
        apply dt_leb_antisym.
        -- apply Hmax, Hdates. exists cid. apply Hdated. eauto.
        -- apply Hdates in Hmin. destruct Hmin as [cid' Hin'].
           apply Hdated in Hin'. destruct Hin' as [ctx' [Hin' Hsd']]. eauto.
    + eexists. apply Horder.
Qed.

(** An alias that is the id of a context resolves to that context alone,
    also when it spells [LATEST], [MRQ], a quarter or a fiscal year. *)
Theorem resolve_period_own_id (contexts : contexts_t) (alias : string) (ctx : context) :
  PyStr.is_empty (PyStr.strip alias) = false ->
  get_context (PyStr.strip alias) contexts = Some ctx ->
  resolve_period contexts (Some alias) = Some [PyStr.strip alias].
Proof.
  intros He Hkey. unfold resolve_period.
  destruct contexts as [|c0 cs] eqn:Hc; [discriminate|]. rewrite <- Hc in *.
  rewrite He, Hkey. now rewrite bool_decide_eq_true_2 by eauto.
Qed.

(** What the [MRQ] branch returns, when it returns. *)
Lemma resolve_period_mrq_ids (contexts : contexts_t) (alias : string) (ids : list string) :
  contexts <> [] ->
  get_context (PyStr.strip alias) contexts = None ->
  PyStr.upper (PyStr.strip alias) = "MRQ"%string ->
  resolve_period contexts (Some alias) = Some ids ->
  let dated_duration cid d ctx :=
    In (cid, ctx) contexts /\ is_duration ctx = true /\ _context_sort_date ctx = Some d in
  let quarter_like cid :=
    exists d ctx n, dated_duration cid d ctx /\ _context_duration_days ctx = Some n /\
                    70 <= n <= 120 in
  StronglySorted (fun a b => dt_leb (sort_key contexts b) (sort_key contexts a) = true) ids /\
  ((exists cid, quarter_like cid) -> forall cid, In cid ids <-> quarter_like cid) /\
  ((forall cid, ~ quarter_like cid) ->
   forall cid, In cid ids <-> exists d ctx, dated_duration cid d ctx).
Proof.
  intros Hne Hkey Hup. cbv zeta.
  assert (PyStr.is_empty (PyStr.strip alias) = false) as He
    by (rewrite <- upper_empty, Hup; reflexivity).
  unfold resolve_period. destruct contexts as [|c0 cs] eqn:Hc; [now elim Hne|].
  rewrite <- Hc in *. clear Hc c0 cs Hne.
  rewrite He, Hkey, Hup, bool_decide_eq_false_2 by (intros [? ?]; discriminate).
  cbn [String.eqb Ascii.eqb Bool.eqb].
  set (durations := flat_map _ contexts).
  assert (forall d n cid, In (d, n, cid) durations <->
            exists ctx, In (cid, ctx) contexts /\ is_duration ctx = true /\
                        _context_sort_date ctx = Some d /\ _context_duration_days ctx = n)
    as Hdur.
  { intros d n cid. unfold durations. rewrite in_flat_map. split.
    - intros [[k ctx] [Hin Hd]]. cbn [fst snd] in Hd.
      destruct (is_duration ctx) eqn:Ed; [|contradiction].
      destruct (_context_sort_date ctx) as [d'|] eqn:E; [|contradiction].
      destruct Hd as [Hd|[]]. inversion Hd; subst. eauto.
    - intros [ctx [Hin [Ed [Hd Hn]]]]. exists (cid, ctx). split; [exact Hin|].
      cbn [fst snd]. rewrite Ed, Hd, Hn. now left. }
  unfold sort_durations.
  destruct (existsb (fun a => existsb (unordered a) durations) durations); [discriminate|].
  set (sorted := Py.sorted_reverse duration_leb durations).
  assert (forall x, In x sorted <-> In x durations) as Hsorted by (intros x; apply Py.sorted_In).
  set (quarter_like := @flat_map (datetime * option Z * string) string _ sorted).
  assert (forall cid, In cid quarter_like <->
            exists d n, In (d, Some n, cid) durations /\ 70 <= n <= 120) as Hq.
  { intros cid. unfold quarter_like. rewrite in_flat_map. split.
    - intros [[[d n] k] [Hin Hk]]. cbn [fst snd] in Hk.
      destruct n as [n|]; [|contradiction].
      destruct ((70 <=? n) && (n <=? 120)) eqn:E; [|contradiction].
      destruct Hk as [<-|[]]. apply andb_true_iff in E. rewrite !Z.leb_le in E.
      exists d, n. split; [now apply Hsorted|lia].
    - intros [d [n [Hin Hn]]]. exists (d, Some n, cid). split; [now apply Hsorted|].
      cbn [fst snd]. assert ((70 <=? n) && (n <=? 120) = true) as ->
        by (apply andb_true_iff; rewrite !Z.leb_le; lia).
      now left. }
  intros E. inversion E as [Hids]. clear E.
  destruct (_sort_context_ids_spec
              match quarter_like with [] => map snd sorted | _ :: _ => quarter_like end contexts)
    as [Hperm [Hs _]].
  split; [exact Hs|].
  assert (forall cid, In cid (_sort_context_ids
                                match quarter_like with [] => map snd sorted | _ :: _ => quarter_like end
                                contexts)
                      <-> In cid match quarter_like with [] => map snd sorted | _ :: _ => quarter_like end)
    as Hmem by (intros cid; split; apply Permutation_in; [|symmetry]; exact Hperm).
  split.
  - intros [cid0 [d0 [ctx0 [n0 [[Hin0 [Ed0 Hd0]] [Hn0 Hr0]]]]]] cid. rewrite Hmem.
    assert (In cid0 quarter_like) as Hq0.
    { apply Hq. exists d0, n0. split; [|exact Hr0]. apply Hdur. eauto. }
    destruct quarter_like as [|q qs] eqn:Eq; [contradiction|]. rewrite <- Eq in *.
    rewrite Hq. split.
    + intros [d [n [Hin Hn]]]. apply Hdur in Hin. destruct Hin as [ctx [Hin [Ed [Hd Hdd]]]].
      exists d, ctx, n. auto.
    + intros [d [ctx [n [[Hin [Ed Hd]] [Hn Hr]]]]]. exists d, n. split; [|exact Hr].
      apply Hdur. eauto.
  - intros Hnone cid. rewrite Hmem.
    destruct quarter_like as [|q qs] eqn:Eq.
    + rewrite in_map_iff. split.
      * intros [[[d n] k] [Ek Hin]]. simpl in Ek. subst k.
        apply Hsorted, Hdur in Hin. destruct Hin as [ctx [Hin [Ed [Hd _]]]]. eauto.
      * intros [d [ctx [Hin [Ed Hd]]]]. exists (d, _context_duration_days ctx, cid).
        split; [reflexivity|]. apply Hsorted, Hdur. eauto.
    + exfalso. assert (In q (q :: qs)) as Hin by now left.
      apply Hq in Hin. destruct Hin as [d [n [Hin Hr]]]. apply Hdur in Hin.
      destruct Hin as [ctx [Hin [Ed [Hd Hn]]]]. apply (Hnone q). exists d, ctx, n. auto.
Qed.

(** [MRQ] on an alias that is not itself a context id.  When no two dated
    duration contexts share a sort date while only one of them has a length
    in days (Python cannot order such tuples and may raise [TypeError]),
    [resolve_period] returns: the dated duration contexts of 70 to 120 days
    if there is one, all dated duration contexts otherwise; newest sort
    date first. *)
Theorem resolve_period_mrq (contexts : contexts_t) (alias : string) :
  contexts <> [] ->
  get_context (PyStr.strip alias) contexts = None ->
  PyStr.upper (PyStr.strip alias) = "MRQ"%string ->
  orderable (mrq_durations contexts) = true ->
  exists ids,
    resolve_period contexts (Some alias) = Some ids /\
    let dated_duration cid d ctx :=
      In (cid, ctx) contexts /\ is_duration ctx = true /\ _context_sort_date ctx = Some d in
    let quarter_like cid :=
      exists d ctx n, dated_duration cid d ctx /\ _context_duration_days ctx = Some n /\
                      70 <= n <= 120 in
    StronglySorted (fun a b => dt_leb (sort_key contexts b) (sort_key contexts a) = true) ids /\
    ((exists cid, quarter_like cid) -> forall cid, In cid ids <-> quarter_like cid) /\
    ((forall cid, ~ quarter_like cid) ->
     forall cid, In cid ids <-> exists d ctx, dated_duration cid d ctx).
Proof.
  intros Hne Hkey Hup Hord.
  assert (exists ids, resolve_period contexts (Some alias) = Some ids) as [ids Hres].
  { assert (PyStr.is_empty (PyStr.strip alias) = false) as He
      by (rewrite <- upper_empty, Hup; reflexivity).
    unfold resolve_period. destruct contexts as [|c0 cs] eqn:Hc; [now elim Hne|].
    rewrite <- Hc in *. clear Hc c0 cs Hne.
    rewrite He, Hkey, Hup, bool_decide_eq_false_2 by (intros [? ?]; discriminate).
    cbn [String.eqb Ascii.eqb Bool.eqb].
    fold (mrq_durations contexts). unfold sort_durations.
    unfold orderable in Hord. apply negb_true_iff in Hord. rewrite Hord.
    eexists. reflexivity. }
  exists ids. split; [exact Hres|].
  exact (resolve_period_mrq_ids contexts alias ids Hne Hkey Hup Hres).
Qed.

Lemma date_rank_leb_total (a b : option datetime) :
  date_rank_leb a b = true \/ date_rank_leb b a = true.
Proof. destruct a, b; simpl; auto using dt_leb_total. Qed.

Lemma date_rank_leb_trans (a b c : option datetime) :
  date_rank_leb a b = true -> date_rank_leb b c = true -> date_rank_leb a c = true.
Proof.
  destruct a, b, c; simpl; try discriminate; auto.
  intros H1 H2. exact (dt_leb_trans _ _ _ H2 H1).
Qed.

Lemma key_leb_total (a b : fact_key) : key_leb a b = true \/ key_leb b a = true.
Proof.
  destruct a as [[n1 p1] d1], b as [[n2 p2] d2]. unfold key_leb.
  rewrite (Nat.eqb_sym n2 n1), (Nat.eqb_sym p2 p1).
  destruct (Nat.eqb_spec n1 n2); [|rewrite !Nat.leb_le; lia].
  destruct (Nat.eqb_spec p1 p2); [|rewrite !Nat.leb_le; lia].
  apply date_rank_leb_total.
Qed.

Lemma key_leb_trans (a b c : fact_key) :
  key_leb a b = true -> key_leb b c = true -> key_leb a c = true.
Proof.
  destruct a as [[n1 p1] d1], b as [[n2 p2] d2], c as [[n3 p3] d3]. unfold key_leb.
  destruct (Nat.eqb_spec n1 n2), (Nat.eqb_spec n2 n3), (Nat.eqb_spec n1 n3);
    rewrite ?Nat.leb_le; try lia;
    destruct (Nat.eqb_spec p1 p2), (Nat.eqb_spec p2 p3), (Nat.eqb_spec p1 p3);
    rewrite ?Nat.leb_le; try lia.
  apply date_rank_leb_trans.
Qed.

(** A fact that may be returned: its tag is requested and, when the
    period resolved to context ids, it refers to one of them. *)
Definition eligible (facts : list fact) (tags ids : list string) (g : fact) : Prop :=
  In g (get_facts_by_tag facts tags) /\
  (ids = [] \/ allowed ids (contextRef g) || allowed ids (context_ g) = true).

Lemma rank_spec (contexts : contexts_t) (preferred : option string) (candidates : list fact) :
  match Py.first_item
          (Py.sorted (fun a b => key_leb (_fact_sort_key contexts preferred a)
                                         (_fact_sort_key contexts preferred b)) candidates) with
  | Some f =>
      In f candidates /\
      forall g, In g candidates ->
        key_leb (_fact_sort_key contexts preferred f) (_fact_sort_key contexts preferred g) = true
  | None => candidates = []
  end.
Proof.
  set (le := fun a b => key_leb (_fact_sort_key contexts preferred a)
                                (_fact_sort_key contexts preferred b)).
  destruct (Py.first_item (Py.sorted le candidates)) as [f|] eqn:E.
  - apply (Py.sorted_head_least le); [| |exact E].
    + intros a b. apply key_leb_total.
    + intros a b c. apply key_leb_trans.
  - destruct candidates as [|c cs]; [reflexivity|].
    destruct (Py.sorted le (c :: cs)) eqn:Es; [|discriminate].
    exfalso. apply (f_equal (@length fact)) in Es. rewrite Py.sorted_length in Es. discriminate.
Qed.

(** The result is an eligible fact that no other eligible fact precedes
    in the ranking, and [None] only when no fact is eligible. *)
Lemma get_fact_minimal (facts : list fact) (contexts : contexts_t) (tags : list string)
    (period : option string) (ids : list string) :
  (if FactExtractor.nonempty period then resolve_period contexts period = Some ids
   else ids = []) ->
  match get_fact facts contexts tags period with
  | Some (Some f) =>
      eligible facts tags ids f /\
      forall g, eligible facts tags ids g ->
        key_leb (_fact_sort_key contexts (_preferred_period_type period) f)
                (_fact_sort_key contexts (_preferred_period_type period) g) = true
  | Some None => forall g, ~ eligible facts tags ids g
  | None => False
  end.
Proof.
  intros Hids. unfold get_fact, eligible.
  destruct (get_facts_by_tag facts tags) as [|c cs] eqn:Hc.
  { intros g [[] _]. }
  rewrite <- Hc in *.
  assert (match Py.first_item
                  (Py.sorted (fun a b => key_leb (_fact_sort_key contexts (_preferred_period_type period) a)
                                                 (_fact_sort_key contexts (_preferred_period_type period) b))
                             (get_facts_by_tag facts tags)) with
          | Some f => (In f (get_facts_by_tag facts tags) /\ (@nil string = [] \/ False)) /\
                      forall g, In g (get_facts_by_tag facts tags) /\ (@nil string = [] \/ False) ->
                        key_leb (_fact_sort_key contexts (_preferred_period_type period) f)
                                (_fact_sort_key contexts (_preferred_period_type period) g) = true
          | None => forall g, ~ (In g (get_facts_by_tag facts tags) /\ (@nil string = [] \/ False))
          end) as Hall.
  { pose proof (rank_spec contexts (_preferred_period_type period) (get_facts_by_tag facts tags)) as H.
    destruct (Py.first_item _) as [f|].
    - destruct H as [Hin Hmin]. split; [auto|]. intros g [Hg _]. auto.
    - rewrite H in Hc. discriminate. }
  destruct (FactExtractor.nonempty period).
  - rewrite Hids. destruct ids as [|i ids'].
    + destruct (Py.first_item _) as [f|].
      * destruct Hall as [[Hin _] Hmin]. split; [auto|]. intros g [Hg _]. apply Hmin. auto.
      * intros g [Hg _]. apply (Hall g). auto.
    + set (ids := i :: ids') in *.
      destruct (List.filter _ (get_facts_by_tag facts tags)) as [|c' cs'] eqn:Hf.
      * intros g [Hg [E|Ha]]; [discriminate|].
        assert (In g (List.filter (fun f => allowed ids (contextRef f) || allowed ids (context_ f))
                        (get_facts_by_tag facts tags))) as Hin
          by (apply List.filter_In; auto).
        rewrite Hf in Hin. contradiction.
      * rewrite <- Hf. clear Hall.
        pose proof (rank_spec contexts (_preferred_period_type period)
                      (List.filter (fun f => allowed ids (contextRef f) || allowed ids (context_ f))
                         (get_facts_by_tag facts tags))) as H.
        destruct (Py.first_item _) as [f|].
        -- destruct H as [Hin Hmin]. apply List.filter_In in Hin. split; [tauto|].
           intros g [Hg [E|Ha]]; [discriminate|]. apply Hmin. apply List.filter_In. auto.
        -- rewrite H in Hf. discriminate.
  - subst ids. destruct (Py.first_item _) as [f|].
    + destruct Hall as [[Hin _] Hmin]. split; [auto|]. intros g [Hg _]. apply Hmin. auto.
    + intros g [Hg _]. apply (Hall g). auto.
Qed.

(** The facts [get_fact] ranks, in the order of [all_facts]. *)
Definition eligible_list (facts : list fact) (tags ids : list string) : list fact :=
  List.filter (fun g => match ids with
                        | [] => true
                        | _ => allowed ids (contextRef g) || allowed ids (context_ g)
                        end) (get_facts_by_tag facts tags).

(** Two facts with equal sort keys. *)
Definition tied (contexts : contexts_t) (preferred : option string) (f g : fact) : bool :=
  key_leb (_fact_sort_key contexts preferred f) (_fact_sort_key contexts preferred g)
  && key_leb (_fact_sort_key contexts preferred g) (_fact_sort_key contexts preferred f).

Lemma filter_all {X : Type} (l : list X) : List.filter (fun _ => true) l = l.
Proof. induction l as [|x l IH]; simpl; congruence. Qed.

(** What [get_fact] returns.  [ids] is what the period resolved to (no
    ids when no period is given).  The result is one of the facts with a
    requested tag that refer to one of [ids] (any such fact when [ids] is
    empty); no other such fact has a smaller sort key; among those with
    the same key it is the first of [all_facts]; and it is [None] only
    when there is no such fact. *)
Theorem get_fact_ranked (facts : list fact) (contexts : contexts_t) (tags : list string)
    (period : option string) (ids : list string) :
  (if FactExtractor.nonempty period then resolve_period contexts period = Some ids
   else ids = []) ->
  match get_fact facts contexts tags period with
  | Some (Some f) =>
      In f (eligible_list facts tags ids) /\
      (forall g, In g (eligible_list facts tags ids) ->
         key_leb (_fact_sort_key contexts (_preferred_period_type period) f)
                 (_fact_sort_key contexts (_preferred_period_type period) g) = true) /\
      List.head (List.filter (tied contexts (_preferred_period_type period) f)
                   (eligible_list facts tags ids)) = Some f
  | Some None => eligible_list facts tags ids = []
  | None => False
  end.
Proof.
  intros Hids.
  set (le := fun a b => key_leb (_fact_sort_key contexts (_preferred_period_type period) a)
                                (_fact_sort_key contexts (_preferred_period_type period) b)).
  assert (get_fact facts contexts tags period
          = Some (Py.first_item (Py.sorted le (eligible_list facts tags ids)))) as ->.
  { unfold get_fact, eligible_list. fold le.
    destruct (get_facts_by_tag facts tags) as [|c cs] eqn:Hc; [reflexivity|].
    rewrite <- Hc. destruct (FactExtractor.nonempty period).
    - rewrite Hids. destruct ids as [|i ids']; [now rewrite filter_all|].
      destruct (List.filter _ (get_facts_by_tag facts tags)); reflexivity.
    - subst ids. now rewrite filter_all. }
  pose proof (rank_spec contexts (_preferred_period_type period) (eligible_list facts tags ids))
    as Hrank. fold le in Hrank.
  destruct (Py.first_item (Py.sorted le (eligible_list facts tags ids))) as [f|] eqn:Hfirst;
    [|exact Hrank].
  destruct Hrank as [Hin Hmin]. split; [exact Hin|]. split; [exact Hmin|].
  rewrite <- (Py.sorted_stable le (tied contexts (_preferred_period_type period) f)).
  - destruct (Py.sorted le (eligible_list facts tags ids)) as [|x xs]; [discriminate|].
    simpl in Hfirst. inversion Hfirst; subst x. simpl.
    unfold tied at 1. destruct (key_leb_total (_fact_sort_key contexts (_preferred_period_type period) f)
                                  (_fact_sort_key contexts (_preferred_period_type period) f)) as [E|E];
      rewrite E; reflexivity.
  - intros x y Hx Hy. unfold tied in Hx, Hy. apply andb_true_iff in Hx, Hy.
    destruct Hx as [_ Hx], Hy as [Hy _]. unfold le. eapply key_leb_trans; eassumption.
Qed.

(** The period filter of [get_fact].  An alias that resolves to no context
    id does not filter: the lookup fails only when no fact has a requested
    tag.  An alias that resolves to context ids fails exactly when no such
    fact refers to one of them. *)
Theorem get_fact_period_filter (facts : list fact) (contexts : contexts_t)
    (tags : list string) (period : string) (ids : list string) :
  PyStr.is_empty period = false ->
  resolve_period contexts (Some period) = Some ids ->
  (ids = [] ->
     (get_fact facts contexts tags (Some period) = Some None <->
      get_facts_by_tag facts tags = [])) /\
  (ids <> [] ->
     (get_fact facts contexts tags (Some period) = Some None <->
      forall g, In g (get_facts_by_tag facts tags) ->
                allowed ids (contextRef g) || allowed ids (context_ g) = false)).
Proof.
  intros Hne Hres.
  pose proof (get_fact_minimal facts contexts tags (Some period) ids) as H.
  cbn [FactExtractor.nonempty] in H. rewrite Hne in H. specialize (H Hres).
  unfold eligible in H. split.
  - intros ->. destruct (get_fact facts contexts tags (Some period)) as [[f|]|]; [| |contradiction].
    + destruct H as [[Hin _] _]. split; [discriminate|].
      intros E. rewrite E in Hin. contradiction.
    + split; [|reflexivity]. intros _.
      destruct (get_facts_by_tag facts tags) as [|g gs]; [reflexivity|].
      exfalso. apply (H g). split; [now left|now left].
  - intros Hids.
    destruct (get_fact facts contexts tags (Some period)) as [[f|]|]; [| |contradiction].
    + destruct H as [[Hin [E|Ha]] _]; [contradiction|]. split; [discriminate|].
      intros Hall. rewrite (Hall f Hin) in Ha. discriminate.
    + split; [|reflexivity]. intros _ g Hg.
      destruct (allowed ids (contextRef g) || allowed ids (context_ g)) eqn:E; [|reflexivity].
      exfalso. apply (H g). auto.
Qed.

(** Numeric facts come first: when an eligible fact has a numeric value,
    so has the returned one. *)
Theorem get_fact_numeric_first (facts : list fact) (contexts : contexts_t)
    (tags : list string) (period : option string) (ids : list string) (f g : fact) :
  (if FactExtractor.nonempty period then resolve_period contexts period = Some ids
   else ids = []) ->
  get_fact facts contexts tags period = Some (Some f) ->
  eligible facts tags ids g -> is_Some (numeric_value g) -> is_Some (numeric_value f).
Proof.
  intros Hids Hres Hg [v Hv].
  pose proof (get_fact_minimal facts contexts tags period ids Hids) as H.
  rewrite Hres in H. destruct H as [_ Hmin]. specialize (Hmin g Hg).
  unfold _fact_sort_key, key_leb in Hmin. rewrite Hv in Hmin.
  destruct (numeric_value f); [eauto|]. simpl in Hmin. discriminate.
Qed.

End Index.

(** *** The functions on a small filing *)

Local Open Scope string_scope.

(** [_parse_date] on the texts [YYYY-MM-DD] of a valid calendar date;
    [datetime.fromisoformat] accepts more (a time of day, an offset). *)
Definition days_in_month (y m : Z) : Z :=
  (if m =? 2 then (if is_leap y then 29 else 28)
   else if (m =? 4) || (m =? 6) || (m =? 9) || (m =? 11) then 30 else 31)%Z.

Definition iso_date (text : string) : option datetime :=
  if Nat.eqb (String.length text) 10
     && String.eqb (String.substring 4 1 text) "-"
     && String.eqb (String.substring 7 1 text) "-"
  then
    match FactExtractor.digits 0%Z (String.substring 0 4 text),
          FactExtractor.digits 0%Z (String.substring 5 2 text),
          FactExtractor.digits 0%Z (String.substring 8 2 text) with
    | Some y, Some m, Some d =>
        if ((1 <=? y) && (1 <=? m) && (m <=? 12) && (1 <=? d) && (d <=? days_in_month y m))%Z
        then Some {| dt_year := y; dt_month := m; dt_day := d; dt_clock := 0%Z |}
        else None
    | _, _, _ => None
    end
  else None.

Definition duration (start end_ : string) : context :=
  {| period_type := Some "duration"; period_start := Some start;
     period_end := Some end_; period_instant := None |}.

Definition instant (day : string) : context :=
  {| period_type := Some "instant"; period_start := None;
     period_end := None; period_instant := Some day |}.

Definition filing_contexts : contexts_t :=
  [ ("FY24", duration "2024-01-01" "2024-12-31");
    ("Q1_24", duration "2024-01-01" "2024-03-31");
    ("Feb_Mar_24", duration "2024-02-01" "2024-03-31");
    ("End_24", instant "2024-12-31");
    ("FY23", duration "2023-01-01" "2023-12-31Z") ].

Definition filing_facts : list fact :=
  [ {| tag := "us-gaap:Revenues"; contextRef := Some "Q1_24"; context_ := None;
       numeric_value := None |};
    {| tag := "us-gaap:Revenues"; contextRef := Some "FY23"; context_ := None;
       numeric_value := Some 90%float |};
    {| tag := "US-GAAP:REVENUES"; contextRef := None; context_ := Some "FY24";
       numeric_value := Some 100%float |};
    {| tag := "us-gaap:Assets"; contextRef := Some "End_24"; context_ := None;
       numeric_value := Some 500%float |} ].

Example filing_periods :
  resolve_period iso_date filing_contexts (Some " q1 ") = Some ["Q1_24"; "Feb_Mar_24"] /\
  resolve_period iso_date (rev filing_contexts) (Some "Q1") = Some ["Feb_Mar_24"; "Q1_24"] /\
  resolve_period iso_date filing_contexts (Some "fy2024") = Some ["FY24"; "Q1_24"; "Feb_Mar_24"] /\
  resolve_period iso_date filing_contexts (Some "latest") = Some ["FY24"; "End_24"] /\
  resolve_period iso_date filing_contexts (Some "MRQ") = Some ["Q1_24"] /\
  resolve_period iso_date filing_contexts (Some "FY24") = Some ["FY24"] /\
  resolve_period iso_date filing_contexts (Some "FY2030") = Some [] /\
  resolve_period iso_date filing_contexts (Some "FYI") = Some [] /\
  resolve_period iso_date filing_contexts (Some "last year") = Some [].
Proof. vm_compute. repeat split. Qed.

Example filing_lookups :
  option_map (option_map contextRef)
    (get_fact iso_date filing_facts filing_contexts ["us-gaap:revenues"] None)
    = Some (Some None) /\
  option_map (option_map contextRef)
    (get_fact iso_date filing_facts filing_contexts ["us-gaap:revenues"] (Some "FY2023"))
    = Some (Some (Some "FY23")) /\
  get_fact iso_date filing_facts filing_contexts ["us-gaap:revenues"] (Some "End_24")
    = Some None /\
  option_map (option_map context_)
    (get_fact iso_date filing_facts filing_contexts ["us-gaap:revenues"] (Some "FY2030"))
    = Some (Some (Some "FY24")) /\
  get_fact iso_date filing_facts filing_contexts ["us-gaap:Goodwill"] (Some "latest")
    = Some None.
Proof. vm_compute. repeat split. Qed.

Lemma filing_contexts_NoDup : List.NoDup (map fst filing_contexts).
Proof.
  unfold filing_contexts. cbn [map fst].
  repeat (constructor; [cbn [In]; intuition discriminate|]). constructor.
Qed.

Lemma resolve_period_keys_witness :
  (forall cid, In cid ["FY24"; "Q1_24"; "Feb_Mar_24"] -> In cid (map fst filing_contexts)) /\
  List.NoDup ["FY24"; "Q1_24"; "Feb_Mar_24"].
Proof.
  apply (resolve_period_keys iso_date filing_contexts (Some "fy2024")).
  - exact filing_contexts_NoDup.
  - vm_compute. reflexivity.
Defined.

Lemma resolve_period_quarter_witness :
  exists ids,
    resolve_period iso_date filing_contexts (Some " q1 ") = Some ids /\
    forall e, List.filter (fun cid => ends_on iso_date filing_contexts e cid) ids
              = List.filter (fun cid => ends_on iso_date filing_contexts e cid
                                        && selected iso_date (fun d => Z.eqb (dt_month d) 3)
                                             filing_contexts cid)
                  (map fst filing_contexts).
Proof.
  destruct (resolve_period_quarter iso_date filing_contexts " q1 " 3%Z)
    as [ids [Hres [_ [_ Hstable]]]].
  - exact filing_contexts_NoDup.
  - discriminate.
  - reflexivity.
  - reflexivity.
  - exists ids. split; assumption.
Defined.

Lemma resolve_period_fiscal_year_witness :
  exists ids,
    resolve_period iso_date filing_contexts (Some "fy2024") = Some ids /\
    StronglySorted
      (fun a b => exists ea eb, end_date_of iso_date filing_contexts a = Some ea /\
                                end_date_of iso_date filing_contexts b = Some eb /\
                                dt_leb eb ea = true) ids.
Proof.
  destruct (resolve_period_fiscal_year iso_date filing_contexts "fy2024" 2024%Z)
    as [ids [Hres [_ [Hsorted _]]]].
  - exact filing_contexts_NoDup.
  - discriminate.
  - reflexivity.
  - reflexivity.
  - reflexivity.
  - discriminate.
  - exists ids. split; assumption.
Defined.

Lemma resolve_period_latest_witness :
  exists ids,
    resolve_period iso_date filing_contexts (Some "Latest") = Some ids /\
    exists P, ids = map fst (List.filter P filing_contexts).
Proof.
  destruct (resolve_period_latest iso_date filing_contexts "Latest")
    as [ids [Hres [_ Horder]]].
  - discriminate.
  - reflexivity.
  - reflexivity.
  - exists ids. split; assumption.
Defined.

Lemma resolve_period_mrq_witness :
  exists ids,
    resolve_period iso_date filing_contexts (Some "mrq") = Some ids /\
    StronglySorted (fun a b => dt_leb (sort_key iso_date filing_contexts b)
                                      (sort_key iso_date filing_contexts a) = true) ids.
Proof.
  destruct (resolve_period_mrq iso_date filing_contexts "mrq") as [ids [Hres [Hs _]]].
  - discriminate.
  - reflexivity.
  - reflexivity.
  - vm_compute. reflexivity.
  - exists ids. split; assumption.
Defined.

Lemma get_fact_ranked_witness :
  match get_fact iso_date filing_facts filing_contexts ["us-gaap:revenues"] (Some "FY2023") with
  | Some (Some f) =>
      In f (eligible_list filing_facts ["us-gaap:revenues"] ["FY23"]) /\
      (forall g, In g (eligible_list filing_facts ["us-gaap:revenues"] ["FY23"]) ->
         key_leb (_fact_sort_key iso_date filing_contexts (_preferred_period_type (Some "FY2023")) f)
                 (_fact_sort_key iso_date filing_contexts (_preferred_period_type (Some "FY2023")) g)
         = true) /\
      List.head (List.filter (tied iso_date filing_contexts (_preferred_period_type (Some "FY2023")) f)
                   (eligible_list filing_facts ["us-gaap:revenues"] ["FY23"])) = Some f
  | Some None => eligible_list filing_facts ["us-gaap:revenues"] ["FY23"] = []
  | None => False
  end.
Proof.
  apply (get_fact_ranked iso_date filing_facts filing_contexts ["us-gaap:revenues"]
           (Some "FY2023") ["FY23"]).
  vm_compute. reflexivity.
Defined.

Lemma get_fact_period_filter_witness :
  get_fact iso_date filing_facts filing_contexts ["us-gaap:revenues"] (Some "FY2030") = Some None
  <-> get_facts_by_tag filing_facts ["us-gaap:revenues"] = [].
Proof.
  apply (proj1 (get_fact_period_filter iso_date filing_facts filing_contexts
                  ["us-gaap:revenues"] "FY2030" [] eq_refl eq_refl)).
  reflexivity.
Defined.

Lemma get_fact_numeric_first_witness :
  is_Some (numeric_value
             {| tag := "US-GAAP:REVENUES"; contextRef := None; context_ := Some "FY24";
                numeric_value := Some 100%float |}).
Proof.
  apply (get_fact_numeric_first iso_date filing_facts filing_contexts ["us-gaap:revenues"]
           None []
           {| tag := "US-GAAP:REVENUES"; contextRef := None; context_ := Some "FY24";
              numeric_value := Some 100%float |}
           {| tag := "us-gaap:Revenues"; contextRef := Some "FY23"; context_ := None;
              numeric_value := Some 90%float |}).
  - reflexivity.
  - vm_compute. reflexivity.
  - split; [|now left]. vm_compute. right. left. reflexivity.
  - now eexists.
Defined.

Lemma resolve_period_own_id_witness :
  resolve_period iso_date filing_contexts (Some " FY24 ") = Some ["FY24"].
Proof.
  apply (resolve_period_own_id iso_date filing_contexts " FY24 "
           (duration "2024-01-01" "2024-12-31")); reflexivity.
Defined.

End FactIndex.

(** * [src/atlas/atlas.py]: time series of a concept *)

Module Atlas.

(** [_compute_yoy(series)]: the loop over [range(1, len(series))], carrying
    the previous value.  The values of a series are floats (they come from
    [build_concept_series]). *)
Definition yoy_change (v_prev v_curr : float) : option float :=
  if PrimFloat.eqb v_prev 0%float then None
  else Some (PrimFloat.div (PrimFloat.sub v_curr v_prev) v_prev).

Fixpoint yoy_from (v_prev : float) (rest : list (Z * float)) : list (Z * option float) :=
  match rest with
  | [] => []
  | (y_curr, v_curr) :: rest' => (y_curr, yoy_change v_prev v_curr) :: yoy_from v_curr rest'
  end.

Definition _compute_yoy (series : list (Z * float)) : list (Z * option float) :=
  match series with
  | [] => []
  | (_, v) :: rest => yoy_from v rest
  end.

(** The [years] argument of [series]: absent, an [int], or a list. *)
Inductive years_arg :=
| NoYears
| Year (y : Z)
| Years (ys : list Z).

(** [p[0] == years] and [p[0] in years] *)
Definition year_selected (years : years_arg) (y : Z) : bool :=
  match years with
  | NoYears => true
  | Year y' => Z.eqb y y'
  | Years ys => existsb (Z.eqb y) ys
  end.

(** The [kind]s of [series] that are arithmetic on the entries; ["cagr"]
    and ["trend"] call [**] and [statistics] and are not modelled. *)
Inductive kind := Raw | Yoy | Ttm.

Inductive series_result :=
| RawSeries (l : list (Z * float))
| YoySeries (l : list (Z * option float))
| Scalar (x : option float).

Section Series.

Variable embedding : option (string -> string -> Q).
Variable resolve_to_fact : string -> list FactExtractor.fact -> option string.
Variable py_float : string -> option float.

(** [self.facts] *)
Variable facts : list FactExtractor.fact.

(** The builtin [sum] on a list of floats.  Which float it returns depends
    on the interpreter: additions from left to right before CPython 3.12,
    compensated summation from 3.12 on; the repository pins neither. *)
Variable py_sum : list float -> float.

(** [_compute_ttm(series)]; [series[-4:]] is the last four entries. *)
Definition _compute_ttm (series : list (Z * float)) : option float :=
  if (length series <? 4)%nat then None
  else Some (py_sum (map snd (skipn (length series - 4) series))).

Definition build_concept_series (concept : string) : list (Z * float) :=
  FactExtractor.build_concept_series embedding resolve_to_fact py_float concept facts.

(** [Atlas.series(concept, years, kind)]; the outer [None] is the [None]
    of the two [if not base] exits. *)
Definition series (concept : string) (years : years_arg) (k : kind)
  : option series_result :=
  match build_concept_series concept with
  | [] => None
  | base =>
      match List.filter (fun p => year_selected years (fst p)) base with
      | [] => None
      | base =>
          match k with
          | Raw => Some (RawSeries base)
          | Yoy => Some (YoySeries (_compute_yoy base))
          | Ttm => Some (Scalar (_compute_ttm base))
          end
      end
  end.

(** *** Properties *)

Lemma StronglySorted_filter {B : Type} (R : B -> B -> Prop) (P : B -> bool) (l : list B) :
  StronglySorted R l -> StronglySorted R (List.filter P l).
Proof.
  induction 1 as [|a l Hs IH Ha]; cbn [List.filter]; [constructor|].
  destruct (P a); [|exact IH]. constructor; [exact IH|].
  rewrite List.Forall_forall in *. intros b Hb. apply Ha.
  apply List.filter_In in Hb. tauto.
Qed.

Lemma base_increasing (concept : string) :
  StronglySorted (fun a b : Z * float => fst a < fst b)%Z (build_concept_series concept).
Proof.
  unfold build_concept_series, FactExtractor.build_concept_series.
  apply FactExtractor.sorted_distinct_keys.
  - apply Py.sorted_sorted; [apply FactExtractor.by_year_total|apply FactExtractor.by_year_trans].
  - eapply Permutation_NoDup; [|apply FactExtractor.dedup_of_NoDup].
    apply Permutation_map. symmetry. apply Py.sorted_perm.
Qed.

Lemma yoy_from_years (v : float) (rest : list (Z * float)) :
  map fst (yoy_from v rest) = map fst rest.
Proof.
  revert v. induction rest as [|[y w] rest IH]; intros v; cbn [yoy_from map fst]; [reflexivity|].
  now rewrite IH.
Qed.

Lemma yoy_from_nth (v : float) (rest : list (Z * float)) (i : nat) (y : Z)
    (v_prev v_curr : float) :
  nth_error rest i = Some (y, v_curr) ->
  nth_error (v :: map snd rest) i = Some v_prev ->
  nth_error (yoy_from v rest) i = Some (y, yoy_change v_prev v_curr).
Proof.
  revert v i. induction rest as [|[y0 w] rest IH]; intros v i H Hp; [destruct i; discriminate|].
  destruct i as [|i]; cbn [nth_error yoy_from map snd] in *.
  - inversion H. inversion Hp. reflexivity.
  - now apply IH.
Qed.

(** The growth series is aligned to the series without its first entry:
    it has the years of [series[1:]], and the entry for a year is [None]
    when the value of the entry before it equals 0, and the relative
    change otherwise. *)
Theorem _compute_yoy_aligned (base : list (Z * float)) :
  map fst (_compute_yoy base) = map fst (tl base) /\
  forall i y_prev v_prev y_curr v_curr,
    nth_error base i = Some (y_prev, v_prev) ->
    nth_error base (S i) = Some (y_curr, v_curr) ->
    nth_error (_compute_yoy base) i
    = Some (y_curr,
            if PrimFloat.eqb v_prev 0%float then None
            else Some (PrimFloat.div (PrimFloat.sub v_curr v_prev) v_prev)).
Proof.
  destruct base as [|[y0 v0] rest]; cbn [_compute_yoy tl].
  - split; [reflexivity|]. intros i ? ? ? ? H. destruct i; discriminate.
  - split; [apply yoy_from_years|].
    intros i y_prev v_prev y_curr v_curr Hprev Hcurr. cbn [nth_error] in Hcurr.
    apply (yoy_from_nth v0 rest i y_curr v_prev v_curr Hcurr).
    change (v0 :: map snd rest) with (map snd ((y0, v0) :: rest)).
    rewrite nth_error_map, Hprev. reflexivity.
Qed.

(** A raw series is never empty, its years increase strictly, and it holds
    exactly the entries of [build_concept_series] whose year is selected. *)
Theorem series_raw_selected (concept : string) (years : years_arg) (r : series_result) :
  series concept years Raw = Some r ->
  exists l, r = RawSeries l /\ l <> [] /\
    StronglySorted (fun a b => fst a < fst b)%Z l /\
    forall y v, In (y, v) l <->
                In (y, v) (build_concept_series concept) /\ year_selected years y = true.
Proof.
  unfold series. pose proof (base_increasing concept) as Hs.
  destruct (build_concept_series concept) as [|a base] eqn:Eb; [discriminate|].
  rewrite <- Eb in *. clear Eb a base.
  destruct (List.filter _ (build_concept_series concept)) as [|a l] eqn:Ef; [discriminate|].
  intros H. inversion H. exists (a :: l). split; [reflexivity|]. split; [discriminate|].
  rewrite <- Ef. split.
  - now apply StronglySorted_filter.
  - intros y v. rewrite List.filter_In. reflexivity.
Qed.

Lemma filter_one_year (y : Z) (l : list (Z * float)) :
  StronglySorted (fun a b => fst a < fst b)%Z l ->
  (length (List.filter (fun p => year_selected (Year y) (fst p)) l) <= 1)%nat.
Proof.
  induction 1 as [|a l Hs IH Ha]; cbn [List.filter]; [cbn; lia|].
  cbn [year_selected] in *. destruct (Z.eqb_spec (fst a) y) as [E|_]; [|exact IH].
  assert (List.filter (fun p : Z * float => (fst p =? y)%Z) l = []) as ->; [|cbn; lia].
  clear IH Hs. induction l as [|b l IHl]; [reflexivity|]. cbn [List.filter].
  apply List.Forall_cons_iff in Ha. destruct Ha as [Hb Hl].
  destruct (Z.eqb_spec (fst b) y) as [E'|_]; [lia|]. now apply IHl.
Qed.

(** With a single year selected there is nothing to compare: the growth
    series is empty, or there is no series at all. *)
Theorem series_yoy_one_year (concept : string) (y : Z) :
  series concept (Year y) Yoy = None \/ series concept (Year y) Yoy = Some (YoySeries []).
Proof.
  unfold series. pose proof (filter_one_year y _ (base_increasing concept)) as Hlen.
  destruct (build_concept_series concept) as [|a base] eqn:Eb; [now left|].
  destruct (List.filter _ (a :: base)) as [|[y0 v0] [|b l]]; [now left| |cbn in Hlen; lia].
  right. reflexivity.
Qed.


End Series.

Lemma series_raw_selected_witness :
  exists l, RawSeries [(2020, 95%float); (2021, 100%float)] = RawSeries l /\ l <> [] /\
    StronglySorted (fun a b => fst a < fst b)%Z l /\
    forall y v, In (y, v) l <->
      In (y, v) (build_concept_series None FactExtractor.no_fallback
                   FactExtractor.decimal_float FactExtractor.filing "Revenue") /\
      year_selected (Years [2021; 2019; 2020]) y = true.
Proof.
  apply (series_raw_selected None FactExtractor.no_fallback FactExtractor.decimal_float
           FactExtractor.filing (fun vals => fold_left PrimFloat.add vals 0%float)
           "Revenue" (Years [2021; 2019; 2020])).
  vm_compute. reflexivity.
Defined.

End Atlas.

(** * [src/atlas/cost_structure.py]: the helpers of [CostStructureEngine] *)

Module CostStructureEngine.

(** [_latest(series)] *)
Definition _latest (series : list (Z * option float)) : option float :=
  match Py.last_item series with
  | Some (_, v) => v
  | None => None
  end.

(** One entry of [_pct_changes]:
    [None if prev_val is None or prev_val == 0 or curr_val is None]. *)
Definition pct_change (prev_val curr_val : option float) : option float :=
  match prev_val, curr_val with
  | Some prev, Some curr =>
      if PrimFloat.eqb prev 0%float then None
      else Some (PrimFloat.div (PrimFloat.sub curr prev) prev)
  | _, _ => None
  end.

Fixpoint pct_from (prev_val : option float) (rest : list (Z * option float))
  : list (option float) :=
  match rest with
  | [] => []
  | (_, curr_val) :: rest' => pct_change prev_val curr_val :: pct_from curr_val rest'
  end.

(** [_pct_changes(series)] *)
Definition _pct_changes (series : list (Z * option float)) : list (option float) :=
  match series with
  | [] => []
  | (_, v) :: rest => pct_from v rest
  end.

(** Body of [for v in values] in [_ema], on [current_ema]. *)
Definition ema_step (alpha : float) (current_ema v : option float) : option float :=
  match v with
  | Some v =>
      match current_ema with
      | None => Some v
      | Some c =>
          Some (PrimFloat.add (PrimFloat.mul alpha v)
                  (PrimFloat.mul (PrimFloat.sub 1%float alpha) c))
      end
  | None => current_ema
  end.

Fixpoint ema_from (alpha : float) (current_ema : option float) (values : list (option float))
  : list (option float) :=
  match values with
  | [] => []
  | v :: values' =>
      let current_ema := ema_step alpha current_ema v in
      current_ema :: ema_from alpha current_ema values'
  end.

(** [_ema(values, half_life)]; [alpha] stands for
    [1.0 - math.exp(-math.log(2) / half_life)]. *)
Definition _ema (alpha : float) (values : list (option float)) : list (option float) :=
  ema_from alpha None values.

(** [dict(series)]: the last pair of a period wins. *)
Definition dict_of (series : list (Z * float)) : gmap Z float := list_to_map (rev series).

(** [compute_marginal_costs(variable_costs, volume_series)] *)
Definition compute_marginal_costs (variable_costs : gmap Z float)
    (volume_series : list (Z * float)) : gmap Z (option float) :=
  let vol_dict := dict_of volume_series in
  map_imap (fun p vc => Some (CostStructure._safe_div (Some vc) (vol_dict !! p)))
    variable_costs.

(** [compute_contribution_margin(variable_costs, revenue_series)] *)
Definition compute_contribution_margin (variable_costs : gmap Z float)
    (revenue_series : list (Z * float)) : gmap Z (option float) :=
  let rev_dict := dict_of revenue_series in
  map_imap (fun p vc =>
              Some (match CostStructure._safe_div (Some vc) (rev_dict !! p) with
                    | Some val => Some (PrimFloat.sub 1.0%float val)
                    | None => None
                    end))
    variable_costs.

(** [fc is not None and cm is not None and cm > 0] for a period. *)
Definition has_margin (fixed_costs : gmap Z float)
    (contribution_margins : gmap Z (option float)) (p : Z) : bool :=
  match fixed_costs !! p, contribution_margins !! p with
  | Some _, Some (Some cm) => PrimFloat.ltb 0%float cm
  | _, _ => false
  end.

Fixpoint break_even_loop (fixed_costs : gmap Z float)
    (contribution_margins : gmap Z (option float)) (periods : list Z) : option float :=
  match periods with
  | [] => None
  | p :: periods' =>
      match fixed_costs !! p, contribution_margins !! p with
      | Some fc, Some (Some cm) =>
          if PrimFloat.ltb 0%float cm then Some (PrimFloat.div fc cm)
          else break_even_loop fixed_costs contribution_margins periods'
      | _, _ => break_even_loop fixed_costs contribution_margins periods'
      end
  end.

(** [compute_break_even(fixed_costs, contribution_margins)] *)
Definition compute_break_even (fixed_costs : gmap Z float)
    (contribution_margins : gmap Z (option float)) : option float :=
  break_even_loop fixed_costs contribution_margins
    (Py.sorted_reverse Z.leb (map fst (map_to_list fixed_costs))).

(** A share of the unit interval. *)
Definition unit_share (s : float) : Prop :=
  PrimFloat.leb 0%float s = true /\ PrimFloat.leb s 1%float = true.

(** *** Properties *)

Lemma pct_from_length prev (rest : list (Z * option float)) :
  length (pct_from prev rest) = length rest.
Proof.
  revert prev. induction rest as [|[p v] rest IH]; intros prev; cbn [pct_from length];
    [reflexivity|]. now rewrite IH.
Qed.

Lemma pct_from_nth prev (rest : list (Z * option float)) (i : nat) p curr_val prev_val :
  nth_error rest i = Some (p, curr_val) ->
  nth_error (prev :: map snd rest) i = Some prev_val ->
  nth_error (pct_from prev rest) i = Some (pct_change prev_val curr_val).
Proof.
  revert prev i. induction rest as [|[p0 w] rest IH]; intros prev i H Hp;
    [destruct i; discriminate|].
  destruct i as [|i]; cbn [nth_error pct_from map snd] in *.
  - inversion H. inversion Hp. reflexivity.
  - now apply IH.
Qed.

(** The changes are aligned to [periods[1:]]: one entry per period after
    the first, computed from the values of that period and the one before;
    it is [None] when the earlier value is missing or equals 0 or the later
    value is missing. *)
Theorem _pct_changes_aligned (series : list (Z * option float)) :
  length (_pct_changes series) = Nat.pred (length series) /\
  forall i prev curr,
    nth_error series i = Some prev -> nth_error series (S i) = Some curr ->
    nth_error (_pct_changes series) i = Some (pct_change (snd prev) (snd curr)) /\
    (snd prev = None \/ snd prev = Some 0%float \/ snd curr = None ->
     nth_error (_pct_changes series) i = Some None).
Proof.
  destruct series as [|[p0 v0] rest]; cbn [_pct_changes length Nat.pred].
  - split; [reflexivity|]. intros i ? ? H. destruct i; discriminate.
  - split; [apply pct_from_length|].
    intros i [pp pv] [cp cv] Hprev Hcurr. cbn [nth_error] in Hcurr. cbn [snd].
    assert (nth_error (pct_from v0 rest) i = Some (pct_change pv cv)) as E.
    { apply (pct_from_nth v0 rest i cp cv pv Hcurr).
      change (v0 :: map snd rest) with (map snd ((p0, v0) :: rest)).
      rewrite nth_error_map, Hprev. reflexivity. }
    split; [exact E|]. intros H. rewrite E. f_equal.
    destruct H as [-> | [-> | ->]]; [reflexivity|now destruct cv|].
    destruct pv as [x|]; [|reflexivity]. cbn [pct_change]. now destruct (PrimFloat.eqb x 0%float).
Qed.

Lemma ema_from_length alpha cur (values : list (option float)) :
  length (ema_from alpha cur values) = length values.
Proof.
  revert cur. induction values as [|v values IH]; intros cur; cbn [ema_from length];
    [reflexivity|]. now rewrite IH.
Qed.

Lemma ema_from_nth alpha cur (values : list (option float)) (i : nat) v :
  nth_error values (S i) = Some v ->
  nth_error (ema_from alpha cur values) (S i)
  = Some (ema_step alpha (default None (nth_error (ema_from alpha cur values) i)) v).
Proof.
  revert cur i. induction values as [|v0 values IH]; intros cur i H; [discriminate|].
  change (nth_error values i = Some v) in H.
  change (nth_error (ema_from alpha (ema_step alpha cur v0) values) i
          = Some (ema_step alpha
                    (default None
                       (nth_error (ema_step alpha cur v0
                                   :: ema_from alpha (ema_step alpha cur v0) values) i)) v)).
  destruct i as [|i].
  - destruct values as [|v1 values]; [discriminate|]. inversion H. reflexivity.
  - rewrite (IH _ i H). reflexivity.
Qed.

(** The smoothed series has one entry per input.  It is undefined up to
    the first defined input and starts at that input's value, whatever the
    smoothing factor. *)
Theorem _ema_starts_at_first_value (alpha : float) (n : nat) (x : float)
    (rest : list (option float)) :
  length (_ema alpha (repeat None n ++ Some x :: rest)) = (n + S (length rest))%nat /\
  firstn (S n) (_ema alpha (repeat None n ++ Some x :: rest)) = repeat None n ++ [Some x] /\
  _ema alpha (repeat None n) = repeat None n.
Proof.
  unfold _ema. split; [|split].
  - rewrite ema_from_length, length_app, repeat_length. reflexivity.
  - induction n as [|n IH]; cbn [repeat app ema_from ema_step firstn]; [reflexivity|].
    f_equal. exact IH.
  - induction n as [|n IH]; cbn [repeat ema_from ema_step]; [reflexivity|]. now rewrite IH.
Qed.

(** A missing input carries the previous smoothed value forward. *)
Theorem _ema_carries_forward (alpha : float) (values : list (option float)) (i : nat) :
  nth_error values (S i) = Some None ->
  nth_error (_ema alpha values) (S i) = nth_error (_ema alpha values) i.
Proof.
  intros H. unfold _ema. rewrite (ema_from_nth alpha None values i None H).
  cbn [ema_step].
  destruct (nth_error (ema_from alpha None values) i) as [e|] eqn:E; [reflexivity|].
  apply nth_error_None in E. rewrite ema_from_length in E.
  assert (S i < length values)%nat by (apply nth_error_Some; rewrite H; discriminate). lia.
Qed.

Lemma break_even_loop_spec (fixed_costs : gmap Z float)
    (contribution_margins : gmap Z (option float)) (periods : list Z) :
  match break_even_loop fixed_costs contribution_margins periods with
  | Some be =>
      exists l1 p l2 fc cm,
        periods = l1 ++ p :: l2 /\
        (forall q, In q l1 -> has_margin fixed_costs contribution_margins q = false) /\
        fixed_costs !! p = Some fc /\ contribution_margins !! p = Some (Some cm) /\
        PrimFloat.ltb 0%float cm = true /\ be = PrimFloat.div fc cm
  | None => forall q, In q periods -> has_margin fixed_costs contribution_margins q = false
  end.
Proof.
  induction periods as [|p periods IH]; cbn [break_even_loop]; [intros q []|].
  assert (has_margin fixed_costs contribution_margins p = false ->
          match break_even_loop fixed_costs contribution_margins periods with
          | Some be =>
              exists l1 p' l2 fc cm,
                p :: periods = l1 ++ p' :: l2 /\
                (forall q, In q l1 -> has_margin fixed_costs contribution_margins q = false) /\
                fixed_costs !! p' = Some fc /\ contribution_margins !! p' = Some (Some cm) /\
                PrimFloat.ltb 0%float cm = true /\ be = PrimFloat.div fc cm
          | None => forall q, In q (p :: periods) ->
                              has_margin fixed_costs contribution_margins q = false
          end) as Hskip.
  { intros Hp. destruct (break_even_loop fixed_costs contribution_margins periods) as [be|].
    - destruct IH as [l1 [p' [l2 [fc [cm [E [Hl1 H]]]]]]].
      exists (p :: l1), p', l2, fc, cm. split; [now rewrite E|]. split; [|exact H].
      intros q [<-|Hq]; [exact Hp|now apply Hl1].
    - intros q [<-|Hq]; [exact Hp|now apply IH]. }
  unfold has_margin in Hskip at 1.
  destruct (fixed_costs !! p) as [fc|] eqn:Ef; [|now apply Hskip].
  destruct (contribution_margins !! p) as [[cm|]|] eqn:Ec; [|now apply Hskip|now apply Hskip].
  destruct (PrimFloat.ltb 0%float cm) eqn:El; [|now apply Hskip].
  exists [], p, periods, fc, cm. repeat split; try assumption. intros q [].
Qed.

Lemma StronglySorted_app_tail {B : Type} (R : B -> B -> Prop) (l1 l2 : list B) (x : B) :
  StronglySorted R (l1 ++ x :: l2) -> List.Forall (R x) l2.
Proof.
  induction l1 as [|a l1 IH]; cbn [app]; intros H; inversion H; subst; [assumption|auto].
Qed.

Lemma keys_In (m : gmap Z float) (q : Z) : In q (map fst (map_to_list m)) <-> is_Some (m !! q).
Proof.
  rewrite in_map_iff. split.
  - intros [[k v] [<- H]]. apply list_elem_of_In, elem_of_map_to_list in H. now exists v.
  - intros [v H]. exists (q, v). split; [reflexivity|].
    now apply list_elem_of_In, elem_of_map_to_list.
Qed.

(** The break-even revenue is read at the latest period that has a fixed
    cost and a strictly positive contribution margin: every later period
    lacks one of them.  There is no result exactly when no period has
    both. *)
Theorem compute_break_even_latest_valid (fixed_costs : gmap Z float)
    (contribution_margins : gmap Z (option float)) :
  match compute_break_even fixed_costs contribution_margins with
  | Some be =>
      exists p fc cm,
        fixed_costs !! p = Some fc /\ contribution_margins !! p = Some (Some cm) /\
        PrimFloat.ltb 0%float cm = true /\ be = PrimFloat.div fc cm /\
        forall q, (p < q)%Z -> has_margin fixed_costs contribution_margins q = false
  | None => forall q, has_margin fixed_costs contribution_margins q = false
  end.
Proof.
  unfold compute_break_even.
  set (keys := map fst (map_to_list fixed_costs)).
  pose proof (break_even_loop_spec fixed_costs contribution_margins
                (Py.sorted_reverse Z.leb keys)) as H.
  assert (forall q, has_margin fixed_costs contribution_margins q = true ->
                    In q (Py.sorted_reverse Z.leb keys)) as Hkeys.
  { intros q Hq. unfold Py.sorted_reverse. apply Py.sorted_In. apply keys_In.
    unfold has_margin in Hq. destruct (fixed_costs !! q); [now eexists|discriminate]. }
  destruct (break_even_loop _ _ _) as [be|].
  - destruct H as [l1 [p [l2 [fc [cm [E [Hl1 [Hf [Hc [Hl Hbe]]]]]]]]]].
    exists p, fc, cm. repeat split; try assumption.
    intros q Hlt. destruct (has_margin fixed_costs contribution_margins q) eqn:Hq; [|reflexivity].
    exfalso. pose proof (Hkeys q Hq) as Hin. rewrite E in Hin. apply in_app_or in Hin.
    destruct Hin as [Hin | [-> | Hin]];
      [rewrite (Hl1 q Hin) in Hq; discriminate|lia|].
    assert (StronglySorted (fun a b => Z.leb b a = true) (l1 ++ p :: l2)) as Hs.
    { rewrite <- E. unfold Py.sorted_reverse. apply Py.sorted_sorted.
      - intros a b. destruct (Z.leb_spec b a); [now left|right]. apply Z.leb_le. lia.
      - intros a b c. rewrite !Z.leb_le. lia. }
    apply StronglySorted_app_tail in Hs. rewrite List.Forall_forall in Hs.
    specialize (Hs q Hin). apply Z.leb_le in Hs. lia.
  - intros q. destruct (has_margin fixed_costs contribution_margins q) eqn:Hq; [|reflexivity].
    rewrite <- (H q (Hkeys q Hq)). symmetry. exact Hq.
Qed.

(** Steps 5 and 6 of [compute_all] composed: a break-even revenue is the
    fixed cost of a period divided by one minus the ratio of that period's
    variable cost to its revenue, the revenue is not 0 and the margin is
    strictly positive. *)
Theorem compute_break_even_of_margins (fixed_costs variable_costs : gmap Z float)
    (revenue_series : list (Z * float)) (be : float) :
  compute_break_even fixed_costs
    (compute_contribution_margin variable_costs revenue_series) = Some be ->
  exists p fc vc rev,
    fixed_costs !! p = Some fc /\ variable_costs !! p = Some vc /\
    dict_of revenue_series !! p = Some rev /\ PrimFloat.eqb rev 0%float = false /\
    PrimFloat.ltb 0%float (PrimFloat.sub 1.0%float (PrimFloat.div vc rev)) = true /\
    be = PrimFloat.div fc (PrimFloat.sub 1.0%float (PrimFloat.div vc rev)).
Proof.
  unfold compute_break_even. intros Hbe.
  pose proof (break_even_loop_spec fixed_costs
                (compute_contribution_margin variable_costs revenue_series)
                (Py.sorted_reverse Z.leb (map fst (map_to_list fixed_costs)))) as H.
  rewrite Hbe in H. destruct H as [_ [p [_ [fc [cm [_ [_ [Hf [Hc [Hl ->]]]]]]]]]].
  unfold compute_contribution_margin in Hc. rewrite map_lookup_imap in Hc.
  destruct (variable_costs !! p) as [vc|] eqn:Ev; [|discriminate]. cbn in Hc.
  unfold CostStructure._safe_div in Hc.
  destruct (dict_of revenue_series !! p) as [rev|] eqn:Er; [|discriminate].
  destruct (PrimFloat.eqb rev 0%float) eqn:E0; [discriminate|].
  inversion Hc as [Ecm]. exists p, fc, vc, rev. rewrite Ecm. repeat split; assumption.
Qed.

(** [max(0.0, min(elas, 1.0))] is a share, whatever the elasticity. *)
Lemma clamp_unit_share (elas : float) :
  unit_share (Py.max 0.0%float (Py.min elas 1.0%float)).
Proof.
  unfold unit_share, Py.min.
  destruct (PrimFloat.ltb 1.0%float elas) eqn:Hhi; [split; reflexivity|].
  unfold Py.max. destruct (PrimFloat.ltb 0%float elas) eqn:Hlo; [|split; reflexivity].
  split; [now apply UnitEconomics.ltb_leb|].
  now apply (UnitEconomics.not_ltb_leb 0%float).
Qed.

Lemma default_unit_share (bucket : string) :
  unit_share (default 0.0%float (CostStructure.assoc_get bucket CostStructure.default_shares)).
Proof.
  unfold CostStructure.default_shares. cbn [CostStructure.assoc_get].
  repeat (destruct (String.eqb bucket _); [split; reflexivity|]).
  split; reflexivity.
Qed.

Definition shares_ok (sh : gmap string (gmap Z float)) : Prop :=
  forall bucket p s, CostStructure.share_of sh bucket p = Some s -> unit_share s.

Lemma bucket_step_shares_ok (e : CostStructure.elasticities_t) (p : Z)
    (a : CostStructure.acc) (b : string * CostStructure.period_map) :
  shares_ok (CostStructure.shares a) ->
  shares_ok (CostStructure.shares (CostStructure.bucket_step e p a b)).
Proof.
  intros Hok. destruct b as [bucket data]. unfold CostStructure.bucket_step.
  destruct (data !! p) as [cost|]; [|exact Hok]. cbn [CostStructure.shares].
  intros bucket' p' s. unfold CostStructure.share_of.
  destruct (decide (bucket' = bucket)) as [->|Hb].
  - rewrite lookup_insert_eq. destruct (decide (p' = p)) as [->|Hp].
    + rewrite lookup_insert_eq. intros E. inversion E.
      destruct (CostStructure.elasticity_at e bucket p);
        [apply clamp_unit_share|apply default_unit_share].
    + rewrite lookup_insert_ne by congruence. intros E. apply (Hok bucket p' s).
      unfold CostStructure.share_of.
      destruct (CostStructure.shares a !! bucket); [exact E|].
      cbn [default] in E. rewrite lookup_empty in E. discriminate.
  - rewrite lookup_insert_ne by congruence. apply (Hok bucket' p' s).
Qed.

Lemma bucket_loop_shares_ok (e : CostStructure.elasticities_t) (p : Z)
    (buckets : CostStructure.buckets_t) (a : CostStructure.acc) :
  shares_ok (CostStructure.shares a) ->
  shares_ok (CostStructure.shares (fold_left (CostStructure.bucket_step e p) buckets a)).
Proof.
  revert a. induction buckets as [|b buckets IH]; intros a Hok; cbn [fold_left]; [exact Hok|].
  apply IH. now apply bucket_step_shares_ok.
Qed.

Lemma period_loop_shares_ok (buckets : CostStructure.buckets_t)
    (e : CostStructure.elasticities_t) (periods : list Z) st :
  shares_ok (snd st) ->
  shares_ok (snd (fold_left (CostStructure.period_step buckets e) periods st)).
Proof.
  revert st. induction periods as [|p periods IH]; intros st Hok; cbn [fold_left]; [exact Hok|].
  apply IH. destruct st as [res bshares]. unfold CostStructure.period_step. cbn [snd].
  apply bucket_loop_shares_ok. exact Hok.
Qed.

(** Every per-bucket variable share that the split records lies in the
    unit interval, whatever the elasticities (negative, above 1, infinite
    or NaN). *)
Theorem compute_fixed_variable_split_shares (buckets : CostStructure.buckets_t)
    (elasticities : CostStructure.elasticities_t) (volume_series : list (Z * float))
    (bucket : string) (p : Z) (s : float) :
  CostStructure.share_of
    (snd (CostStructure.compute_fixed_variable_split buckets elasticities volume_series))
    bucket p = Some s ->
  PrimFloat.leb 0%float s = true /\ PrimFloat.leb s 1%float = true.
Proof.
  unfold CostStructure.compute_fixed_variable_split.
  apply (period_loop_shares_ok buckets elasticities). cbn [snd].
  intros b q x. unfold CostStructure.share_of.
  destruct (list_to_map _ !! b) as [m|] eqn:E; [|discriminate].
  apply elem_of_list_to_map_2 in E. apply list_elem_of_In, in_map_iff in E.
  destruct E as [b0 [Eb _]]. inversion Eb; subst. rewrite lookup_empty. discriminate.
Qed.

Lemma compute_break_even_of_margins_witness :
  exists p fc vc rev,
    ({[ 2020%Z := 30%float; 2021%Z := 40%float ]} : gmap Z float) !! p = Some fc /\
    ({[ 2020%Z := 50%float; 2021%Z := 120%float ]} : gmap Z float) !! p = Some vc /\
    dict_of [(2020%Z, 90%float); (2020%Z, 100%float); (2021%Z, 100%float)] !! p = Some rev /\
    PrimFloat.eqb rev 0%float = false /\
    PrimFloat.ltb 0%float (PrimFloat.sub 1.0%float (PrimFloat.div vc rev)) = true /\
    60%float = PrimFloat.div fc (PrimFloat.sub 1.0%float (PrimFloat.div vc rev)).
Proof.
  apply (compute_break_even_of_margins
           {[ 2020%Z := 30%float; 2021%Z := 40%float ]}
           {[ 2020%Z := 50%float; 2021%Z := 120%float ]}
           [(2020%Z, 90%float); (2020%Z, 100%float); (2021%Z, 100%float)] 60%float).
  vm_compute. reflexivity.
Defined.

Lemma _ema_carries_forward_witness :
  nth_error (_ema 0.5%float [None; Some 8%float; None; Some 4%float]) 2 = Some (Some 8%float).
Proof.
  rewrite (_ema_carries_forward 0.5%float [None; Some 8%float; None; Some 4%float] 1 eq_refl).
  reflexivity.
Defined.

Lemma compute_fixed_variable_split_shares_witness :
  PrimFloat.leb 0%float 1%float = true /\ PrimFloat.leb 1%float 1%float = true.
Proof.
  apply (compute_fixed_variable_split_shares
           [("COGS"%string, {[ 2021%Z := 600%float ]})]
           {[ "COGS"%string := {[ 2021%Z := Some 3.5%float ]} ]} [] "COGS"%string 2021%Z 1%float).
  vm_compute. reflexivity.
Defined.

End CostStructureEngine.
